(** * FourierListener: fingerprinting, storage and recognition

    A shallow embedding of [website/core.py/settings.py], [fingerprint.py],
    [storage.py] and [recognise.py], followed by the properties that the
    specification states about them.

    Conventions of the embedding.
    - A Python [float] (and [numpy.float64]) is an IEEE-754 binary64 value,
      [spec_float] of the Standard Library with [prec = 53], [emax = 1024].
      Arithmetic is the library's correctly rounded arithmetic; comparisons
      go through the exact rational value of the operands, so they do not
      depend on how a value is represented.
    - A Python exception is the [Raise] case of [result]; code that reads or
      writes the database or prints runs in the monad [M], which threads a
      [world] and keeps the world reached when an exception escapes.
    - A [dict] is an association list in insertion order ([dict_set] keeps
      the position of a key that is already present, as Python does).
    - Functions of other packages (the built-in [hash], [uuid.uuid5],
      [TinyTag.get], the decoder and [scipy.signal.spectrogram]) are section
      variables.  [scipy.ndimage.maximum_filter], [numpy.histogram],
      [numpy.arange], [argsort], [min], [max] and [int] are modelled by
      their documented behaviour. *)

From Stdlib Require Import ZArith QArith Qround List String Ascii Bool Lia Lqa.
From Stdlib Require Import Sorted Permutation.
From Stdlib Require Import Floats.SpecFloat DecimalString.
Import ListNotations.

Local Open Scope Z_scope.

(** ** binary64 values *)

Definition float := spec_float.
Definition prec : Z := 53.
Definition emax : Z := 1024.

Definition fadd : float -> float -> float := SFadd prec emax.
Definition fsub : float -> float -> float := SFsub prec emax.
Definition fmul : float -> float -> float := SFmul prec emax.
Definition fdiv : float -> float -> float := SFdiv prec emax.

(** [float(z)] for a Python integer [z]. *)
Definition Z2F (z : Z) : float := binary_normalize prec emax z 0 false.

Definition is_finite (x : float) : bool :=
  match x with
  | S754_zero _ | S754_finite _ _ _ => true
  | S754_infinity _ | S754_nan => false
  end.

(** The exact value of a finite float. *)
Definition F2Q (x : float) : Q :=
  match x with
  | S754_finite s m e =>
      match e with
      | Z0 => inject_Z (cond_Zopp s (Zpos m))
      | Zpos _ => inject_Z (cond_Zopp s (Zpos m) * 2 ^ e)
      | Zneg p => Qmake (cond_Zopp s (Zpos m)) (2 ^ p)
      end
  | _ => 0%Q
  end.

(** IEEE comparison: unordered ([None]) as soon as one side is a NaN. *)
Definition fcompare (x y : float) : option comparison :=
  match x, y with
  | S754_nan, _ | _, S754_nan => None
  | S754_infinity s1, S754_infinity s2 =>
      Some (match s1, s2 with
            | true, false => Lt
            | false, true => Gt
            | _, _ => Eq
            end)
  | S754_infinity s, _ => Some (if s then Lt else Gt)
  | _, S754_infinity s => Some (if s then Gt else Lt)
  | _, _ => Some (Qcompare (F2Q x) (F2Q y))
  end.

Definition flt (x y : float) : bool :=
  match fcompare x y with Some Lt => true | _ => false end.
Definition fle (x y : float) : bool :=
  match fcompare x y with Some (Lt | Eq) => true | _ => false end.
Definition feq (x y : float) : bool :=
  match fcompare x y with Some Eq => true | _ => false end.

(** ** Exceptions *)

Inductive exn : Type :=
| ValueError | OverflowError | TypeError | KeyError | IndexError
| ProgrammingError | IOError.

Inductive result (A : Type) : Type :=
| Ok (a : A)
| Raise (e : exn).
Arguments Ok {A} a.
Arguments Raise {A} e.

Definition rbind {A B} (r : result A) (k : A -> result B) : result B :=
  match r with
  | Ok a => k a
  | Raise e => Raise e
  end.

Notation "'let?' x ':=' e 'in' k" := (rbind e (fun x => k))
  (at level 10, x pattern, e at level 100, k at level 200).

(** [int(x)]: truncation towards zero; [ValueError] on a NaN and
    [OverflowError] on an infinity. *)
Definition Qtrunc (q : Q) : Z := Z.quot (Qnum q) (Zpos (Qden q)).

Definition py_int (x : float) : result Z :=
  match x with
  | S754_nan => Raise ValueError
  | S754_infinity _ => Raise OverflowError
  | _ => Ok (Qtrunc (F2Q x))
  end.

(** [min(l)] and [max(l)]: the first element is the candidate, a later item
    replaces it when [item < best] (resp. [item > best]); [ValueError] on an
    empty sequence. *)
Definition py_min (l : list float) : result float :=
  match l with
  | [] => Raise ValueError
  | x :: r => Ok (fold_left (fun best item => if flt item best then item else best) r x)
  end.

Definition py_max (l : list float) : result float :=
  match l with
  | [] => Raise ValueError
  | x :: r => Ok (fold_left (fun best item => if flt best item then item else best) r x)
  end.

(** [l[:n]] *)
Definition py_slice_to {A} (n : Z) (l : list A) : list A :=
  if n <? 0 then firstn (List.length l - Z.to_nat (- n))%nat l
  else firstn (Z.to_nat n) l.

(** [str(z)] for an integer. *)
Definition str (z : Z) : string := NilZero.string_of_int (Z.to_int z).

(** ** Dictionaries *)

Section Dict.
Context {K V : Type} (eqb : K -> K -> bool).

Definition dict := list (K * V).

Fixpoint dict_get (d : dict) (k : K) : option V :=
  match d with
  | [] => None
  | (k', v) :: r => if eqb k k' then Some v else dict_get r k
  end.

(** [d[k] = v] *)
Fixpoint dict_set (d : dict) (k : K) (v : V) : dict :=
  match d with
  | [] => [(k, v)]
  | (k', v') :: r => if eqb k k' then (k', v) :: r else (k', v') :: dict_set r k v
  end.
End Dict.
Arguments dict K V : clear implicits.

(** ** settings.py *)

Definition SAMPLE_RATE : Z := 44100.
Definition PEAK_BOX_SIZE : Z := 30.
(** [0.8], [0.05], [1.8], [0.2]: the binary64 value nearest to the literal. *)
Definition POINT_EFFICIENCY : float := Eval vm_compute in fdiv (Z2F 8) (Z2F 10).
Definition TARGET_START : float := Eval vm_compute in fdiv (Z2F 5) (Z2F 100).
Definition TARGET_T : float := Eval vm_compute in fdiv (Z2F 18) (Z2F 10).
Definition TARGET_F : Z := 4000.
Definition FFT_WINDOW_SIZE : float := Eval vm_compute in fdiv (Z2F 2) (Z2F 10).
Definition NUM_WORKERS : Z := 24.

Definition half : float := Eval vm_compute in fdiv (Z2F 1) (Z2F 2).

(** ** fingerprint.py *)

(** A spectrogram power matrix [Sxx], indexed [frequency][time]. *)
Definition matrix := list (list float).

(** The value [scipy.ndimage] reads at row [r], column [c] under
    [mode='constant', cval=0.0]: the cell, or [0.0] outside the array. *)
Definition cval : float := S754_zero false.

Definition cell (Sxx : matrix) (r c : Z) : float :=
  if (r <? 0) || (c <? 0) then cval
  else match nth_error Sxx (Z.to_nat r) with
       | Some row => match nth_error row (Z.to_nat c) with
                     | Some v => v
                     | None => cval
                     end
       | None => cval
       end.

(** The indices a filter of [size] cells reads around index [i] (origin 0):
    [i - size // 2], ..., [i - size // 2 + size - 1]. *)
Definition window (size i : Z) : list Z :=
  map (fun k => i - size / 2 + Z.of_nat k) (seq 0 (Z.to_nat size)).

Definition fmax (a b : float) : float := if flt a b then b else a.

Definition neighbourhood (Sxx : matrix) (size y x : Z) : list float :=
  flat_map (fun r => map (fun c => cell Sxx r c) (window size x)) (window size y).

(** [maximum_filter(Sxx, size=size, mode='constant', cval=0.0)], one cell. *)
Definition data_max_at (Sxx : matrix) (size y x : Z) : float :=
  match neighbourhood Sxx size y x with
  | [] => cval
  | v :: rest => fold_left fmax rest v
  end.

Definition indexed {A} (l : list A) : list (nat * A) := combine (seq 0 (List.length l)) l.

Definition maximum_filter (Sxx : matrix) (size : Z) : matrix :=
  map (fun yr => map (fun xv => data_max_at Sxx size (Z.of_nat (fst yr)) (Z.of_nat (fst xv)))
                     (indexed (snd yr)))
      (indexed Sxx).

(** [(Sxx == data_max).nonzero()]: the coordinates of the cells that equal
    their filtered value, row by row. *)
Definition peak_coords (Sxx data_max : matrix) : list (nat * nat) :=
  flat_map (fun yr =>
    flat_map (fun xv =>
      if feq (snd xv) (cell data_max (Z.of_nat (fst yr)) (Z.of_nat (fst xv)))
      then [(fst yr, fst xv)] else [])
      (indexed (snd yr)))
    (indexed Sxx).

(** [a.argsort()]: the indices of [a] in ascending order of value.  numpy
    leaves the order of equal values open; here an index is inserted after
    the indices of equal value that are already placed. *)
Fixpoint insert_idx (vals : list float) (i : nat) (sorted : list nat) : list nat :=
  match sorted with
  | [] => [i]
  | j :: r => if flt (nth i vals S754_nan) (nth j vals S754_nan)
              then i :: j :: r
              else j :: insert_idx vals i r
  end.

Definition argsort (vals : list float) : list nat :=
  fold_left (fun sorted i => insert_idx vals i sorted) (seq 0 (List.length vals)) [].

(** [int((total / (PEAK_BOX_SIZE**2)) * POINT_EFFICIENCY)] *)
Definition peak_target (total : Z) : result Z :=
  py_int (fmul (fdiv (Z2F total) (Z2F (PEAK_BOX_SIZE ^ 2))) POINT_EFFICIENCY).

Definition find_peaks (Sxx : matrix) : result (list (nat * nat)) :=
  let data_max := maximum_filter Sxx PEAK_BOX_SIZE in
  let peaks := peak_coords Sxx data_max in
  let peak_values := map (fun p => cell Sxx (Z.of_nat (fst p)) (Z.of_nat (snd p))) peaks in
  let i := rev (argsort peak_values) in
  let j := map (fun idx => nth idx peaks (0%nat, 0%nat)) i in
  let total := Z.of_nat (List.length Sxx) * Z.of_nat (List.length (hd [] Sxx)) in
  let? peak_target := peak_target total in
  Ok (py_slice_to peak_target j).

(** A peak resolved to values: [(frequency, time)]. *)
Definition point := (float * float)%type.

Fixpoint idxs_to_tf_pairs (idxs : list (nat * nat)) (t f : list float) : result (list point) :=
  match idxs with
  | [] => Ok []
  | i :: rest =>
      match nth_error f (fst i), nth_error t (snd i) with
      | Some fv, Some tv =>
          let? pts := idxs_to_tf_pairs rest t f in Ok ((fv, tv) :: pts)
      | _, _ => Raise IndexError
      end
  end.

(** A fingerprint record [(hash, time offset, song_id)]. *)
Definition fingerprint := (Z * float * string)%type.

Definition target_zone (anchor : point) (points : list point) (width : float)
    (height : Z) (t : float) : list point :=
  let x_min := fadd (snd anchor) t in
  let x_max := fadd x_min width in
  let y_min := fsub (fst anchor) (fmul (Z2F height) half) in
  let y_max := fadd y_min (Z2F height) in
  filter (fun point =>
            if flt (fst point) y_min || flt y_max (fst point) then false
            else if flt (snd point) x_min || flt x_max (snd point) then false
            else true)
         points.

Section Fingerprint.
(** The built-in [hash] on a 3-tuple of floats. *)
Variable hash : float * float * float -> Z.
(** [uuid.uuid5(uuid.NAMESPACE_OID, name).int] *)
Variable uuid5_oid_int : string -> Z.
(** [file_to_spectrogram]: decoding, resampling and
    [scipy.signal.spectrogram], giving [(f, t, Sxx)]. *)
Variable file_to_spectrogram : string -> result (list float * list float * matrix).

Definition hash_point_pair (p1 p2 : point) : Z :=
  hash (fst p1, fst p2, fsub (snd p2) (snd p2)).

Definition hash_points (points : list point) (filename : string) : list fingerprint :=
  let song_id := uuid5_oid_int filename in
  flat_map (fun anchor =>
              map (fun target => (hash_point_pair anchor target, snd anchor, str song_id))
                  (target_zone anchor points TARGET_T TARGET_F TARGET_START))
           points.

Definition fingerprint_file (filename : string) : result (list fingerprint) :=
  let? ftS := file_to_spectrogram filename in
  let '(f, t, Sxx) := ftS in
  let? peaks := find_peaks Sxx in
  let? peaks := idxs_to_tf_pairs peaks t f in
  Ok (hash_points peaks filename).
End Fingerprint.

(** ** The interpreter state: database, standard output, worker lock *)

(** The Python values that reach [print], [store_song] and the callers of
    [recognise_song]: [None], a string, or a tuple of tag fields (each a
    string or [None]). *)
Inductive pyval : Type :=
| PyNone
| PyStr (s : string)
| PyTuple (l : list (option string)).

(** The two tables created by [setup_db]:
    [hash (hash int, offset real, song_id text)] and
    [song_info (artist text, album text, title text, song_id text)],
    each as its rows in insertion order. *)
Record database : Type := {
  hash_tbl : list fingerprint;
  song_info_tbl : list (string * string * string * string)
}.

Record world : Type := {
  db : database;
  stdout : list pyval;
  (** whether the global [lock] of [recognise.py] was set by [pool_init] *)
  lock_defined : bool
}.

Definition M (A : Type) : Type := world -> result A * world.

Definition ret {A} (a : A) : M A := fun w => (Ok a, w).

Definition bind {A B} (m : M A) (k : A -> M B) : M B :=
  fun w => match m w with
           | (Ok a, w') => k a w'
           | (Raise e, w') => (Raise e, w')
           end.

Definition lift {A} (r : result A) : M A := fun w => (r, w).

Notation "'let*' x ':=' e 'in' k" := (bind e (fun x => k))
  (at level 10, x pattern, e at level 100, k at level 200).

Definition print (v : pyval) : M pyval :=
  fun w => (Ok PyNone,
            {| db := db w; stdout := stdout w ++ [v]; lock_defined := lock_defined w |}).

Definition get_db : M database := fun w => (Ok (db w), w).

(** [conn.commit()]: the rows written on the cursor become the database. *)
Definition commit (d : database) : M unit :=
  fun w => (Ok tt, {| db := d; stdout := stdout w; lock_defined := lock_defined w |}).

(** ** storage.py *)

Section Storage.
Variable uuid5_oid_int : string -> Z.

Definition song_in_db (filename : string) : M bool :=
  let* d := get_db in
  let song_id := str (uuid5_oid_int filename) in
  ret (match find (fun row => String.eqb (snd row) song_id) (song_info_tbl d) with
       | Some _ => true
       | None => false
       end).

(** Iterating over [song_info] in the list comprehension of [store_song]. *)
Definition py_iter (v : pyval) : result (list (option string)) :=
  match v with
  | PyNone => Raise TypeError
  | PyStr s => Ok (map (fun c => Some (String c EmptyString)) (list_ascii_of_string s))
  | PyTuple l => Ok l
  end.

(** Binding the items of [insert_info] followed by [song_id] to the four
    placeholders of [INSERT INTO song_info VALUES (?, ?, ?, ?)]. *)
Definition bind_song_info (insert_info : list string) (song_id : string)
  : result (string * string * string * string) :=
  match insert_info with
  | [a; b; c] => Ok (a, b, c, song_id)
  | _ => Raise ProgrammingError
  end.

Definition store_song (hashes : list fingerprint) (song_info : pyval) : M pyval :=
  if (List.length hashes <? 1)%nat then ret PyNone
  else
    let* d := get_db in
    let hash_rows := hash_tbl d ++ hashes in
    let* items := lift (py_iter song_info) in
    let insert_info :=
      map (fun i => match i with Some s => s | None => "Unknown"%string end) items in
    let* row := lift (bind_song_info insert_info
                        (match hashes with h :: _ => snd h | [] => EmptyString end)) in
    let* _ := commit {| hash_tbl := hash_rows;
                        song_info_tbl := song_info_tbl d ++ [row] |} in
    ret PyNone.

Definition append_match (result_dict : dict string (list (float * float)))
    (song_id : string) (pair : float * float) : dict string (list (float * float)) :=
  dict_set String.eqb result_dict song_id
    (match dict_get String.eqb result_dict song_id with
     | Some l => l ++ [pair]
     | None => [pair]
     end).

Fixpoint group_matches (h_dict : dict Z float) (results : list fingerprint)
    (result_dict : dict string (list (float * float)))
  : result (dict string (list (float * float))) :=
  match results with
  | [] => Ok result_dict
  | r :: rest =>
      match dict_get Z.eqb h_dict (fst (fst r)) with
      | Some t => group_matches h_dict rest
                    (append_match result_dict (snd r) (snd (fst r), t))
      | None => Raise KeyError
      end
  end.

(** The [SELECT ... WHERE hash IN (...)] selects the rows whose hash is one of
    the queried values; an empty list of values, which SQLite accepts,
    selects nothing.  SQL leaves the order of the selected rows open; they
    are read in table order here, and what is stated about the pairs of a
    song is stated up to their order. *)
Definition get_matches (hashes : list fingerprint)
  : M (dict string (list (float * float))) :=
  let h_dict :=
    fold_left (fun h_dict rec => dict_set Z.eqb h_dict (fst (fst rec)) (snd (fst rec)))
              hashes [] in
  let in_values := map (fun h => fst (fst h)) hashes in
  let* d := get_db in
  let results :=
    filter (fun row => existsb (Z.eqb (fst (fst row))) in_values) (hash_tbl d) in
  lift (group_matches h_dict results []).

(** [song_id] is [None] when [best_match] found nothing; [song_id = NULL]
    selects no row. *)
Definition get_info_for_song_id (song_id : option string)
  : M (option (string * string * string)) :=
  let* d := get_db in
  ret (match song_id with
       | None => None
       | Some id =>
           match find (fun row => String.eqb (snd row) id) (song_info_tbl d) with
           | Some (a, b, c, _) => Some (a, b, c)
           | None => None
           end
       end).
End Storage.

(** ** recognise.py *)

(** [numpy.arange(start, stop, step)] on float64 values and a step that is
    not zero, as numpy computes it: the length is
    [ceil((stop - start) / step)], the first two items are [start] and
    [start + step], and item [i] from the third on is [start + i * delta]
    with [delta = (start + step) - start]; every operation is a binary64
    one.  [ValueError] for a length that is not a number, [OverflowError]
    for a length beyond the index range.  (The integer [start] that
    [score_match] passes enters the float64 array as its float; the memory
    an array of that length needs is not modelled.) *)
Definition np_arange (start stop step : float) : result (list float) :=
  match fdiv (fsub stop start) step with
  | S754_nan => Raise ValueError
  | S754_infinity _ => Raise OverflowError
  | value =>
      let len := Qceiling (F2Q value) in
      if (len <? - 2 ^ 63) || (2 ^ 63 <? len) then Raise OverflowError
      else
        let next := fadd start step in
        let delta := fsub next start in
        Ok (map (fun i => match i with
                          | O => start
                          | S O => next
                          | _ => fadd start (fmul (Z2F (Z.of_nat i)) delta)
                          end)
                (seq 0 (Z.to_nat len)))
  end.

(** Whether [v] is counted in the bin with edges [lo] and [hi]: bins are
    half-open, except the last one, which also holds its right edge.  A NaN
    lies in no bin. *)
Definition in_bin (lo hi : float) (last : bool) (v : float) : bool :=
  fle lo v && (if last then fle v hi else flt v hi).

Fixpoint bin_counts (a : list float) (bins : list float) : list nat :=
  match bins with
  | lo :: ((hi :: rest) as tl) =>
      List.length (filter (in_bin lo hi (match rest with [] => true | _ => false end)) a)
      :: bin_counts a tl
  | _ => []
  end.

(** No edge is above the next one. *)
Fixpoint monotone (bins : list float) : bool :=
  match bins with
  | lo :: ((hi :: _) as tl) => negb (flt hi lo) && monotone tl
  | _ => true
  end.

(** [numpy.histogram(a, bins=bins)[0]] for an array [bins] of edges:
    [ValueError] when the edges do not increase monotonically. *)
Definition np_histogram (a bins : list float) : result (list nat) :=
  if monotone bins then Ok (bin_counts a bins) else Raise ValueError.

(** [numpy.max(hist)]: [ValueError] on an empty array. *)
Definition np_max (hist : list nat) : result nat :=
  match hist with
  | [] => Raise ValueError
  | h :: rest => Ok (fold_left Nat.max rest h)
  end.

Definition score_match (offsets : list (float * float)) : result nat :=
  let binwidth := half in
  let tks := map (fun x => fsub (fst x) (snd x)) offsets in
  let? lo := py_min tks in
  let? start := py_int lo in
  let? hi := py_max tks in
  let? stop := py_int hi in
  let? bins := np_arange (Z2F start) (fadd (fadd (Z2F stop) binwidth) (Z2F 1)) binwidth in
  let? hist := np_histogram tks bins in
  np_max hist.

Fixpoint best_match_loop (items : list (string * list (float * float)))
    (matched_song : option string) (best_score : nat) : result (option string) :=
  match items with
  | [] => Ok matched_song
  | (song_id, offsets) :: rest =>
      if (List.length offsets <? best_score)%nat
      then best_match_loop rest matched_song best_score
      else
        let? score := score_match offsets in
        if (best_score <? score)%nat
        then best_match_loop rest (Some song_id) score
        else best_match_loop rest matched_song best_score
  end.

Definition best_match (matches : dict string (list (float * float)))
  : result (option string) :=
  best_match_loop matches None 0%nat.

(** The variant the specification compares [best_match] with: every song of
    the MatchSet is scored, none is skipped. *)
Fixpoint best_match_naive_loop (items : list (string * list (float * float)))
    (matched_song : option string) (best_score : nat) : result (option string) :=
  match items with
  | [] => Ok matched_song
  | (song_id, offsets) :: rest =>
      let? score := score_match offsets in
      if (best_score <? score)%nat
      then best_match_naive_loop rest (Some song_id) score
      else best_match_naive_loop rest matched_song best_score
  end.

Definition best_match_naive (matches : dict string (list (float * float)))
  : result (option string) :=
  best_match_naive_loop matches None 0%nat.

(** The fields of a [TinyTag] that [get_song_info] reads. *)
Record tag : Type := {
  artist : option string;
  albumartist : option string;
  album : option string;
  title : option string
}.

Section Recognise.
Variable uuid5_oid_int : string -> Z.
(** [fingerprint.fingerprint_file], as imported by [recognise.py]. *)
Variable fingerprint_file : string -> result (list fingerprint).
(** [TinyTag.get] *)
Variable TinyTag_get : string -> result tag.

Definition get_song_info (filename : string) : M pyval :=
  let* tag := lift (TinyTag_get filename) in
  let artist := match albumartist tag with
                | None => artist tag
                | Some _ => albumartist tag
                end in
  print (PyTuple [artist; album tag; title tag]).

Definition register_song (filename : string) : M pyval :=
  let* present := song_in_db uuid5_oid_int filename in
  if present then ret PyNone
  else
    let* hashes := lift (fingerprint_file filename) in
    let* song_info := get_song_info filename in
    fun w =>
      if lock_defined w
      then (* with lock: *) store_song hashes song_info w
      else (* except NameError: *) store_song hashes song_info w.

Definition recognise_song (filename : string) : M pyval :=
  let* hashes := lift (fingerprint_file filename) in
  let* matches := get_matches hashes in
  let* matched_song := lift (best_match matches) in
  let* info := get_info_for_song_id matched_song in
  match info with
  | Some (a, b, c) => print (PyTuple [Some a; Some b; Some c])
  | None =>
      let* _ := print (PyStr "Did not find a result") in
      ret (match matched_song with
           | None => PyNone
           | Some song_id => PyStr song_id
           end)
  end.
End Recognise.

(** *** register_directory: the files it hands to the workers *)

Definition KNOWN_EXTENSIONS : list string := ["mp3"; "wav"; "flac"; "m4a"]%string.

(** [s.split(sep)] for a one-character separator. *)
Fixpoint py_split (sep : ascii) (s : string) : list string :=
  match s with
  | EmptyString => [EmptyString]
  | String c rest =>
      if Ascii.eqb c sep then EmptyString :: py_split sep rest
      else match py_split sep rest with
           | hd :: tl => String c hd :: tl
           | [] => [String c EmptyString]
           end
  end.

(** [f.split('.')[-1] in KNOWN_EXTENSIONS] *)
Definition has_known_extension (f : string) : bool :=
  existsb (String.eqb (last (py_split "."%char f) EmptyString)) KNOWN_EXTENSIONS.

Definition startswith_slash (s : string) : bool :=
  match s with
  | String c _ => Ascii.eqb c "/"%char
  | EmptyString => false
  end.

Fixpoint endswith_slash (s : string) : bool :=
  match s with
  | EmptyString => false
  | String c EmptyString => Ascii.eqb c "/"%char
  | String _ rest => endswith_slash rest
  end.

(** [os.path.join(a, *p)] of [posixpath]: a component that starts with a
    slash replaces what was joined so far; otherwise it is appended, after a
    slash unless the path so far is empty or ends with one. *)
Definition os_path_join (a : string) (p : list string) : string :=
  fold_left (fun path b =>
               if startswith_slash b then b
               else if String.eqb path EmptyString || endswith_slash path
                    then (path ++ b)%string
                    else (path ++ "/" ++ b)%string)
            p a.

Section RegisterDirectory.
(** [os.walk(path)] as the list of its [(root, files)]. *)
Variable os_walk : string -> list (string * list string).

(** The list [to_register] that [register_directory] builds. *)
Definition to_register (path : string) : list string :=
  flat_map (fun rf =>
              map (fun f => os_path_join path [fst rf; f])
                  (filter has_known_extension (snd rf)))
           (os_walk path).
End RegisterDirectory.

(** ** Vocabulary of the statements *)

Definition finite (x : float) : Prop := is_finite x = true.

Definition finite_matrix (Sxx : matrix) : Prop := Forall (Forall finite) Sxx.

(** The power at a peak coordinate. *)
Definition value (Sxx : matrix) (p : nat * nat) : float :=
  cell Sxx (Z.of_nat (fst p)) (Z.of_nat (snd p)).

(** The sort key of index [i] in [argsort vals]. *)
Definition key (vals : list float) (i : nat) : float := nth i vals S754_nan.

(** Zero or positive sign (a NaN counts: [py_int] rejects it anyway). *)
Definition nonneg (x : float) : Prop :=
  match x with
  | S754_finite s _ _ | S754_infinity s => s = false
  | _ => True
  end.

(** A delta of at most [2^20] seconds (twelve days) in magnitude.  The bin
    edges of [score_match] are then multiples of one half that binary64
    holds exactly, and there are at most [2^22 + 3] of them. *)
Definition moderate (d : float) : bool :=
  is_finite d && Qle_bool (- inject_Z (2 ^ 20)) (F2Q d) && Qle_bool (F2Q d) (inject_Z (2 ^ 20)).

(** A list of offset pairs that [score_match] accepts: not empty, and every
    [stored_offset - query_offset] is a moderate number. *)
Definition scoreable (offsets : list (float * float)) : bool :=
  match offsets with
  | [] => false
  | _ => forallb (fun x => moderate (fsub (fst x) (snd x))) offsets
  end.

(** A non-empty list of offset pairs whose deltas are finite numbers. *)
Definition finite_deltas (offsets : list (float * float)) : bool :=
  match offsets with
  | [] => false
  | _ => forallb (fun x => is_finite (fsub (fst x) (snd x))) offsets
  end.

(** The offset of the last, resp. first, query record whose hash is [h]. *)
Fixpoint last_query_offset (hashes : list fingerprint) (h : Z) : option float :=
  match hashes with
  | [] => None
  | rec :: rest =>
      match last_query_offset rest h with
      | Some t => Some t
      | None => if Z.eqb h (fst (fst rec)) then Some (snd (fst rec)) else None
      end
  end.

Definition first_query_offset (hashes : list fingerprint) (h : Z) : option float :=
  match find (fun rec => Z.eqb h (fst (fst rec))) hashes with
  | Some rec => Some (snd (fst rec))
  | None => None
  end.

(** The dictionary [h_dict] that [get_matches] builds from the query
    records, and the rows its [SELECT] matches, in table order. *)
Definition query_dict (hashes : list fingerprint) : dict Z float :=
  fold_left (fun h_dict rec => dict_set Z.eqb h_dict (fst (fst rec)) (snd (fst rec)))
            hashes [].

Definition selected_rows (hashes : list fingerprint) (d : database) : list fingerprint :=
  filter (fun row => existsb (Z.eqb (fst (fst row)))
                       (map (fun h : fingerprint => fst (fst h)) hashes))
         (hash_tbl d).

(** The pairs a MatchSet holds for a song ([[]] for a song that is not a key). *)
Definition offsets_of (m : dict string (list (float * float))) (song_id : string)
  : list (float * float) :=
  match dict_get String.eqb m song_id with
  | Some l => l
  | None => []
  end.

(** The pair a stored row contributes when [lookup] gives the query offset
    of its hash (nothing when the hash was not queried). *)
Definition pair_of (lookup : Z -> option float) (row : fingerprint) : list (float * float) :=
  match lookup (fst (fst row)) with
  | Some t => [(snd (fst row), t)]
  | None => []
  end.

(** The bin edge number [i] when the first edge is the integer [a]. *)
Definition edge (a : Z) (i : nat) : Q := (inject_Z a + inject_Z (Z.of_nat i) * (1 # 2))%Q.

(** The histogram [hist] that [score_match] takes the maximum of. *)
Definition delta_histogram (offsets : list (float * float)) : result (list nat) :=
  let binwidth := half in
  let tks := map (fun x => fsub (fst x) (snd x)) offsets in
  let? lo := py_min tks in
  let? start := py_int lo in
  let? hi := py_max tks in
  let? stop := py_int hi in
  let? bins := np_arange (Z2F start) (fadd (fadd (Z2F stop) binwidth) (Z2F 1)) binwidth in
  np_histogram tks bins.

(** The same computation with the bin edges as exact rationals:
    [ceil((stop - start) / step)] edges [start + i * step].  The binary64
    computation of [score_match] is compared with it. *)
Definition arange_exact (start stop step : Q) : list Q :=
  map (fun i => (start + inject_Z (Z.of_nat i) * step)%Q)
      (seq 0 (Z.to_nat (Qceiling ((stop - start) / step)))).

Definition in_bin_exact (lo hi : Q) (last : bool) (v : float) : bool :=
  is_finite v && Qle_bool lo (F2Q v) &&
  (if last then Qle_bool (F2Q v) hi else negb (Qle_bool hi (F2Q v))).

Fixpoint histogram_exact (a : list float) (edges : list Q) : list nat :=
  match edges with
  | lo :: ((hi :: rest) as tl) =>
      List.length (filter (in_bin_exact lo hi (match rest with [] => true | _ => false end)) a)
      :: histogram_exact a tl
  | _ => []
  end.

Definition delta_histogram_exact (offsets : list (float * float)) : result (list nat) :=
  let binwidth := (1 # 2)%Q in
  let tks := map (fun x => fsub (fst x) (snd x)) offsets in
  let? lo := py_min tks in
  let? start := py_int lo in
  let? hi := py_max tks in
  let? stop := py_int hi in
  Ok (histogram_exact tks
        (arange_exact (inject_Z start) (inject_Z stop + binwidth + 1)%Q binwidth)).

Definition score_exact (offsets : list (float * float)) : result nat :=
  let binwidth := (1 # 2)%Q in
  let tks := map (fun x => fsub (fst x) (snd x)) offsets in
  let? lo := py_min tks in
  let? start := py_int lo in
  let? hi := py_max tks in
  let? stop := py_int hi in
  let hist := histogram_exact tks
                (arange_exact (inject_Z start) (inject_Z stop + binwidth + 1)%Q binwidth) in
  np_max hist.

(** A float and the rational it stands for. *)
Definition same_value (b : float) (q : Q) : Prop := is_finite b = true /\ (F2Q b == q)%Q.

(** A float that holds the half-integer [k / 2] in at most 53 bits. *)
Definition is_half (k : Z) (x : float) : Prop :=
  match x with
  | S754_zero _ => k = 0
  | S754_finite s m e =>
      Zpos (digits2_pos m) <= 53 /\ -1074 <= e <= 0 /\
      cond_Zopp s (Zpos m) * 2 = k * 2 ^ (- e)
  | _ => False
  end.

(** [i if i is not None else "Unknown"] *)
Definition or_unknown (i : option string) : string :=
  match i with
  | Some s => s
  | None => "Unknown"
  end.

Definition with_stdout (w : world) (out : list pyval) : world :=
  {| db := db w; stdout := out; lock_defined := lock_defined w |}.

Definition with_db (w : world) (d : database) : world :=
  {| db := d; stdout := stdout w; lock_defined := lock_defined w |}.

(** The cells that equal their filtered value, and their ranking by
    descending power, as [find_peaks] computes them. *)
Definition local_maxima (Sxx : matrix) : list (nat * nat) :=
  peak_coords Sxx (maximum_filter Sxx PEAK_BOX_SIZE).

Definition ranked (Sxx : matrix) : list (nat * nat) :=
  map (fun idx => nth idx (local_maxima Sxx) (0%nat, 0%nat))
      (rev (argsort (map (value Sxx) (local_maxima Sxx)))).

(** Both indices of a peak are within the arrays [f] and [t]. *)
Definition in_range (t f : list float) (i : nat * nat) : bool :=
  (fst i <? List.length f)%nat && (snd i <? List.length t)%nat.

(** The box of [target_zone]: [(x_min, x_max, y_min, y_max)]. *)
Definition zone_bounds (anchor : point) (width : float) (height : Z) (t : float)
  : float * float * float * float :=
  let x_min := fadd (snd anchor) t in
  let y_min := fsub (fst anchor) (fmul (Z2F height) half) in
  (x_min, fadd x_min width, y_min, fadd y_min (Z2F height)).

(** The time deltas [score_match] bins. *)
Definition deltas (offsets : list (float * float)) : list float :=
  map (fun x => fsub (fst x) (snd x)) offsets.

(** Every score among [items] is below [b]. *)
Definition scores_below (items : list (string * list (float * float))) (b : nat) : Prop :=
  forall song_id offsets sc,
    In (song_id, offsets) items -> score_match offsets = Ok sc -> (sc < b)%nat.

(** The difference of any two time offsets of [hashes] is moderate. *)
Definition offsets_compatible (hashes : list fingerprint) : bool :=
  forallb (fun r => forallb (fun q => moderate (fsub (snd (fst r)) (snd (fst q)))) hashes)
          hashes.

(** The character [c] does not occur in [s]. *)
Fixpoint no_char (c : ascii) (s : string) : bool :=
  match s with
  | EmptyString => true
  | String c' rest => negb (Ascii.eqb c' c) && no_char c rest
  end.

(** ** Sample data for the instances *)

(** A stand-in for the built-in [hash], used where an instance needs one. *)
Definition sample_hash (t : float * float * float) : Z :=
  let '(a, b, c) := t in
  Qtrunc (F2Q a) + 31 * Qtrunc (F2Q b) + 961 * Qtrunc (F2Q c).

Definition sample_world : world :=
  {| db := {| hash_tbl := [(1, Z2F 5, "s"%string)];
              song_info_tbl := [("Artist"%string, "Album"%string, "Title"%string, "s"%string)] |};
     stdout := [];
     lock_defined := false |}.

Definition sample_matches : dict string (list (float * float)) :=
  [("a"%string, [(Z2F 5, Z2F 1); (Z2F 6, Z2F 2); (Z2F 9, Z2F 2)]);
   ("b"%string, [(Z2F 1, Z2F 1)]);
   ("c"%string, [(Z2F 7, Z2F 1); (Z2F 8, Z2F 2); (Z2F 9, Z2F 3); (Z2F 3, Z2F 3)])].

(** Query records, stored rows in insertion order, and the same rows in the
    order of an index on the hash. *)
Definition sample_query : list fingerprint :=
  [(1, Z2F 0, "q"); (2, Z2F 4, "q"); (1, Z2F 3, "q")]%string.

Definition sample_rows : list fingerprint :=
  [(2, Z2F 1, "A"); (1, Z2F 1, "B"); (2, Z2F 5, "B"); (1, Z2F 7, "A")]%string.

Definition sample_rows_by_hash : list fingerprint :=
  [(1, Z2F 1, "B"); (1, Z2F 7, "A"); (2, Z2F 1, "A"); (2, Z2F 5, "B")]%string.

Definition sample_indexed_world : world :=
  {| db := {| hash_tbl := sample_rows; song_info_tbl := [] |};
     stdout := [];
     lock_defined := false |}.

Definition sample_Sxx : matrix := repeat (repeat (Z2F 1) 45) 25.

Definition sample_points : list point := [(Z2F 1000, Z2F 1); (Z2F 1000, Z2F 2)].

(** An [H] by [W] matrix that is [0.0] except at the listed cells. *)
Definition spikes (H W : nat) (cells : list (nat * nat * Z)) : matrix :=
  map (fun y =>
         map (fun x =>
                match find (fun c => Nat.eqb (fst (fst c)) y && Nat.eqb (snd (fst c)) x)
                           cells with
                | Some c => Z2F (snd c)
                | None => Z2F 0
                end)
             (seq 0 W))
      (seq 0 H).

Definition empty_world : world :=
  {| db := {| hash_tbl := []; song_info_tbl := [] |};
     stdout := [];
     lock_defined := false |}.

(** A spectrogram of 25 frequencies and 45 times. *)
Definition sample_spectrogram (_ : string)
  : result (list float * list float * matrix) :=
  Ok (map (fun k => Z2F (Z.of_nat k * 100)) (seq 0 25),
      map (fun k => Z2F (Z.of_nat k)) (seq 0 45),
      sample_Sxx).

Definition sample_offsets : list (float * float) := [(Z2F 5, Z2F 2); (Z2F 4, Z2F 1)].

Definition sample_hashes : list fingerprint :=
  [(11, Z2F 1, "7"); (12, Z2F 2, "7"); (11, Z2F 3, "7")]%string.

Definition sample_tag : tag :=
  {| artist := Some "Artist"%string; albumartist := None;
     album := None; title := Some "Title"%string |}.

Definition registered_world : world :=
  with_db empty_world
    {| hash_tbl := sample_hashes;
       song_info_tbl := [("Artist", "Unknown", "Title", "7")]%string |}.

(** [os.walk] of a directory with three files and no subdirectory. *)
Definition sample_walk (path : string) : list (string * list string) :=
  [(path, ["a.mp3"; "b.txt"; "c.flac"]%string)].

(** ** Facts about binary64 values *)

Lemma fsub_self (x : float) : is_finite x = true -> fsub x x = S754_zero false.
Proof.
  destruct x as [s | s | | s m e]; simpl; intros H; try discriminate.
  - now destruct s.
  - unfold fsub, SFsub. rewrite Z.sub_diag. reflexivity.
Qed.

Lemma fsub_self_not_finite (x : float) : is_finite x = false -> fsub x x = S754_nan.
Proof.
  destruct x as [s | s | | s m e]; simpl; intros H; try discriminate.
  - now destruct s.
  - reflexivity.
Qed.

Lemma fcompare_finite (x y : float) :
  is_finite x = true -> is_finite y = true ->
  fcompare x y = Some (Qcompare (F2Q x) (F2Q y)).
Proof.
  destruct x, y; simpl; intros; try discriminate; reflexivity.
Qed.

Lemma flt_spec x y : is_finite x = true -> is_finite y = true ->
  flt x y = true <-> (F2Q x < F2Q y)%Q.
Proof.
  intros Hx Hy. unfold flt. rewrite (fcompare_finite x y Hx Hy).
  rewrite Qlt_alt. destruct (F2Q x ?= F2Q y)%Q; split; congruence.
Qed.

Lemma fle_spec x y : is_finite x = true -> is_finite y = true ->
  fle x y = true <-> (F2Q x <= F2Q y)%Q.
Proof.
  intros Hx Hy. unfold fle. rewrite (fcompare_finite x y Hx Hy).
  rewrite Qle_alt. destruct (F2Q x ?= F2Q y)%Q; split; congruence.
Qed.

Lemma feq_spec x y : is_finite x = true -> is_finite y = true ->
  feq x y = true <-> (F2Q x == F2Q y)%Q.
Proof.
  intros Hx Hy. unfold feq. rewrite (fcompare_finite x y Hx Hy).
  rewrite Qeq_alt. destruct (F2Q x ?= F2Q y)%Q; split; congruence.
Qed.


Lemma fle_refl x : finite x -> fle x x = true.
Proof. intros H. apply fle_spec; auto. apply Qle_refl. Qed.

Lemma fle_trans x y z : finite x -> finite y -> finite z ->
  fle x y = true -> fle y z = true -> fle x z = true.
Proof.
  intros Hx Hy Hz H1 H2. apply fle_spec in H1; auto. apply fle_spec in H2; auto.
  apply fle_spec; auto. eapply Qle_trans; eauto.
Qed.

Lemma flt_false_fle x y : finite x -> finite y -> flt x y = false -> fle y x = true.
Proof.
  intros Hx Hy H. apply fle_spec; auto.
  destruct (Qlt_le_dec (F2Q x) (F2Q y)) as [L | L]; auto.
  apply (flt_spec x y Hx Hy) in L. congruence.
Qed.

Lemma flt_fle x y : finite x -> finite y -> flt x y = true -> fle x y = true.
Proof.
  intros Hx Hy H. apply fle_spec; auto. apply flt_spec in H; auto. now apply Qlt_le_weak.
Qed.

Lemma feq_fle x y : finite x -> finite y -> feq x y = true -> fle y x = true.
Proof.
  intros Hx Hy H. apply fle_spec; auto. apply feq_spec in H; auto.
  rewrite H. apply Qle_refl.
Qed.

Lemma fmax_finite a b : finite a -> finite b -> finite (fmax a b).
Proof. unfold fmax. now destruct (flt a b). Qed.

Lemma fmax_ge_l a b : finite a -> finite b -> fle a (fmax a b) = true.
Proof.
  intros Ha Hb. unfold fmax. destruct (flt a b) eqn:E.
  - now apply flt_fle.
  - now apply fle_refl.
Qed.

Lemma fmax_ge_r a b : finite a -> finite b -> fle b (fmax a b) = true.
Proof.
  intros Ha Hb. unfold fmax. destruct (flt a b) eqn:E.
  - now apply fle_refl.
  - now apply flt_false_fle.
Qed.

Lemma fold_fmax_ge (l : list float) : forall init,
  finite init -> Forall finite l ->
  finite (fold_left fmax l init) /\
  fle init (fold_left fmax l init) = true /\
  forall v, In v l -> fle v (fold_left fmax l init) = true.
Proof.
  induction l as [| a l IH]; intros init Hi Hl; simpl.
  - repeat split; auto using fle_refl; intros v [].
  - inversion Hl as [| ? ? Ha Hl']; subst.
    destruct (IH (fmax init a) (fmax_finite _ _ Hi Ha) Hl') as (F & I & A).
    repeat split; auto.
    + eapply fle_trans; [| | | apply fmax_ge_l | exact I]; auto using fmax_finite.
    + intros v [<- | Hv]; auto.
      eapply fle_trans; [| | | apply fmax_ge_r | exact I]; auto using fmax_finite.
Qed.


Lemma cell_finite Sxx r c : finite_matrix Sxx -> finite (cell Sxx r c).
Proof.
  intros H. unfold cell.
  destruct ((r <? 0) || (c <? 0)); [reflexivity |].
  destruct (nth_error Sxx (Z.to_nat r)) as [row |] eqn:E; [| reflexivity].
  destruct (nth_error row (Z.to_nat c)) as [v |] eqn:E'; [| reflexivity].
  apply nth_error_In in E, E'.
  unfold finite_matrix in H. rewrite Forall_forall in H. specialize (H _ E).
  rewrite Forall_forall in H. auto.
Qed.

Lemma in_window size i r :
  i - size / 2 <= r < i - size / 2 + size -> In r (window size i).
Proof.
  intros H. unfold window. apply in_map_iff.
  exists (Z.to_nat (r - (i - size / 2))). split; [lia |].
  apply in_seq. lia.
Qed.

Lemma neighbourhood_finite Sxx size y x :
  finite_matrix Sxx -> Forall finite (neighbourhood Sxx size y x).
Proof.
  intros H. apply Forall_forall. intros v Hv. unfold neighbourhood in Hv.
  apply in_flat_map in Hv as (r & _ & Hv). apply in_map_iff in Hv as (c & <- & _).
  now apply cell_finite.
Qed.

Lemma data_max_at_ge Sxx size y x r c :
  finite_matrix Sxx ->
  y - size / 2 <= r < y - size / 2 + size ->
  x - size / 2 <= c < x - size / 2 + size ->
  finite (data_max_at Sxx size y x) /\
  fle (cell Sxx r c) (data_max_at Sxx size y x) = true.
Proof.
  intros HF Hr Hc.
  assert (Hin : In (cell Sxx r c) (neighbourhood Sxx size y x)).
  { unfold neighbourhood. apply in_flat_map. exists r. split; [now apply in_window |].
    apply in_map. now apply in_window. }
  pose proof (neighbourhood_finite Sxx size y x HF) as HN.
  unfold data_max_at. destruct (neighbourhood Sxx size y x) as [| v rest]; [destruct Hin |].
  inversion HN as [| ? ? Hv Hrest]; subst.
  destruct (fold_fmax_ge rest v Hv Hrest) as (F & I & A).
  split; auto. destruct Hin as [<- | Hin]; auto.
Qed.

(** ** Lists and indices *)
Lemma nth_error_indexed_from {A} (l : list A) : forall s i a,
  nth_error l i = Some a ->
  nth_error (combine (seq s (List.length l)) l) i = Some ((s + i)%nat, a).
Proof.
  induction l as [| b l IH]; intros s i a H; destruct i; simpl in *; try discriminate.
  - inversion H. now rewrite Nat.add_0_r.
  - rewrite (IH (S s) i a H). f_equal. f_equal. lia.
Qed.

Lemma nth_error_indexed {A} (l : list A) i a :
  nth_error l i = Some a -> nth_error (indexed l) i = Some (i, a).
Proof. intros H. unfold indexed. now rewrite (nth_error_indexed_from l 0 i a H). Qed.

Lemma in_indexed_from {A} (l : list A) : forall s i a,
  In (i, a) (combine (seq s (List.length l)) l) ->
  (s <= i)%nat /\ nth_error l (i - s) = Some a.
Proof.
  induction l as [| b l IH]; intros s i a H; simpl in H; [destruct H |].
  destruct H as [H | H].
  - inversion H; subst. rewrite Nat.sub_diag. auto.
  - apply IH in H as [L E]. split; [lia |].
    replace (i - s)%nat with (S (i - S s)) by lia. exact E.
Qed.

Lemma in_indexed {A} (l : list A) i a :
  In (i, a) (indexed l) -> nth_error l i = Some a.
Proof.
  intros H. apply in_indexed_from in H as [_ H]. now rewrite Nat.sub_0_r in H.
Qed.

Lemma cell_of_nat Sxx y x row v :
  nth_error Sxx y = Some row -> nth_error row x = Some v ->
  cell Sxx (Z.of_nat y) (Z.of_nat x) = v.
Proof.
  intros Hy Hx. unfold cell.
  replace (Z.of_nat y <? 0) with false by (symmetry; apply Z.ltb_ge; lia).
  replace (Z.of_nat x <? 0) with false by (symmetry; apply Z.ltb_ge; lia).
  simpl. rewrite !Nat2Z.id, Hy, Hx. reflexivity.
Qed.

Lemma cell_maximum_filter Sxx size y x row v :
  nth_error Sxx y = Some row -> nth_error row x = Some v ->
  cell (maximum_filter Sxx size) (Z.of_nat y) (Z.of_nat x)
  = data_max_at Sxx size (Z.of_nat y) (Z.of_nat x).
Proof.
  intros Hy Hx. unfold maximum_filter.
  eapply cell_of_nat.
  - erewrite nth_error_map, nth_error_indexed by eassumption. reflexivity.
  - simpl. erewrite nth_error_map, nth_error_indexed by eassumption. reflexivity.
Qed.

Lemma in_peak_coords Sxx dm y x :
  In (y, x) (peak_coords Sxx dm) ->
  exists row v, nth_error Sxx y = Some row /\ nth_error row x = Some v /\
                feq v (cell dm (Z.of_nat y) (Z.of_nat x)) = true.
Proof.
  unfold peak_coords. intros H.
  apply in_flat_map in H as ([y' row] & Hrow & H).
  apply in_flat_map in H as ([x' v] & Hv & H). simpl in *.
  destruct (feq v (cell dm (Z.of_nat y') (Z.of_nat x'))) eqn:E; [| destruct H].
  destruct H as [H | []]. inversion H; subst.
  exists row, v. auto using in_indexed.
Qed.

(** ** Sorting *)
Section SortedFacts.
Context {A : Type}.

Lemma StronglySorted_app (R : A -> A -> Prop) l1 l2 :
  StronglySorted R l1 -> StronglySorted R l2 ->
  (forall a b, In a l1 -> In b l2 -> R a b) ->
  StronglySorted R (l1 ++ l2).
Proof.
  induction l1 as [| a l1 IH]; simpl; intros H1 H2 H; auto.
  inversion H1 as [| ? ? S1 F1]; subst. constructor.
  - apply IH; auto.
  - apply Forall_app. split; auto.
    apply Forall_forall. intros b Hb. apply H; auto.
Qed.

Lemma StronglySorted_rev (R : A -> A -> Prop) l :
  StronglySorted R l -> StronglySorted (fun a b => R b a) (rev l).
Proof.
  induction 1 as [| a l S IH F]; simpl; [constructor |].
  apply StronglySorted_app; auto.
  - repeat constructor.
  - intros x b Hx [<- | []]. rewrite Forall_forall in F. apply F. now apply in_rev.
Qed.

Lemma in_firstn (l : list A) : forall n x, In x (firstn n l) -> In x l.
Proof.
  induction l as [| a l IH]; intros [| n] x H; simpl in *; try contradiction.
  destruct H as [H | H]; eauto.
Qed.

Lemma StronglySorted_firstn (R : A -> A -> Prop) l : forall n,
  StronglySorted R l -> StronglySorted R (firstn n l).
Proof.
  induction l as [| a l IH]; intros [| n] H; simpl; try constructor.
  - inversion H; subst. auto.
  - inversion H as [| ? ? S F]; subst. rewrite Forall_forall in *.
    intros x Hx. apply F. eapply in_firstn. exact Hx.
Qed.

Lemma StronglySorted_weaken (R R' : A -> A -> Prop) l :
  (forall a b, In a l -> In b l -> R a b -> R' a b) ->
  StronglySorted R l -> StronglySorted R' l.
Proof.
  induction l as [| a l IH]; intros H S; [constructor |].
  inversion S as [| ? ? S' F]; subst. constructor.
  - apply IH; auto. intros; apply H; simpl; auto.
  - rewrite Forall_forall in *. intros b Hb. apply H; simpl; auto.
Qed.

Lemma StronglySorted_map {B} (f : A -> B) (R : B -> B -> Prop) l :
  StronglySorted (fun a b => R (f a) (f b)) l -> StronglySorted R (map f l).
Proof.
  induction 1 as [| a l S IH F]; simpl; constructor; auto.
  rewrite Forall_forall in *. intros b Hb. apply in_map_iff in Hb as (x & <- & Hx). auto.
Qed.
End SortedFacts.


Lemma key_finite vals i : Forall finite vals -> (i < List.length vals)%nat -> finite (key vals i).
Proof. intros H L. rewrite Forall_forall in H. apply H. now apply nth_In. Qed.

Lemma in_insert_idx vals i sorted k :
  In k (insert_idx vals i sorted) <-> k = i \/ In k sorted.
Proof.
  induction sorted as [| j r IH]; simpl.
  - intuition.
  - destruct (flt (nth i vals S754_nan) (nth j vals S754_nan)); simpl; rewrite ?IH; intuition.
Qed.

Lemma insert_idx_sorted vals i sorted :
  Forall finite vals -> (i < List.length vals)%nat ->
  Forall (fun j => (j < List.length vals)%nat) sorted ->
  StronglySorted (fun a b => fle (key vals a) (key vals b) = true) sorted ->
  StronglySorted (fun a b => fle (key vals a) (key vals b) = true) (insert_idx vals i sorted).
Proof.
  intros HF Hi.
  assert (KF : forall k, (k < List.length vals)%nat -> finite (key vals k))
    by (intros; now apply key_finite).
  induction sorted as [| j r IH]; intros HB HS; simpl.
  - repeat constructor.
  - inversion HB as [| ? ? Hj HB']; subst. inversion HS as [| ? ? HS' HA]; subst.
    rewrite Forall_forall in HB', HA.
    fold (key vals i). fold (key vals j).
    destruct (flt (key vals i) (key vals j)) eqn:E.
    + constructor; auto. constructor.
      * apply flt_fle; auto.
      * apply Forall_forall. intros k Hk.
        apply fle_trans with (key vals j); auto.
        apply flt_fle; auto.
    + constructor.
      * apply IH; auto. now apply Forall_forall.
      * apply Forall_forall. intros k Hk. apply in_insert_idx in Hk as [-> | Hk]; auto.
        apply flt_false_fle; auto.
Qed.

Lemma argsort_sorted vals :
  Forall finite vals ->
  StronglySorted (fun a b => fle (key vals a) (key vals b) = true) (argsort vals) /\
  Forall (fun j => (j < List.length vals)%nat) (argsort vals).
Proof.
  intros HF. unfold argsort.
  assert (G : forall l acc,
    Forall (fun j => (j < List.length vals)%nat) l ->
    Forall (fun j => (j < List.length vals)%nat) acc ->
    StronglySorted (fun a b => fle (key vals a) (key vals b) = true) acc ->
    StronglySorted (fun a b => fle (key vals a) (key vals b) = true)
      (fold_left (fun sorted i => insert_idx vals i sorted) l acc) /\
    Forall (fun j => (j < List.length vals)%nat)
      (fold_left (fun sorted i => insert_idx vals i sorted) l acc)).
  { induction l as [| i l IH]; intros acc Hl Hacc HS; simpl; auto.
    inversion Hl as [| ? ? Hi Hl']; subst. apply IH; auto.
    - apply Forall_forall. intros k Hk. apply in_insert_idx in Hk as [-> | Hk]; auto.
      rewrite Forall_forall in Hacc. auto.
    - apply insert_idx_sorted; auto. }
  apply G; try constructor.
  apply Forall_forall. intros j Hj. apply in_seq in Hj. lia.
Qed.

(** ** The peak budget *)

Lemma binary_round_aux_nonneg mx ex lx : nonneg (binary_round_aux prec emax false mx ex lx).
Proof.
  unfold binary_round_aux.
  destruct (shr_fexp prec emax mx ex lx) as [mrs' e'].
  destruct (shr_fexp prec emax _ e' loc_Exact) as [mrs'' e''].
  destruct (shr_m mrs''); simpl; auto.
  destruct (e'' <=? 971); reflexivity.
Qed.

Lemma Z2F_nonneg z : 0 <= z -> nonneg (Z2F z).
Proof.
  intros H. unfold Z2F, binary_normalize. destruct z as [| p | p]; simpl; auto; [| lia].
  unfold binary_round. destruct (shl_align p 0 _) as [mz ez]. apply binary_round_aux_nonneg.
Qed.

Lemma fdiv_pos_nonneg x m e : nonneg x -> nonneg (fdiv x (S754_finite false m e)).
Proof.
  destruct x as [s | s | | s mx ex]; simpl; intros H; subst; auto.
  destruct (SFdiv_core_binary prec emax (Z.pos mx) ex (Z.pos m) e) as [[mz ez] lz].
  apply binary_round_aux_nonneg.
Qed.

Lemma fmul_pos_nonneg x m e : nonneg x -> nonneg (fmul x (S754_finite false m e)).
Proof.
  destruct x as [s | s | | s mx ex]; simpl; intros H; subst; auto.
  apply binary_round_aux_nonneg.
Qed.

Lemma F2Q_num_nonneg m e : 0 <= Qnum (F2Q (S754_finite false m e)).
Proof.
  unfold F2Q, cond_Zopp.
  destruct e; cbn [Qnum inject_Z]; lia.
Qed.

Lemma py_int_nonneg x n : nonneg x -> py_int x = Ok n -> 0 <= n.
Proof.
  destruct x as [s | s | | s m e]; intros H E; cbn [py_int nonneg] in *; try discriminate.
  - inversion E. reflexivity.
  - subst s. injection E as <-. unfold Qtrunc. apply Z.quot_pos; [| lia].
    apply F2Q_num_nonneg.
Qed.

Lemma peak_target_nonneg total n : 0 <= total -> peak_target total = Ok n -> 0 <= n.
Proof.
  intros H. unfold peak_target. apply py_int_nonneg.
  unfold POINT_EFFICIENCY. apply fmul_pos_nonneg.
  remember (Z2F (PEAK_BOX_SIZE ^ 2)) as d eqn:Hd. vm_compute in Hd. subst d.
  apply fdiv_pos_nonneg. now apply Z2F_nonneg.
Qed.

Lemma py_slice_to_length {A} (l : list A) n :
  0 <= n -> Z.of_nat (List.length (py_slice_to n l)) <= n.
Proof.
  intros H. unfold py_slice_to. replace (n <? 0) with false by (symmetry; apply Z.ltb_ge; lia).
  rewrite length_firstn. lia.
Qed.


Lemma py_slice_to_firstn {A} (l : list A) n : exists k, py_slice_to n l = firstn k l.
Proof. unfold py_slice_to. destruct (n <? 0); eauto. Qed.

Lemma ranked_peaks_sorted Sxx peaks :
  finite_matrix Sxx ->
  StronglySorted (fun p q => fle (value Sxx q) (value Sxx p) = true)
    (map (fun idx => nth idx peaks (0%nat, 0%nat)) (rev (argsort (map (value Sxx) peaks)))).
Proof.
  intros HF. set (vals := map (value Sxx) peaks).
  assert (HV : Forall finite vals).
  { apply Forall_forall. intros v Hv. apply in_map_iff in Hv as (p & <- & _).
    now apply cell_finite. }
  destruct (argsort_sorted vals HV) as [S B].
  apply StronglySorted_map. apply StronglySorted_rev in S.
  eapply StronglySorted_weaken; [| exact S].
  intros a b Ha Hb. rewrite Forall_forall in B.
  apply in_rev in Ha, Hb. apply B in Ha, Hb. unfold vals in Ha, Hb. rewrite length_map in Ha, Hb.
  unfold key, vals.
  rewrite (nth_indep _ S754_nan (value Sxx (0%nat, 0%nat))) by (rewrite length_map; exact Hb).
  rewrite (nth_indep _ S754_nan (value Sxx (0%nat, 0%nat))) by (rewrite length_map; exact Ha).
  rewrite !map_nth. auto.
Qed.


Lemma finite_matrix_forallb (Sxx : matrix) :
  forallb (forallb is_finite) Sxx = true -> finite_matrix Sxx.
Proof.
  intros H. apply Forall_forall. intros row Hrow. apply Forall_forall. intros v Hv.
  rewrite forallb_forall in H. specialize (H row Hrow).
  rewrite forallb_forall in H. now apply H.
Qed.

Lemma total_cells (Sxx : matrix) (H W : nat) :
  List.length Sxx = H ->
  forallb (fun row => Nat.eqb (List.length row) W) Sxx = true ->
  Z.of_nat (List.length Sxx) * Z.of_nat (List.length (hd [] Sxx)) = Z.of_nat H * Z.of_nat W.
Proof.
  intros HH HW. destruct Sxx as [| row rest]; simpl in *; subst H; [reflexivity |].
  apply andb_true_iff in HW as [HW _]. apply Nat.eqb_eq in HW. now rewrite HW.
Qed.

Lemma ranked_in_peaks Sxx peaks p :
  finite_matrix Sxx ->
  In p (map (fun idx => nth idx peaks (0%nat, 0%nat)) (rev (argsort (map (value Sxx) peaks)))) ->
  In p peaks.
Proof.
  intros HF Hin. apply in_map_iff in Hin as (idx & <- & Hin). apply in_rev in Hin.
  assert (HV : Forall finite (map (value Sxx) peaks)).
  { apply Forall_forall. intros v Hv. apply in_map_iff in Hv as (q & <- & _).
    now apply cell_finite. }
  destruct (argsort_sorted _ HV) as [_ B]. rewrite Forall_forall in B.
  apply B in Hin. rewrite length_map in Hin. now apply nth_In.
Qed.

(** C8.  For a power matrix [Sxx] of height [H] and width [W] whose cells are
    finite numbers, and [n] the budget
    [int((H * W / PEAK_BOX_SIZE**2) * POINT_EFFICIENCY)] as the code computes
    it, [find_peaks] returns a list of at most [n] coordinates, in order of
    non-increasing power, and the power at every returned coordinate [(y, x)]
    is at least the value the filter reads at every position of its
    [PEAK_BOX_SIZE] neighbourhood (rows [y - 15 .. y + 14], columns
    [x - 15 .. x + 14]; [0.0] where the neighbourhood leaves the matrix). *)
Theorem find_peaks_budget_order_dominance (Sxx : matrix) (H W : nat) (n : Z) :
  forallb (forallb is_finite) Sxx = true ->
  List.length Sxx = H ->
  forallb (fun row => Nat.eqb (List.length row) W) Sxx = true ->
  peak_target (Z.of_nat H * Z.of_nat W) = Ok n ->
  exists peaks,
    find_peaks Sxx = Ok peaks /\
    Z.of_nat (List.length peaks) <= n /\
    StronglySorted (fun p q => fle (value Sxx q) (value Sxx p) = true) peaks /\
    forall y x r c, In (y, x) peaks ->
      Z.of_nat y - 15 <= r <= Z.of_nat y + 14 ->
      Z.of_nat x - 15 <= c <= Z.of_nat x + 14 ->
      fle (cell Sxx r c) (value Sxx (y, x)) = true.
Proof.
  intros HFb HH HW HT. pose proof (finite_matrix_forallb Sxx HFb) as HF.
  unfold find_peaks. rewrite (total_cells Sxx H W HH HW), HT. cbn [rbind].
  eexists. split; [reflexivity |].
  assert (Hn : 0 <= n) by (eapply peak_target_nonneg; [| exact HT]; lia).
  split; [now apply py_slice_to_length |].
  fold (value Sxx).
  set (peaks := peak_coords Sxx (maximum_filter Sxx PEAK_BOX_SIZE)).
  change (map (fun p => cell Sxx (Z.of_nat (fst p)) (Z.of_nat (snd p))) peaks)
    with (map (value Sxx) peaks).
  destruct (py_slice_to_firstn
              (map (fun idx => nth idx peaks (0%nat, 0%nat))
                   (rev (argsort (map (value Sxx) peaks)))) n) as [k ->].
  split.
  - apply StronglySorted_firstn. now apply ranked_peaks_sorted.
  - intros y x r c Hin Hr Hc.
    apply in_firstn in Hin. apply (ranked_in_peaks Sxx peaks (y, x) HF) in Hin.
    apply in_peak_coords in Hin as (row & v & Hy & Hx & E).
    rewrite (cell_maximum_filter Sxx _ y x row v Hy Hx) in E.
    unfold value. cbn [fst snd]. rewrite (cell_of_nat Sxx y x row v Hy Hx).
    destruct (data_max_at_ge Sxx PEAK_BOX_SIZE (Z.of_nat y) (Z.of_nat x) r c HF) as [F L].
    { change (PEAK_BOX_SIZE / 2) with 15. unfold PEAK_BOX_SIZE. lia. }
    { change (PEAK_BOX_SIZE / 2) with 15. unfold PEAK_BOX_SIZE. lia. }
    assert (Fv : finite v)
      by (rewrite <- (cell_of_nat Sxx y x row v Hy Hx); now apply cell_finite).
    apply fle_trans with (data_max_at Sxx PEAK_BOX_SIZE (Z.of_nat y) (Z.of_nat x)); auto.
    + now apply cell_finite.
    + now apply feq_fle.
Qed.

(** ** The histogram score with exact bin edges *)
Lemma Qtrunc_mono (p q : Q) : (p <= q)%Q -> Qtrunc p <= Qtrunc q.
Proof.
  destruct p as [n1 d1], q as [n2 d2]. unfold Qle, Qtrunc. simpl. intros H.
  rewrite <- (Z.quot_mul_cancel_r n1 (Z.pos d1) (Z.pos d2)) by lia.
  rewrite <- (Z.quot_mul_cancel_r n2 (Z.pos d2) (Z.pos d1)) by lia.
  rewrite (Z.mul_comm (Z.pos d2) (Z.pos d1)).
  apply Z.quot_le_mono; lia.
Qed.

Lemma fold_min_spec (l : list float) : forall init,
  finite init -> Forall finite l ->
  let m := fold_left (fun best item => if flt item best then item else best) l init in
  In m (init :: l) /\ (F2Q m <= F2Q init)%Q.
Proof.
  induction l as [| a l IH]; intros init Hi Hl; simpl.
  - split; auto. apply Qle_refl.
  - inversion Hl as [| ? ? Ha Hl']; subst.
    destruct (flt a init) eqn:E.
    + destruct (IH a Ha Hl') as [I L]. split.
      * simpl in I. tauto.
      * apply flt_spec in E; auto. lra.
    + destruct (IH init Hi Hl') as [I L]. split; auto.
      simpl in I. tauto.
Qed.

Lemma fold_max_spec (l : list float) : forall init,
  finite init -> Forall finite l ->
  let m := fold_left (fun best item => if flt best item then item else best) l init in
  In m (init :: l) /\ (F2Q init <= F2Q m)%Q.
Proof.
  induction l as [| a l IH]; intros init Hi Hl; simpl.
  - split; auto. apply Qle_refl.
  - inversion Hl as [| ? ? Ha Hl']; subst.
    destruct (flt init a) eqn:E.
    + destruct (IH a Ha Hl') as [I L]. split.
      * simpl in I. tauto.
      * apply flt_spec in E; auto. lra.
    + destruct (IH init Hi Hl') as [I L]. split; auto.
      simpl in I. tauto.
Qed.

Lemma py_int_finite x : finite x -> py_int x = Ok (Qtrunc (F2Q x)).
Proof. destruct x; simpl; intros H; try discriminate; reflexivity. Qed.

Lemma arange_exact_edges (a b : Z) :
  arange_exact (inject_Z a) (inject_Z b + (1 # 2) + 1)%Q (1 # 2)
  = map (fun i => (inject_Z a + inject_Z (Z.of_nat i) * (1 # 2))%Q)
        (seq 0 (Z.to_nat (2 * (b - a) + 3))).
Proof.
  unfold arange_exact. f_equal. f_equal. f_equal.
  rewrite <- (Qceiling_Z (2 * (b - a) + 3)). apply Qceiling_comp.
  unfold Z.sub. rewrite !inject_Z_plus, inject_Z_mult, inject_Z_plus, inject_Z_opp. field.
Qed.

Lemma histogram_exact_bound a : forall edges,
  Forall (fun c => (c <= List.length a)%nat) (histogram_exact a edges).
Proof.
  induction edges as [| lo [| hi rest] IH]; simpl; constructor.
  - apply filter_length_le.
  - exact IH.
Qed.

Lemma histogram_exact_length a : forall edges,
  List.length (histogram_exact a edges) = (List.length edges - 1)%nat.
Proof.
  induction edges as [| lo [| hi rest] IH]; simpl in *; auto.
  rewrite IH. lia.
Qed.

Lemma fold_max_bound (l : list nat) : forall init b,
  (init <= b)%nat -> Forall (fun c => (c <= b)%nat) l -> (fold_left Nat.max l init <= b)%nat.
Proof.
  induction l as [| a l IH]; intros init b Hi Hl; simpl; auto.
  inversion Hl; subst. apply IH; auto. lia.
Qed.

Lemma np_max_bound hist b s :
  Forall (fun c => (c <= b)%nat) hist -> np_max hist = Ok s -> (s <= b)%nat.
Proof.
  destruct hist as [| h rest]; simpl; intros H E; [discriminate |].
  inversion H; subst. injection E as <-. now apply fold_max_bound.
Qed.

Lemma score_exact_le_len offsets s :
  score_exact offsets = Ok s -> (s <= List.length offsets)%nat.
Proof.
  unfold score_exact. intros E.
  destruct (py_min _) as [lo |]; simpl in E; [| discriminate].
  destruct (py_int lo) as [a |]; simpl in E; [| discriminate].
  destruct (py_max _) as [hi |]; simpl in E; [| discriminate].
  destruct (py_int hi) as [b |]; simpl in E; [| discriminate].
  eapply np_max_bound in E; [| apply histogram_exact_bound].
  now rewrite length_map in E.
Qed.


Lemma score_exact_total offsets :
  finite_deltas offsets = true -> exists s, score_exact offsets = Ok s.
Proof.
  intros HS. unfold score_exact.
  assert (HT : Forall finite (map (fun x => fsub (fst x) (snd x)) offsets)).
  { apply Forall_forall. intros v Hv. apply in_map_iff in Hv as (x & <- & Hx).
    destruct offsets as [| o rest]; [destruct Hx |].
    unfold finite_deltas in HS. rewrite forallb_forall in HS. now apply HS. }
  destruct (map (fun x => fsub (fst x) (snd x)) offsets) as [| d tks] eqn:Etks.
  { destruct offsets; discriminate. }
  inversion HT as [| ? ? Hd Htks]; subst.
  destruct (fold_min_spec tks d Hd Htks) as [Imin Lmin].
  destruct (fold_max_spec tks d Hd Htks) as [Imax Lmax].
  rewrite Forall_forall in HT.
  cbn [py_min py_max rbind].
  rewrite (py_int_finite _ (HT _ Imin)). cbn [rbind].
  rewrite (py_int_finite _ (HT _ Imax)). cbn [rbind].
  rewrite arange_exact_edges.
  match goal with |- context [histogram_exact ?a ?e] =>
    pose proof (histogram_exact_length a e) as HL;
    destruct (histogram_exact a e) as [| h rest] end.
  - exfalso. rewrite length_map, length_seq in HL. cbn [List.length] in HL.
    match type of HL with context [Qtrunc ?x - Qtrunc ?y] =>
      assert (Qtrunc y <= Qtrunc x) by (apply Qtrunc_mono; lra) end.
    lia.
  - simpl. eauto.
Qed.

Lemma Qtrunc_upper (q : Q) : (q < inject_Z (Qtrunc q + 1))%Q.
Proof.
  destruct q as [n d]. unfold Qlt, Qtrunc. simpl.
  pose proof (Z.quot_rem' n (Z.pos d)) as E.
  assert (R : Z.rem n (Z.pos d) < Z.pos d).
  { pose proof (Z.rem_bound_abs n (Z.pos d)). lia. }
  rewrite Z.mul_1_r. nia.
Qed.

Lemma fold_min_le (l : list float) : forall init,
  finite init -> Forall finite l ->
  forall v, In v (init :: l) ->
    (F2Q (fold_left (fun best item => if flt item best then item else best) l init)
     <= F2Q v)%Q.
Proof.
  induction l as [| a l IH]; intros init Hi Hl v Hv; simpl.
  - destruct Hv as [<- | []]. apply Qle_refl.
  - inversion Hl as [| ? ? Ha Hl']; subst.
    destruct Hv as [Hv | [Hv | Hv]]; try rewrite <- Hv;
      destruct (flt a init) eqn:E; try (apply IH; simpl; now auto).
    + apply flt_spec in E; auto.
      pose proof (fold_min_spec l a Ha Hl') as [_ L]. simpl in L. lra.
    + pose proof (fold_min_spec l init Hi Hl') as [_ L]. simpl in L.
      assert (~ (F2Q a < F2Q init)%Q)
        by (intros C; apply flt_spec in C; auto; congruence).
      lra.
Qed.

Lemma fold_max_ge (l : list float) : forall init,
  finite init -> Forall finite l ->
  forall v, In v (init :: l) ->
    (F2Q v
     <= F2Q (fold_left (fun best item => if flt best item then item else best) l init))%Q.
Proof.
  induction l as [| a l IH]; intros init Hi Hl v Hv; simpl.
  - destruct Hv as [<- | []]. apply Qle_refl.
  - inversion Hl as [| ? ? Ha Hl']; subst.
    destruct Hv as [Hv | [Hv | Hv]]; try rewrite <- Hv;
      destruct (flt init a) eqn:E; try (apply IH; simpl; now auto).
    + apply flt_spec in E; auto.
      pose proof (fold_max_spec l a Ha Hl') as [_ L]. simpl in L. lra.
    + pose proof (fold_max_spec l init Hi Hl') as [_ L]. simpl in L.
      assert (~ (F2Q init < F2Q a)%Q)
        by (intros C; apply flt_spec in C; auto; congruence).
      lra.
Qed.

Lemma filter_split {A} (p q r : A -> bool) (l : list A) :
  (forall x, r x = p x || q x) -> (forall x, p x && q x = false) ->
  (List.length (filter p l) + List.length (filter q l) = List.length (filter r l))%nat.
Proof.
  intros Hr Hd. induction l as [| a l IH]; simpl; auto.
  rewrite (Hr a). specialize (Hd a).
  destruct (p a), (q a); simpl in *; try discriminate; lia.
Qed.

Lemma edge_succ a i : (edge a (S i) == edge a i + (1 # 2))%Q.
Proof. unfold edge. rewrite Nat2Z.inj_succ, <- Z.add_1_r, inject_Z_plus. ring. Qed.

Lemma edge_mono a i j : (i <= j)%nat -> (edge a i <= edge a j)%Q.
Proof.
  intros H. unfold edge. apply Qplus_le_r. apply Qmult_le_compat_r; [| discriminate].
  rewrite <- Zle_Qle. lia.
Qed.

Lemma histogram_exact_step tks e0 e1 e2 rest :
  histogram_exact tks (e0 :: e1 :: e2 :: rest)
  = List.length (filter (in_bin_exact e0 e1 false) tks) :: histogram_exact tks (e1 :: e2 :: rest).
Proof. reflexivity. Qed.

Lemma in_bin_exact_chain lo mid hi v :
  (lo <= mid)%Q -> (mid <= hi)%Q ->
  in_bin_exact lo hi true v = in_bin_exact lo mid false v || in_bin_exact mid hi true v /\
  in_bin_exact lo mid false v && in_bin_exact mid hi true v = false.
Proof.
  intros M1 M2. unfold in_bin_exact. destruct (is_finite v); simpl; auto.
  destruct (Qle_bool lo (F2Q v)) eqn:E1;
  destruct (Qle_bool mid (F2Q v)) eqn:E2;
  destruct (Qle_bool (F2Q v) hi) eqn:E3; simpl; auto;
  repeat match goal with
         | H : Qle_bool _ _ = true |- _ => apply Qle_bool_iff in H
         | H : Qle_bool ?x ?y = false |- _ =>
             assert (~ (x <= y)%Q) by (intros C; apply Qle_bool_iff in C; congruence);
             clear H
         end; exfalso; lra.
Qed.

Lemma hist_sum (tks : list float) (a : Z) : forall n s,
  list_sum (histogram_exact tks (map (edge a) (seq s (S (S n)))))
  = List.length (filter (in_bin_exact (edge a s) (edge a (s + S n)) true) tks).
Proof.
  induction n as [| n IH]; intros s.
  - replace (s + 1)%nat with (S s) by lia. simpl. lia.
  - pose proof (IH (S s)) as IH'. cbn [seq map] in IH'.
    cbn [seq map]. rewrite histogram_exact_step.
    match goal with |- list_sum (?x :: ?l) = _ =>
      change (list_sum (x :: l)) with (x + list_sum l)%nat end.
    rewrite IH'.
    replace (S s + S n)%nat with (s + S (S n))%nat by lia.
    apply filter_split; intros v;
      apply (in_bin_exact_chain (edge a s) (edge a (S s)) (edge a (s + S (S n))) v);
      apply edge_mono; lia.
Qed.

Lemma score_exact_delta_histogram offsets :
  score_exact offsets = (let? hist := delta_histogram_exact offsets in np_max hist).
Proof.
  unfold score_exact, delta_histogram_exact.
  destruct (py_min _) as [lo |]; simpl; auto.
  destruct (py_int lo) as [a |]; simpl; auto.
  destruct (py_max _) as [hi |]; simpl; auto.
  destruct (py_int hi) as [b |]; simpl; auto.
Qed.

Lemma filter_all {A} (p : A -> bool) (l : list A) :
  (forall x, In x l -> p x = true) -> filter p l = l.
Proof.
  induction l as [| a l IH]; intros H; simpl; auto.
  rewrite (H a (or_introl eq_refl)), IH; auto. intros; apply H; now right.
Qed.

(** When [int] does not move the smallest delta upwards (the minimum is not
    negative, or is an integer), every delta is counted in exactly one bin. *)
Lemma delta_histogram_exact_counts_all offsets lo :
  finite_deltas offsets = true ->
  py_min (map (fun x => fsub (fst x) (snd x)) offsets) = Ok lo ->
  (inject_Z (Qtrunc (F2Q lo)) <= F2Q lo)%Q ->
  exists hist, delta_histogram_exact offsets = Ok hist /\
               list_sum hist = List.length offsets.
Proof.
  intros HS Hlo Hcut. unfold delta_histogram_exact.
  assert (HT : Forall finite (map (fun x => fsub (fst x) (snd x)) offsets)).
  { apply Forall_forall. intros v Hv. apply in_map_iff in Hv as (x & <- & Hx).
    destruct offsets as [| o rest]; [destruct Hx |].
    unfold finite_deltas in HS. rewrite forallb_forall in HS. now apply HS. }
  rewrite <- (length_map (fun x => fsub (fst x) (snd x)) offsets).
  destruct (map (fun x => fsub (fst x) (snd x)) offsets) as [| d tks] eqn:Etks.
  { destruct offsets; discriminate. }
  inversion HT as [| ? ? Hd Htks]; subst.
  destruct (fold_min_spec tks d Hd Htks) as [Imin Lmin].
  destruct (fold_max_spec tks d Hd Htks) as [Imax Lmax].
  pose proof (fold_min_le tks d Hd Htks) as Amin.
  pose proof (fold_max_ge tks d Hd Htks) as Amax.
  cbn [py_min] in Hlo. injection Hlo as Hlo.
  rewrite Forall_forall in HT.
  cbn [py_min py_max rbind].
  rewrite (py_int_finite _ (HT _ Imin)). cbn [rbind].
  rewrite (py_int_finite _ (HT _ Imax)). cbn [rbind].
  rewrite arange_exact_edges. rewrite Hlo in *.
  set (hi := fold_left (fun best item => if flt best item then item else best) tks d) in *.
  set (a := Qtrunc (F2Q lo)) in *. set (b := Qtrunc (F2Q hi)) in *.
  assert (Hab : a <= b)
    by (unfold a, b; apply Qtrunc_mono; apply Qle_trans with (F2Q d); assumption).
  pose proof (Qtrunc_upper (F2Q hi)) as U. fold b in U.
  clearbody a b hi.
  eexists. split; [reflexivity |].
  replace (Z.to_nat (2 * (b - a) + 3)) with (S (S (Z.to_nat (2 * (b - a) + 1)))) by lia.
  change (fun i : nat => (inject_Z a + inject_Z (Z.of_nat i) * (1 # 2))%Q) with (edge a).
  rewrite hist_sum. f_equal. apply filter_all.
  intros v Hv. unfold in_bin_exact.
  rewrite (HT v Hv). cbn [andb].
  apply andb_true_iff. split; apply Qle_bool_iff.
  - unfold edge. specialize (Amin v Hv).
    change (inject_Z (Z.of_nat 0)) with 0%Q. lra.
  - specialize (Amax v Hv).
    assert (E : (edge a (0 + S (Z.to_nat (2 * (b - a) + 1))) == inject_Z (b + 1))%Q).
    { unfold edge. cbn [Nat.add]. rewrite Nat2Z.inj_succ, Z2Nat.id by lia.
      unfold Z.succ, Z.sub. rewrite !inject_Z_plus, inject_Z_mult, inject_Z_plus, inject_Z_opp.
      field. }
    rewrite E. lra.
Qed.

(** ** Exact results of binary64 operations on half-integers *)

Lemma iter_pos_nat {A} (f : A -> A) (p : positive) : forall x,
  iter_pos f p x = Nat.iter (Pos.to_nat p) f x.
Proof.
  induction p as [p IH | p IH |]; intros x; simpl iter_pos.
  - rewrite !IH, Pos2Nat.inj_xI, Nat.iter_succ_r.
    replace (2 * Pos.to_nat p)%nat with (Pos.to_nat p + Pos.to_nat p)%nat by lia.
    now rewrite Nat.iter_add.
  - rewrite !IH, Pos2Nat.inj_xO.
    replace (2 * Pos.to_nat p)%nat with (Pos.to_nat p + Pos.to_nat p)%nat by lia.
    now rewrite Nat.iter_add.
  - reflexivity.
Qed.

Lemma shiftl_nat_Z (p : positive) (n : nat) :
  Zpos (Pos.shiftl_nat p n) = Zpos p * 2 ^ Z.of_nat n.
Proof.
  induction n as [| n IH].
  - simpl. lia.
  - change (Pos.shiftl_nat p (S n)) with (xO (Pos.shiftl_nat p n)).
    rewrite Pos2Z.inj_xO, IH, Nat2Z.inj_succ, Z.pow_succ_r by lia. ring.
Qed.

Lemma shiftl_nat_of_Z (m : positive) (q : Z) (n : nat) :
  Zpos m = q * 2 ^ Z.of_nat n -> exists m', m = Pos.shiftl_nat m' n /\ Zpos m' = q.
Proof.
  intros H. assert (Hq : 0 < q).
  { assert (0 < 2 ^ Z.of_nat n) by (apply Z.pow_pos_nonneg; lia). nia. }
  exists (Z.to_pos q). split; [| now apply Z2Pos.id].
  apply Pos2Z.inj. rewrite shiftl_nat_Z, Z2Pos.id; auto.
Qed.

Lemma digits2_pos_shiftl_nat (p : positive) (n : nat) :
  Zpos (digits2_pos (Pos.shiftl_nat p n)) = Zpos (digits2_pos p) + Z.of_nat n.
Proof.
  induction n as [| n IH]; [simpl; lia |].
  change (Pos.shiftl_nat p (S n)) with (xO (Pos.shiftl_nat p n)).
  cbn [digits2_pos]. rewrite Pos2Z.inj_succ, IH. lia.
Qed.

Lemma digits2_pos_bounds (m : positive) :
  2 ^ (Zpos (digits2_pos m) - 1) <= Zpos m < 2 ^ Zpos (digits2_pos m).
Proof.
  induction m as [m IH | m IH |]; cbn [digits2_pos].
  - rewrite Pos2Z.inj_succ, (Pos2Z.inj_xI m).
    replace (Z.succ (Zpos (digits2_pos m)) - 1) with (Z.succ (Zpos (digits2_pos m) - 1)) by lia.
    rewrite !Z.pow_succ_r by lia.
    revert IH. generalize (2 ^ (Zpos (digits2_pos m) - 1)), (2 ^ Zpos (digits2_pos m)). lia.
  - rewrite Pos2Z.inj_succ, (Pos2Z.inj_xO m).
    replace (Z.succ (Zpos (digits2_pos m)) - 1) with (Z.succ (Zpos (digits2_pos m) - 1)) by lia.
    rewrite !Z.pow_succ_r by lia.
    revert IH. generalize (2 ^ (Zpos (digits2_pos m) - 1)), (2 ^ Zpos (digits2_pos m)). lia.
  - simpl. lia.
Qed.

Lemma digits2_pos_le (m : positive) (b : Z) :
  0 <= b -> Zpos m < 2 ^ b -> Zpos (digits2_pos m) <= b.
Proof.
  intros Hb H. destruct (digits2_pos_bounds m) as [L _].
  assert (2 ^ (Zpos (digits2_pos m) - 1) < 2 ^ b) by lia.
  apply Z.pow_lt_mono_r_iff in H0; lia.
Qed.

Lemma shr_exact (m : positive) (n : nat) :
  Nat.iter n shr_1 {| shr_m := Zpos (Pos.shiftl_nat m n); shr_r := false; shr_s := false |}
  = {| shr_m := Zpos m; shr_r := false; shr_s := false |}.
Proof.
  induction n as [| n IH]; [reflexivity |].
  rewrite Nat.iter_succ_r.
  change (Pos.shiftl_nat m (S n)) with (xO (Pos.shiftl_nat m n)).
  exact IH.
Qed.

Lemma is_half_finite k x : is_half k x -> is_finite x = true.
Proof. destruct x; simpl; auto; contradiction. Qed.

Lemma is_half_value k x : is_half k x -> (F2Q x == k # 2)%Q.
Proof.
  destruct x as [s | s | | s m e]; simpl; try contradiction.
  - intros ->. reflexivity.
  - intros (_ & He & H). destruct e as [| p | p]; try lia.
    + unfold Qeq. simpl. simpl in H. lia.
    + unfold Qeq. cbn [Qnum Qden]. change (- Zneg p) with (Zpos p) in H.
      rewrite Pos2Z.inj_pow. lia.
Qed.

Lemma fexp_eq e : fexp prec emax e = Z.max (e - 53) (-1074).
Proof. reflexivity. Qed.

Lemma round_aux_half (s : bool) (m : positive) (e k : Z) :
  e <= 0 -> 0 < k < 2 ^ 53 -> Zpos m * 2 = k * 2 ^ (- e) ->
  exists m' e',
    binary_round_aux prec emax s (Zpos m) e loc_Exact = S754_finite s m' e' /\
    Zpos (digits2_pos m') <= 53 /\ -1074 <= e' <= 0 /\
    Zpos m' * 2 = k * 2 ^ (- e').
Proof.
  intros He Hk Hm.
  unfold binary_round_aux, shr_fexp. rewrite fexp_eq. cbn [Zdigits2 shr_record_of_loc].
  set (d := Zpos (digits2_pos m)).
  destruct (digits2_pos_bounds m) as [Dl Du]. fold d in Dl, Du.
  assert (Hd : 1 <= d) by (unfold d; lia).
  destruct (Z.max (d + e - 53) (-1074) - e) as [| p | p] eqn:En.
  - (* no shift *)
    cbn [shr loc_of_shr_record shr_m round_nearest_even].
    rewrite fexp_eq. cbn [Zdigits2 shr_record_of_loc]. fold d. rewrite En.
    cbn [shr shr_m]. replace (e <=? emax - prec) with true
      by (symmetry; apply Z.leb_le; unfold emax, prec; lia).
    exists m, e. repeat split; auto; fold d; lia.
  - (* right shift by [p] bits *)
    set (n := Pos.to_nat p).
    assert (Hn : Z.of_nat n = Zpos p) by (unfold n; apply positive_nat_Z).
    assert (Ha : 1 <= - e).
    { destruct (Z.eq_dec e 0) as [-> | ]; [| lia]. exfalso.
      simpl in Hm. assert (Zpos m < 2 ^ 52) by lia.
      assert (d <= 52) by (apply digits2_pos_le; lia). lia. }
    assert (Pa : 0 < 2 ^ (- e - 1)) by (apply Z.pow_pos_nonneg; lia).
    assert (Hm' : Zpos m = k * 2 ^ (- e - 1)).
    { replace (- e) with (Z.succ (- e - 1)) in Hm by lia.
      rewrite Z.pow_succ_r in Hm by lia. lia. }
    assert (Hdle : d <= - e + 52).
    { assert (Zpos m < 2 ^ (53 + (- e - 1))).
      { rewrite Z.pow_add_r by lia. nia. }
      assert (2 ^ (d - 1) < 2 ^ (53 + (- e - 1))) by lia.
      apply Z.pow_lt_mono_r_iff in H0; lia. }
    assert (Hnle : Zpos p <= - e - 1) by lia.
    destruct (shiftl_nat_of_Z m (k * 2 ^ (- e - 1 - Zpos p)) n) as (m' & Em & Vm').
    { rewrite Hm', Hn, <- Z.mul_assoc, <- Z.pow_add_r by lia. do 2 f_equal. lia. }
    cbn [shr]. rewrite iter_pos_nat. fold n. rewrite Em, shr_exact.
    cbn [loc_of_shr_record shr_m round_nearest_even].
    rewrite fexp_eq. cbn [Zdigits2 shr_record_of_loc].
    assert (Dm' : Zpos (digits2_pos m') = d - Zpos p).
    { unfold d. rewrite Em, digits2_pos_shiftl_nat. lia. }
    rewrite Dm'.
    replace (Z.max (d - Zpos p + (e + Zpos p) - 53) (-1074) - (e + Zpos p)) with 0 by lia.
    cbn [shr shr_m].
    replace (e + Zpos p <=? emax - prec) with true
      by (symmetry; apply Z.leb_le; unfold emax, prec; lia).
    exists m', (e + Zpos p). repeat split; try lia.
    rewrite Vm'. replace (- (e + Zpos p)) with (Z.succ (- e - 1 - Zpos p)) by lia.
    rewrite Z.pow_succ_r by lia. ring.
  - (* the target exponent is below [e] *)
    cbn [shr loc_of_shr_record shr_m round_nearest_even].
    rewrite fexp_eq. cbn [Zdigits2 shr_record_of_loc]. fold d. rewrite En.
    cbn [shr shr_m]. replace (e <=? emax - prec) with true
      by (symmetry; apply Z.leb_le; unfold emax, prec; lia).
    exists m, e. repeat split; auto; fold d; lia.
Qed.

Lemma binary_round_half (s : bool) (m : positive) (e k : Z) :
  e <= 0 -> 0 < k < 2 ^ 53 -> Zpos m * 2 = k * 2 ^ (- e) ->
  exists m' e',
    binary_round prec emax s m e = S754_finite s m' e' /\
    Zpos (digits2_pos m') <= 53 /\ -1074 <= e' <= 0 /\
    Zpos m' * 2 = k * 2 ^ (- e').
Proof.
  intros He Hk Hm. unfold binary_round, shl_align.
  destruct (fexp prec emax (Zpos (digits2_pos m) + e) - e) as [| p | p] eqn:En;
    try (now apply round_aux_half).
  apply round_aux_half; auto; [lia |].
  rewrite Pos2Nat.inj_iter. change (nat_rect _ m (fun _ => xO) (Pos.to_nat p))
    with (Pos.shiftl_nat m (Pos.to_nat p)).
  rewrite shiftl_nat_Z, positive_nat_Z.
  replace (- fexp prec emax (Zpos (digits2_pos m) + e)) with (- e + Zpos p) by lia.
  rewrite Z.pow_add_r by lia. nia.
Qed.

Lemma normalize_half (z e k : Z) :
  e <= 0 -> - 2 ^ 53 < k < 2 ^ 53 -> z * 2 = k * 2 ^ (- e) ->
  is_half k (binary_normalize prec emax z e false).
Proof.
  intros He Hk Hz.
  assert (P : 0 < 2 ^ (- e)) by (apply Z.pow_pos_nonneg; lia).
  destruct z as [| m | m]; cbn [binary_normalize].
  - simpl. nia.
  - destruct (binary_round_half false m e k He) as (m' & e' & -> & D & B & V);
      [nia | exact Hz |]. simpl. auto.
  - destruct (binary_round_half true m e (- k) He) as (m' & e' & -> & D & B & V);
      [nia | lia |]. simpl. repeat split; try lia.
Qed.

Lemma shl_align_fst (m : positive) (e e' : Z) :
  e' <= e -> Zpos (fst (shl_align m e e')) = Zpos m * 2 ^ (e - e').
Proof.
  intros H. unfold shl_align. destruct (e' - e) as [| p | p] eqn:E; try lia.
  - replace (e - e') with 0 by lia. simpl. lia.
  - cbn [fst]. rewrite Pos2Nat.inj_iter.
    change (nat_rect _ m (fun _ => xO) (Pos.to_nat p)) with (Pos.shiftl_nat m (Pos.to_nat p)).
    rewrite shiftl_nat_Z, positive_nat_Z. do 2 f_equal. lia.
Qed.

Lemma aligned_half (s : bool) (m : positive) (e ez a : Z) :
  ez <= e -> e <= 0 -> cond_Zopp s (Zpos m) * 2 = a * 2 ^ (- e) ->
  cond_Zopp s (Zpos (fst (shl_align m e ez))) * 2 = a * 2 ^ (- ez).
Proof.
  intros H He V. rewrite shl_align_fst by exact H.
  replace (- ez) with (- e + (e - ez)) by lia. rewrite Z.pow_add_r by lia.
  destruct s; cbn [cond_Zopp] in *; nia.
Qed.

Lemma fadd_half (a b : Z) (x y : float) :
  is_half a x -> is_half b y -> - 2 ^ 53 < a + b < 2 ^ 53 ->
  is_half (a + b) (fadd x y).
Proof.
  destruct x as [sx | sx | | sx mx ex], y as [sy | sy | | sy my ey];
    cbn [is_half]; try contradiction; intros Hx Hy Hk.
  - subst. destruct sx, sy; reflexivity.
  - subst. exact Hy.
  - subst. rewrite Z.add_0_r. exact Hx.
  - destruct Hx as (Dx & Bx & Vx), Hy as (Dy & By & Vy).
    unfold fadd, SFadd. apply normalize_half; [lia | exact Hk |].
    rewrite Z.mul_add_distr_r.
    rewrite (aligned_half sx mx ex (Z.min ex ey) a), (aligned_half sy my ey (Z.min ex ey) b);
      try lia; auto.
Qed.

Lemma fsub_half (a b : Z) (x y : float) :
  is_half a x -> is_half b y -> - 2 ^ 53 < a - b < 2 ^ 53 ->
  is_half (a - b) (fsub x y).
Proof.
  destruct x as [sx | sx | | sx mx ex], y as [sy | sy | | sy my ey];
    cbn [is_half]; try contradiction; intros Hx Hy Hk.
  - subst. destruct sx, sy; reflexivity.
  - subst. destruct Hy as (Dy & By & Vy). cbn [fsub SFsub is_half].
    repeat split; try lia. destruct sy; cbn [negb cond_Zopp] in *; lia.
  - subst. rewrite Z.sub_0_r. exact Hx.
  - destruct Hx as (Dx & Bx & Vx), Hy as (Dy & By & Vy).
    unfold fsub, SFsub. apply normalize_half; [lia | exact Hk |].
    rewrite Z.mul_sub_distr_r.
    rewrite (aligned_half sx mx ex (Z.min ex ey) a), (aligned_half sy my ey (Z.min ex ey) b);
      try lia; auto.
Qed.

Lemma fmul_half_pos (a b c : Z) (x y : float) :
  is_half a x -> is_half b y -> 0 < a -> 0 < b -> a * b = 2 * c -> c < 2 ^ 53 ->
  is_half c (fmul x y).
Proof.
  destruct x as [sx | sx | | sx mx ex], y as [sy | sy | | sy my ey];
    cbn [is_half]; try contradiction; try lia; intros Hx Hy Ha Hb Hc Hk.
  destruct Hx as (Dx & Bx & Vx), Hy as (Dy & By & Vy).
  assert (Px : 0 < 2 ^ (- ex)) by (apply Z.pow_pos_nonneg; lia).
  assert (Py : 0 < 2 ^ (- ey)) by (apply Z.pow_pos_nonneg; lia).
  destruct sx; [cbn [cond_Zopp] in Vx; nia |].
  destruct sy; [cbn [cond_Zopp] in Vy; nia |].
  cbn [cond_Zopp] in Vx, Vy.
  unfold fmul, SFmul. cbn [xorb].
  destruct (round_aux_half false (mx * my) (ex + ey) c) as (m' & e' & -> & D & B & V);
    try lia.
  - rewrite Pos2Z.inj_mul. replace (- (ex + ey)) with (- ex + - ey) by lia.
    rewrite Z.pow_add_r by lia. nia.
  - simpl. auto.
Qed.

Lemma half_is_half : is_half 1 half.
Proof. vm_compute. repeat split; congruence. Qed.

(** Division by the bin width [0.5]. *)
Lemma fdiv_half (a : Z) (x : float) :
  is_half a x -> - 2 ^ 52 < a < 2 ^ 52 -> is_half (2 * a) (fdiv x half).
Proof.
  destruct x as [sx | sx | | sx mx ex]; cbn [is_half]; try contradiction; intros Hx Hk.
  - subst. reflexivity.
  - destruct Hx as (Dx & Bx & Vx).
    unfold fdiv, half, SFdiv, SFdiv_core_binary.
    cbn [Zdigits2 digits2_pos Pos.succ]. rewrite fexp_eq.
    set (d := Zpos (digits2_pos mx)) in *.
    assert (Hd : 1 <= d) by (unfold d; lia).
    change (Zpos 53 + -53) with 0.
    replace (Z.min (Z.max (d + ex - 0 - 53) (-1074)) (ex - -53))
      with (Z.max (d + ex - 53) (-1074)) by lia.
    set (e' := Z.max (d + ex - 53) (-1074)).
    destruct (ex - -53 - e') as [| p | p] eqn:Es; try lia.
    rewrite Z.shiftl_mul_pow2 by lia.
    assert (Hp : 52 <= Zpos p) by lia.
    replace (Zpos mx * 2 ^ Zpos p)
      with (Zpos mx * 2 ^ (Zpos p - 52) * 4503599627370496).
    2:{ change 4503599627370496 with (2 ^ 52). rewrite <- Z.mul_assoc, <- Z.pow_add_r by lia.
        do 2 f_equal. lia. }
    assert (Hq : Z.div_eucl (Zpos mx * 2 ^ (Zpos p - 52) * 4503599627370496) 4503599627370496
                 = (Zpos mx * 2 ^ (Zpos p - 52), 0)).
    { pose proof (Z.div_mul (Zpos mx * 2 ^ (Zpos p - 52)) 4503599627370496) as Hdiv.
      pose proof (Z.mod_mul (Zpos mx * 2 ^ (Zpos p - 52)) 4503599627370496) as Hmod.
      unfold Z.div, Z.modulo in Hdiv, Hmod.
      destruct (Z.div_eucl _ _) as [q r]. rewrite Hdiv, Hmod by lia. reflexivity. }
    rewrite Hq.
    change (new_location 4503599627370496 0) with loc_Exact.
    assert (Pp : 0 < 2 ^ (Zpos p - 52)) by (apply Z.pow_pos_nonneg; lia).
    destruct (Zpos mx * 2 ^ (Zpos p - 52)) as [| q | q] eqn:Eq; try lia.
    assert (Px : 0 < 2 ^ (- ex)) by (apply Z.pow_pos_nonneg; lia).
    assert (V' : Zpos q * 2 = Z.abs (2 * a) * 2 ^ (- e')).
    { rewrite <- Eq. replace (- e') with (- ex + (Zpos p - 52) - 1) by lia.
      assert (2 ^ (- ex + (Zpos p - 52)) = 2 * 2 ^ (- ex + (Zpos p - 52) - 1)).
      { rewrite <- Z.pow_succ_r by lia. f_equal. lia. }
      rewrite Z.pow_add_r in H by lia.
      destruct sx; cbn [cond_Zopp] in Vx; nia. }
    assert (Sa : cond_Zopp sx (Z.abs (2 * a)) = 2 * a).
    { destruct sx; cbn [cond_Zopp] in *; nia. }
    assert (Ka : 0 < Z.abs (2 * a) < 2 ^ 53).
    { split; [| lia]. destruct sx; cbn [cond_Zopp] in Vx; nia. }
    destruct (round_aux_half (xorb sx false) q e' (Z.abs (2 * a)))
      as (m' & e'' & -> & D & B & V); [unfold e'; lia | exact Ka | exact V' |].
    cbn [is_half]. repeat split; try lia.
    rewrite xorb_false_r, <- Sa.
    destruct sx; cbn [cond_Zopp] in *; lia.
Qed.

Lemma Z2F_half (z : Z) : - 2 ^ 52 < z < 2 ^ 52 -> is_half (2 * z) (Z2F z).
Proof.
  intros H. unfold Z2F. apply normalize_half; [lia | lia |].
  change (- 0) with 0. rewrite Z.pow_0_r. lia.
Qed.

(** ** The binary64 bin edges *)

Lemma is_half_edge (a : Z) (i : nat) (x : float) :
  is_half (2 * a + Z.of_nat i) x -> same_value x (edge a i).
Proof.
  intros H. split; [now apply (is_half_finite _ x H) |].
  rewrite (is_half_value _ x H). unfold edge.
  rewrite (Qmake_Qdiv (2 * a + Z.of_nat i) 2), inject_Z_plus, inject_Z_mult.
  change (inject_Z (Zpos 2)) with 2%Q. change (inject_Z 2) with 2%Q. field.
Qed.

Lemma Forall2_map_seq {A B} (R : A -> B -> Prop) (f : nat -> A) (g : nat -> B) : forall n s,
  (forall i, (s <= i < s + n)%nat -> R (f i) (g i)) ->
  Forall2 R (map f (seq s n)) (map g (seq s n)).
Proof.
  induction n as [| n IH]; intros s H; simpl; constructor.
  - apply H. lia.
  - apply IH. intros i Hi. apply H. lia.
Qed.

(** For integer bounds of moderate size the edges numpy computes are the
    exact ones. *)
Lemma np_arange_half (a b : Z) :
  - 2 ^ 20 <= a -> a <= b -> b <= 2 ^ 20 ->
  exists bins,
    np_arange (Z2F a) (fadd (fadd (Z2F b) half) (Z2F 1)) half = Ok bins /\
    Forall2 same_value bins (map (edge a) (seq 0 (Z.to_nat (2 * (b - a) + 3)))).
Proof.
  intros Ha Hab Hb.
  assert (Sa : is_half (2 * a) (Z2F a)) by (apply Z2F_half; lia).
  assert (Sb : is_half (2 * b) (Z2F b)) by (apply Z2F_half; lia).
  assert (S1 : is_half 2 (Z2F 1)) by (apply (Z2F_half 1); lia).
  pose proof half_is_half as Sh.
  assert (Sstop : is_half (2 * b + 1 + 2) (fadd (fadd (Z2F b) half) (Z2F 1))).
  { apply fadd_half; auto; [| lia]. apply fadd_half; auto. lia. }
  assert (Sdiff : is_half (2 * b + 1 + 2 - 2 * a)
                    (fsub (fadd (fadd (Z2F b) half) (Z2F 1)) (Z2F a))).
  { apply fsub_half; auto. lia. }
  assert (Sval : is_half (2 * (2 * b + 1 + 2 - 2 * a))
                   (fdiv (fsub (fadd (fadd (Z2F b) half) (Z2F 1)) (Z2F a)) half)).
  { apply fdiv_half; auto. lia. }
  assert (Snext : is_half (2 * a + 1) (fadd (Z2F a) half)).
  { apply fadd_half; auto. lia. }
  assert (Sdelta : is_half 1 (fsub (fadd (Z2F a) half) (Z2F a))).
  { replace 1 with (2 * a + 1 - 2 * a) by lia. apply fsub_half; auto. lia. }
  unfold np_arange.
  set (stop := fadd (fadd (Z2F b) half) (Z2F 1)) in *.
  set (value := fdiv (fsub stop (Z2F a)) half) in *.
  set (next := fadd (Z2F a) half) in *.
  set (delta := fsub next (Z2F a)) in *.
  assert (Hlen : Qceiling (F2Q value) = 2 * (b - a) + 3).
  { rewrite <- (Qceiling_Z (2 * (b - a) + 3)). apply Qceiling_comp.
    rewrite (is_half_value _ value Sval), Qmake_Qdiv, inject_Z_mult.
    change (inject_Z (Zpos 2)) with 2%Q. change (inject_Z 2) with 2%Q.
    replace (2 * b + 1 + 2 - 2 * a) with (2 * (b - a) + 3) by lia. field. }
  clearbody stop value next delta.
  destruct value as [s | s | | s m e]; cbn [is_half] in Sval; try contradiction.
  - exfalso. lia.
  - rewrite Hlen.
    replace ((2 * (b - a) + 3 <? - 2 ^ 63) || (2 ^ 63 <? 2 * (b - a) + 3)) with false
      by (symmetry; apply orb_false_iff; split; apply Z.ltb_ge; lia).
    eexists. split; [reflexivity |].
    apply Forall2_map_seq. intros i Hi. apply is_half_edge.
    destruct i as [| [| i]].
    + now rewrite Z.add_0_r.
    + exact Snext.
    + apply fadd_half; auto; [| lia].
      apply (fmul_half_pos (2 * Z.of_nat (S (S i))) 1); auto; try lia.
      apply Z2F_half. lia.
Qed.

Lemma fle_same x y qx qy :
  same_value x qx -> same_value y qy -> fle x y = Qle_bool qx qy.
Proof.
  intros [Fx Ex] [Fy Ey]. pose proof (fle_spec x y Fx Fy) as H.
  rewrite Ex, Ey, <- Qle_bool_iff in H.
  destruct (fle x y), (Qle_bool qx qy); auto; [symmetry |]; apply H; auto.
Qed.

Lemma flt_same x y qx qy :
  same_value x qx -> same_value y qy -> flt x y = negb (Qle_bool qy qx).
Proof.
  intros [Fx Ex] [Fy Ey]. pose proof (flt_spec x y Fx Fy) as H.
  rewrite Ex, Ey in H.
  destruct (Qle_bool qy qx) eqn:E; cbn [negb].
  - apply Qle_bool_iff in E. destruct (flt x y); auto.
    exfalso. apply (Qle_not_lt _ _ E). now apply H.
  - apply H. apply Qnot_le_lt. intros C. apply Qle_bool_iff in C. congruence.
Qed.

Lemma in_bin_same lo hi qlo qhi last v :
  same_value lo qlo -> same_value hi qhi ->
  in_bin lo hi last v = in_bin_exact qlo qhi last v.
Proof.
  intros Hlo Hhi. unfold in_bin, in_bin_exact.
  destruct (is_finite v) eqn:Fv.
  - assert (Hv : same_value v (F2Q v)) by (split; [exact Fv | reflexivity]).
    rewrite (fle_same lo v qlo (F2Q v) Hlo Hv). cbn [andb].
    destruct last.
    + now rewrite (fle_same v hi (F2Q v) qhi Hv Hhi).
    + now rewrite (flt_same v hi (F2Q v) qhi Hv Hhi).
  - cbn [andb]. destruct Hlo as [Flo _], Hhi as [Fhi _].
    destruct v as [? | sv | |]; try discriminate;
      destruct lo; try discriminate; destruct hi; try discriminate;
      try reflexivity; destruct sv, last; reflexivity.
Qed.

Lemma bin_counts_step a lo hi rest :
  bin_counts a (lo :: hi :: rest)
  = List.length (filter (in_bin lo hi (match rest with [] => true | _ => false end)) a)
    :: bin_counts a (hi :: rest).
Proof. reflexivity. Qed.

Lemma histogram_exact_cons a lo hi rest :
  histogram_exact a (lo :: hi :: rest)
  = List.length (filter (in_bin_exact lo hi (match rest with [] => true | _ => false end)) a)
    :: histogram_exact a (hi :: rest).
Proof. reflexivity. Qed.

Lemma bin_counts_exact (a : list float) : forall bins edges,
  Forall2 same_value bins edges -> bin_counts a bins = histogram_exact a edges.
Proof.
  induction bins as [| lo tl IH]; intros edges H; inversion H as [| ? qlo ? etl Hlo Htl]; subst;
    [reflexivity |].
  destruct tl as [| hi rest]; inversion Htl as [| ? qhi ? erest Hhi Hrest]; subst;
    [reflexivity |].
  rewrite bin_counts_step, histogram_exact_cons, (IH _ Htl). f_equal. f_equal.
  apply filter_ext. intros v.
  replace (match erest with [] => true | _ :: _ => false end)
    with (match rest with [] => true | _ :: _ => false end)
    by (inversion Hrest; reflexivity).
  now apply in_bin_same.
Qed.

Lemma monotone_step lo hi rest :
  monotone (lo :: hi :: rest) = negb (flt hi lo) && monotone (hi :: rest).
Proof. reflexivity. Qed.

Lemma monotone_edges (a : Z) : forall n s bins,
  Forall2 same_value bins (map (edge a) (seq s n)) -> monotone bins = true.
Proof.
  induction n as [| n IH]; intros s bins H; simpl in H.
  - inversion H. reflexivity.
  - inversion H as [| lo ? tl ? Hlo Htl]; subst.
    destruct n as [| n]; simpl in Htl.
    + inversion Htl. reflexivity.
    + inversion Htl as [| hi ? rest ? Hhi Hrest]; subst.
      rewrite monotone_step, (flt_same hi lo _ _ Hhi Hlo).
      replace (Qle_bool (edge a s) (edge a (S s))) with true
        by (symmetry; apply Qle_bool_iff, edge_mono; lia).
      cbn [negb andb]. apply (IH (S s)). exact Htl.
Qed.

Lemma Qtrunc_inject_Z (z : Z) : Qtrunc (inject_Z z) = z.
Proof. unfold Qtrunc, inject_Z. simpl. apply Z.quot_1_r. Qed.

Lemma moderate_spec (d : float) :
  moderate d = true ->
  finite d /\ - 2 ^ 20 <= Qtrunc (F2Q d) <= 2 ^ 20.
Proof.
  unfold moderate. rewrite !andb_true_iff. intros [[F L] U].
  apply Qle_bool_iff in L, U. split; [exact F |].
  split.
  - rewrite <- (Qtrunc_inject_Z (- 2 ^ 20)). apply Qtrunc_mono.
    now rewrite inject_Z_opp.
  - rewrite <- (Qtrunc_inject_Z (2 ^ 20)). now apply Qtrunc_mono.
Qed.

Lemma scoreable_moderate offsets :
  scoreable offsets = true ->
  offsets <> [] /\
  forall v, In v (map (fun x => fsub (fst x) (snd x)) offsets) -> moderate v = true.
Proof.
  intros HS. split; [destruct offsets; [discriminate | congruence] |].
  intros v Hv. apply in_map_iff in Hv as (x & <- & Hx).
  destruct offsets as [| o rest]; [destruct Hx |].
  unfold scoreable in HS. rewrite forallb_forall in HS. now apply HS.
Qed.

Lemma scoreable_finite_deltas offsets :
  scoreable offsets = true -> finite_deltas offsets = true.
Proof.
  intros HS. destruct (scoreable_moderate offsets HS) as [Hne Hm].
  destruct offsets as [| o rest]; [congruence |].
  unfold finite_deltas. apply forallb_forall. intros x Hx.
  apply (moderate_spec (fsub (fst x) (snd x))).
  apply Hm. now apply (in_map (fun y => fsub (fst y) (snd y))).
Qed.

(** On moderate deltas the histogram of [score_match] is the one over the
    exact edges. *)
Lemma delta_histogram_exact_eq offsets :
  scoreable offsets = true -> delta_histogram offsets = delta_histogram_exact offsets.
Proof.
  intros HS. destruct (scoreable_moderate offsets HS) as [Hne Hm].
  unfold delta_histogram, delta_histogram_exact.
  destruct (map (fun x => fsub (fst x) (snd x)) offsets) as [| d tks] eqn:Etks.
  { destruct offsets; [congruence | discriminate]. }
  assert (HT : Forall finite (d :: tks)).
  { apply Forall_forall. intros v Hv. now apply moderate_spec, Hm. }
  inversion HT as [| ? ? Hd Htks]; subst.
  destruct (fold_min_spec tks d Hd Htks) as [Imin Lmin].
  destruct (fold_max_spec tks d Hd Htks) as [Imax Lmax].
  cbn [py_min py_max rbind].
  set (lo := fold_left (fun best item => if flt item best then item else best) tks d) in *.
  set (hi := fold_left (fun best item => if flt best item then item else best) tks d) in *.
  destruct (moderate_spec lo (Hm lo Imin)) as [Flo Blo].
  destruct (moderate_spec hi (Hm hi Imax)) as [Fhi Bhi].
  rewrite (py_int_finite lo Flo), (py_int_finite hi Fhi). cbn [rbind].
  assert (Hab : Qtrunc (F2Q lo) <= Qtrunc (F2Q hi))
    by (apply Qtrunc_mono; apply Qle_trans with (F2Q d); assumption).
  destruct (np_arange_half (Qtrunc (F2Q lo)) (Qtrunc (F2Q hi))) as (bins & -> & HB);
    try lia.
  cbn [rbind]. unfold np_histogram.
  rewrite (monotone_edges _ _ _ _ HB), arange_exact_edges.
  f_equal. now apply bin_counts_exact.
Qed.

Lemma score_match_delta_histogram offsets :
  score_match offsets = (let? hist := delta_histogram offsets in np_max hist).
Proof.
  unfold score_match, delta_histogram.
  destruct (py_min _) as [lo |]; simpl; auto.
  destruct (py_int lo) as [a |]; simpl; auto.
  destruct (py_max _) as [hi |]; simpl; auto.
  destruct (py_int hi) as [b |]; simpl; auto.
  destruct (np_arange _ _ _) as [bins |]; simpl; auto.
Qed.

Lemma score_match_exact offsets :
  scoreable offsets = true -> score_match offsets = score_exact offsets.
Proof.
  intros HS.
  now rewrite score_match_delta_histogram, score_exact_delta_histogram,
    (delta_histogram_exact_eq offsets HS).
Qed.

Lemma bin_counts_bound a : forall bins,
  Forall (fun c => (c <= List.length a)%nat) (bin_counts a bins).
Proof.
  induction bins as [| lo [| hi rest] IH]; simpl; constructor.
  - apply filter_length_le.
  - exact IH.
Qed.

(** The score never exceeds the number of pairs, whatever the deltas are. *)
Lemma score_match_le_len offsets s :
  score_match offsets = Ok s -> (s <= List.length offsets)%nat.
Proof.
  unfold score_match. intros E.
  destruct (py_min _) as [lo |]; simpl in E; [| discriminate].
  destruct (py_int lo) as [a |]; simpl in E; [| discriminate].
  destruct (py_max _) as [hi |]; simpl in E; [| discriminate].
  destruct (py_int hi) as [b |]; simpl in E; [| discriminate].
  destruct (np_arange _ _ _) as [bins |]; simpl in E; [| discriminate].
  unfold np_histogram in E. destruct (monotone bins); simpl in E; [| discriminate].
  eapply np_max_bound in E; [| apply bin_counts_bound].
  now rewrite length_map in E.
Qed.

Lemma score_match_total offsets :
  scoreable offsets = true -> exists s, score_match offsets = Ok s.
Proof.
  intros HS. rewrite (score_match_exact offsets HS).
  apply score_exact_total. now apply scoreable_finite_deltas.
Qed.

(** When [int] does not move the smallest delta upwards (the minimum is not
    negative, or is an integer), every delta is counted in exactly one bin. *)
Lemma delta_histogram_counts_all offsets lo :
  scoreable offsets = true ->
  py_min (map (fun x => fsub (fst x) (snd x)) offsets) = Ok lo ->
  (inject_Z (Qtrunc (F2Q lo)) <= F2Q lo)%Q ->
  exists hist, delta_histogram offsets = Ok hist /\
               list_sum hist = List.length offsets.
Proof.
  intros HS Hlo Hcut. rewrite (delta_histogram_exact_eq offsets HS).
  apply (delta_histogram_exact_counts_all offsets lo); auto.
  now apply scoreable_finite_deltas.
Qed.

Lemma best_match_loop_refines items : forall matched_song best_score r,
  best_match_naive_loop items matched_song best_score = Ok r ->
  best_match_loop items matched_song best_score = Ok r.
Proof.
  induction items as [| [song_id offsets] rest IH]; intros ms bs r H; simpl in *; auto.
  destruct (score_match offsets) as [s |] eqn:E; simpl in *; [| discriminate].
  destruct (List.length offsets <? bs)%nat eqn:L.
  - apply Nat.ltb_lt in L. apply score_match_le_len in E.
    replace (bs <? s)%nat with false in H by (symmetry; apply Nat.ltb_ge; lia).
    auto.
  - destruct (bs <? s)%nat; auto.
Qed.

Lemma best_match_naive_loop_total items : forall matched_song best_score,
  forallb (fun kv => scoreable (snd kv)) items = true ->
  exists r, best_match_naive_loop items matched_song best_score = Ok r.
Proof.
  induction items as [| [song_id offsets] rest IH]; intros ms bs H; simpl in *; eauto.
  apply andb_true_iff in H as [Ho Hrest].
  destruct (score_match_total offsets Ho) as [s ->]. simpl.
  destruct (bs <? s)%nat; auto.
Qed.

(** C7.  In a MatchSet whose lists are non-empty with moderate deltas
    (finite, at most [2^20] seconds in magnitude),
    [score_match] returns for every song a score that is at most the number
    of its pairs, and [best_match], which skips a song with fewer pairs than
    the best score so far, returns the same song id as the variant that
    scores every song. *)
Theorem best_match_skip_agrees_with_naive
    (matches : dict string (list (float * float))) :
  forallb (fun kv => scoreable (snd kv)) matches = true ->
  (forall song_id offsets, In (song_id, offsets) matches ->
     exists s, score_match offsets = Ok s /\ (s <= List.length offsets)%nat) /\
  exists r, best_match_naive matches = Ok r /\ best_match matches = Ok r.
Proof.
  intros H. split.
  - intros song_id offsets Hin. rewrite forallb_forall in H.
    destruct (score_match_total offsets (H _ Hin)) as [s Hs].
    exists s. split; auto. now apply score_match_le_len.
  - destruct (best_match_naive_loop_total matches None 0%nat H) as [r Hr].
    exists r. split; auto. now apply best_match_loop_refines.
Qed.

(** ** Dictionaries and the query *)
Section DictFacts.
Context {K V : Type} (eqb : K -> K -> bool).
Hypothesis eqb_eq : forall a b, eqb a b = true <-> a = b.

Lemma dict_get_set (d : dict K V) k v k' :
  dict_get eqb (dict_set eqb d k v) k' = if eqb k' k then Some v else dict_get eqb d k'.
Proof.
  induction d as [| [k0 v0] r IH]; simpl.
  - destruct (eqb k' k); reflexivity.
  - destruct (eqb k k0) eqn:E; simpl.
    + apply eqb_eq in E. subst k0. destruct (eqb k' k); reflexivity.
    + rewrite IH. destruct (eqb k' k0) eqn:E'; auto.
      destruct (eqb k' k) eqn:E''; auto.
      apply eqb_eq in E', E''. subst. 
      assert (eqb k0 k0 = true) by now apply eqb_eq. congruence.
Qed.
End DictFacts.

Lemma h_dict_get hashes : forall d h,
  dict_get Z.eqb
    (fold_left (fun h_dict rec => dict_set Z.eqb h_dict (fst (fst rec)) (snd (fst rec))) hashes d) h
  = match last_query_offset hashes h with
    | Some t => Some t
    | None => dict_get Z.eqb d h
    end.
Proof.
  induction hashes as [| rec rest IH]; intros d h; simpl; auto.
  rewrite IH. destruct (last_query_offset rest h); auto.
  rewrite (dict_get_set Z.eqb Z.eqb_eq). now destruct (h =? fst (fst rec)).
Qed.

Lemma existsb_last_query_offset hashes h :
  existsb (Z.eqb h) (map (fun r : fingerprint => fst (fst r)) hashes) = false ->
  last_query_offset hashes h = None.
Proof.
  induction hashes as [| rec rest IH]; simpl; auto.
  intros H. apply orb_false_iff in H as [H1 H2]. rewrite (IH H2), H1. reflexivity.
Qed.

Lemma existsb_last_query_offset_some hashes h :
  existsb (Z.eqb h) (map (fun r : fingerprint => fst (fst r)) hashes) = true ->
  exists t, last_query_offset hashes h = Some t.
Proof.
  induction hashes as [| rec rest IH]; simpl; [discriminate |].
  intros H. destruct (existsb (Z.eqb h) (map (fun r : fingerprint => fst (fst r)) rest)) eqn:E.
  - destruct (IH eq_refl) as [t ->]. eauto.
  - rewrite orb_false_r in H. rewrite H. destruct (last_query_offset rest h); eauto.
Qed.

Lemma offsets_of_append_match d s p s' :
  offsets_of (append_match d s p) s'
  = if String.eqb s' s then offsets_of d s' ++ [p] else offsets_of d s'.
Proof.
  unfold offsets_of, append_match. rewrite (dict_get_set String.eqb String.eqb_eq).
  destruct (String.eqb s' s) eqn:E; auto.
  apply String.eqb_eq in E. subst s'. destruct (dict_get String.eqb d s); reflexivity.
Qed.

Lemma group_matches_spec h_dict results : forall acc,
  (forall r, In r results -> dict_get Z.eqb h_dict (fst (fst r)) <> None) ->
  exists m, group_matches h_dict results acc = Ok m /\
    forall song, offsets_of m song
      = offsets_of acc song ++
        flat_map (pair_of (dict_get Z.eqb h_dict))
                 (filter (fun row => String.eqb (snd row) song) results).
Proof.
  induction results as [| r rest IH]; intros acc H; simpl.
  - exists acc. split; auto. intros. now rewrite app_nil_r.
  - destruct (dict_get Z.eqb h_dict (fst (fst r))) as [t |] eqn:E.
    2:{ exfalso. apply (H r); [now left | exact E]. }
    destruct (IH (append_match acc (snd r) (snd (fst r), t))) as (m & Hm & Hs).
    { intros r' Hr'. apply H. now right. }
    exists m. split; auto. intros song. rewrite Hs, offsets_of_append_match.
    rewrite String.eqb_sym.
    destruct (String.eqb (snd r) song); simpl; auto.
    unfold pair_of at 2. rewrite E. now rewrite <- app_assoc.
Qed.

Lemma flat_map_filter_query hashes song (tbl : list fingerprint) :
  flat_map (pair_of (last_query_offset hashes))
    (filter (fun row => String.eqb (snd row) song)
       (filter (fun row => existsb (Z.eqb (fst (fst row)))
                             (map (fun h : fingerprint => fst (fst h)) hashes)) tbl))
  = flat_map (pair_of (last_query_offset hashes))
      (filter (fun row => String.eqb (snd row) song) tbl).
Proof.
  induction tbl as [| row tbl IH]; simpl; auto.
  destruct (existsb _ _) eqn:E; simpl.
  - destruct (String.eqb (snd row) song); simpl; now rewrite IH.
  - rewrite IH. destruct (String.eqb (snd row) song); simpl; auto.
    unfold pair_of at 2. now rewrite (existsb_last_query_offset _ _ E).
Qed.

Lemma Permutation_filter {A} (f : A -> bool) (l l' : list A) :
  Permutation l l' -> Permutation (filter f l) (filter f l').
Proof.
  induction 1 as [| x l l' _ IH | x y l | l l' l'' _ IH1 _ IH2]; simpl.
  - constructor.
  - destruct (f x); auto.
  - destruct (f x), (f y); auto. apply perm_swap.
  - now transitivity (filter f l').
Qed.

Lemma query_dict_get hashes h :
  dict_get Z.eqb (query_dict hashes) h = last_query_offset hashes h.
Proof. unfold query_dict. rewrite h_dict_get. now destruct (last_query_offset hashes h). Qed.

(** The grouping loop of [get_matches] on the selected rows, in any order. *)
Lemma group_matches_any_order (hashes : list fingerprint) (d : database)
    (results : list fingerprint) :
  Permutation results (selected_rows hashes d) ->
  exists m, group_matches (query_dict hashes) results [] = Ok m /\
    forall song, Permutation (offsets_of m song)
      (flat_map (pair_of (last_query_offset hashes))
         (filter (fun row => String.eqb (snd row) song) (hash_tbl d))).
Proof.
  intros HP.
  destruct (group_matches_spec (query_dict hashes) results []) as (m & Hm & Hs).
  { intros r Hr. apply (Permutation_in _ HP) in Hr. unfold selected_rows in Hr.
    apply filter_In in Hr as [_ Hr]. rewrite query_dict_get.
    destruct (existsb_last_query_offset_some _ _ Hr) as [t ->]. discriminate. }
  exists m. split; auto.
  intros song. rewrite Hs. cbn [offsets_of dict_get app].
  rewrite <- flat_map_filter_query. fold (selected_rows hashes d).
  rewrite (Permutation_filter (fun row => String.eqb (snd row) song) _ _ HP).
  erewrite flat_map_ext; [reflexivity |].
  intros row. unfold pair_of. now rewrite query_dict_get.
Qed.

(** C5 (amended).  [get_matches] returns without raising, and the pairs it
    holds for a song are, up to their order, one pair per stored row of that
    song whose hash was queried: the row's offset with the offset of the
    last query record that carries the row's hash.  SQL leaves the order of
    the selected rows open (with the index on [hash] SQLite hands them out by
    hash): the same holds for the grouping loop on the selected rows in any
    order. *)
Theorem get_matches_pairs_last (hashes : list fingerprint) (w : world) :
  (exists m, get_matches hashes w = (Ok m, w) /\
     forall song, Permutation (offsets_of m song)
       (flat_map (pair_of (last_query_offset hashes))
          (filter (fun row => String.eqb (snd row) song) (hash_tbl (db w))))) /\
  (forall results,
     Permutation results (selected_rows hashes (db w)) ->
     exists m, group_matches (query_dict hashes) results [] = Ok m /\
       forall song, Permutation (offsets_of m song)
         (flat_map (pair_of (last_query_offset hashes))
            (filter (fun row => String.eqb (snd row) song) (hash_tbl (db w))))).
Proof.
  split.
  - destruct (group_matches_any_order hashes (db w) (selected_rows hashes (db w)))
      as (m & Hm & Hs); [reflexivity |].
    exists m. split; auto.
    unfold get_matches, bind, get_db, lift.
    match goal with |- context [group_matches ?h ?r []] =>
      change h with (query_dict hashes); change r with (selected_rows hashes (db w)) end.
    now rewrite Hm.
  - intros results HP. now apply group_matches_any_order.
Qed.

Lemma filter_none {A} (l : list A) : filter (fun _ => false) l = [].
Proof. induction l; simpl; auto. Qed.

Lemma get_matches_empty (w : world) : get_matches [] w = (Ok [], w).
Proof.
  unfold get_matches, bind, get_db, lift. cbn [map existsb fold_left].
  now rewrite filter_none.
Qed.

(** C3.  With an empty list of query records [get_matches] returns an empty
    mapping without raising, and [recognise_song] on a file whose fingerprint
    is empty prints "Did not find a result" and returns [None]. *)
Theorem empty_query_reports_no_match
    (fingerprint_file : string -> result (list fingerprint))
    (filename : string) (w : world) :
  fingerprint_file filename = Ok [] ->
  get_matches [] w = (Ok [], w) /\
  recognise_song fingerprint_file filename w
  = (Ok PyNone, with_stdout w (stdout w ++ [PyStr "Did not find a result"])).
Proof.
  intros H. split; [apply get_matches_empty |].
  unfold recognise_song, bind, lift. rewrite H, get_matches_empty. reflexivity.
Qed.

Lemma store_song_commits h hashes a b c w :
  store_song (h :: hashes) (PyTuple [a; b; c]) w
  = (Ok PyNone,
     with_db w {| hash_tbl := hash_tbl (db w) ++ h :: hashes;
                  song_info_tbl := song_info_tbl (db w)
                                   ++ [(or_unknown a, or_unknown b, or_unknown c, snd h)] |}).
Proof. reflexivity. Qed.

(** C9 (amended).  [store_song] with an empty hash list returns without touching the
    database, whatever [song_info] is; zero peaks give zero hash records;
    with a non-empty hash list and a tuple [(artist, album, title)] it
    commits all hash rows and one [song_info] row, "Unknown" standing for a
    missing field, keyed by the song id of the first hash record. *)
Theorem store_song_rows :
  (forall song_info w, store_song [] song_info w = (Ok PyNone, w)) /\
  (forall hash uuid5_oid_int filename, hash_points hash uuid5_oid_int [] filename = []) /\
  (forall h hashes a b c w,
     store_song (h :: hashes) (PyTuple [a; b; c]) w
     = (Ok PyNone,
        with_db w {| hash_tbl := hash_tbl (db w) ++ h :: hashes;
                     song_info_tbl := song_info_tbl (db w)
                                      ++ [(or_unknown a, or_unknown b, or_unknown c, snd h)] |})).
Proof.
  repeat split; intros; reflexivity || apply store_song_commits.
Qed.

(** What [register_song] runs into: [store_song] with [None] for
    [song_info] and a non-empty hash list raises [TypeError] and commits
    nothing. *)
Lemma store_song_None_raises h hashes w :
  store_song (h :: hashes) PyNone w = (Raise TypeError, w).
Proof. reflexivity. Qed.

Lemma find_app_last {A} (f : A -> bool) (l : list A) (a : A) :
  f a = true -> exists b, find f (l ++ [a]) = Some b.
Proof.
  intros H. induction l as [| x l IH]; simpl.
  - rewrite H. eauto.
  - destruct (f x); eauto.
Qed.

(** C10.  Every record of [hash_points points filename] carries the song id
    [str(uuid5(NAMESPACE_OID, filename).int)] and the time of its anchor
    peak; [song_in_db] looks the same id up; so after [store_song] has
    written a non-empty [hash_points] result, [song_in_db] finds the file. *)
Theorem hash_points_song_id
    (hash : float * float * float -> Z) (uuid5_oid_int : string -> Z)
    (points : list point) (filename : string) :
  Forall (fun h =>
            snd h = str (uuid5_oid_int filename) /\
            exists anchor target,
              In anchor points /\
              In target (target_zone anchor points TARGET_T TARGET_F TARGET_START) /\
              fst (fst h) = hash_point_pair hash anchor target /\
              snd (fst h) = snd anchor)
         (hash_points hash uuid5_oid_int points filename) /\
  (forall w,
     song_in_db uuid5_oid_int filename w
     = (Ok (existsb (fun row => String.eqb (snd row) (str (uuid5_oid_int filename)))
                    (song_info_tbl (db w))), w)) /\
  (forall a b c w,
     hash_points hash uuid5_oid_int points filename <> [] ->
     exists w',
       store_song (hash_points hash uuid5_oid_int points filename) (PyTuple [a; b; c]) w
       = (Ok PyNone, w') /\
       song_in_db uuid5_oid_int filename w' = (Ok true, w')).
Proof.
  assert (HA : Forall (fun h =>
            snd h = str (uuid5_oid_int filename) /\
            exists anchor target,
              In anchor points /\
              In target (target_zone anchor points TARGET_T TARGET_F TARGET_START) /\
              fst (fst h) = hash_point_pair hash anchor target /\
              snd (fst h) = snd anchor)
         (hash_points hash uuid5_oid_int points filename)).
  { apply Forall_forall. intros h Hh. unfold hash_points in Hh.
    apply in_flat_map in Hh as (anchor & Ha & Hh).
    apply in_map_iff in Hh as (target & <- & Ht). simpl. eauto 8. }
  split; [exact HA |]. split.
  - intros w. unfold song_in_db, bind, get_db, ret. f_equal. f_equal.
    induction (song_info_tbl (db w)) as [| row l IH]; simpl; auto.
    destruct (String.eqb (snd row) (str (uuid5_oid_int filename))); auto.
  - intros a b c w Hne.
    destruct (hash_points hash uuid5_oid_int points filename) as [| h rest] eqn:E;
      [congruence |].
    inversion HA as [| ? ? [Hid _] _]; subst.
    eexists. split; [apply store_song_commits |].
    unfold song_in_db, bind, get_db, ret, with_db. cbn [db song_info_tbl].
    destruct (find_app_last
                (fun row : string * string * string * string =>
                   String.eqb (snd row) (str (uuid5_oid_int filename)))
                (song_info_tbl (db w))
                (or_unknown a, or_unknown b, or_unknown c, snd h)) as [row ->];
      [| reflexivity].
    cbn [snd]. rewrite Hid. apply String.eqb_refl.
Qed.

(** C4.  [get_song_info] prints the tuple of tags and returns [None]
    (unless reading the tags raises), so [register_song] is the program that
    passes [None] to [store_song] as [song_info]. *)
Theorem get_song_info_returns_None
    (uuid5_oid_int : string -> Z)
    (fingerprint_file : string -> result (list fingerprint))
    (TinyTag_get : string -> result tag)
    (filename : string) (w : world) :
  get_song_info TinyTag_get filename w
  = match TinyTag_get filename with
    | Ok tag =>
        (Ok PyNone,
         with_stdout w
           (stdout w ++ [PyTuple [match albumartist tag with
                                  | None => artist tag
                                  | Some _ => albumartist tag
                                  end; album tag; title tag]]))
    | Raise e => (Raise e, w)
    end /\
  register_song uuid5_oid_int fingerprint_file TinyTag_get filename w
  = (let* present := song_in_db uuid5_oid_int filename in
     if present then ret PyNone
     else
       let* hashes := lift (fingerprint_file filename) in
       let* _ := get_song_info TinyTag_get filename in
       store_song hashes PyNone) w.
Proof.
  assert (G : get_song_info TinyTag_get filename w
              = match TinyTag_get filename with
                | Ok tag =>
                    (Ok PyNone,
                     with_stdout w
                       (stdout w ++ [PyTuple [match albumartist tag with
                                              | None => artist tag
                                              | Some _ => albumartist tag
                                              end; album tag; title tag]]))
                | Raise e => (Raise e, w)
                end).
  { unfold get_song_info, bind, lift. now destruct (TinyTag_get filename). }
  split; [exact G |].
  unfold register_song, bind.
  destruct (song_in_db uuid5_oid_int filename w) as [[[|] | e] w1]; try reflexivity.
  unfold lift. destruct (fingerprint_file filename) as [hashes | e]; try reflexivity.
  unfold get_song_info, bind, lift, print.
  destruct (TinyTag_get filename) as [tg | e]; try reflexivity.
  now destruct (lock_defined _).
Qed.

(** C2 (the code at a failing input).  [recognise_song] never returns a
    tuple; on a database that holds the matching song with its info row it
    prints the info tuple and returns [None]. *)
Theorem recognise_song_returns_None_on_match :
  (forall fingerprint_file filename w,
     match fst (recognise_song fingerprint_file filename w) with
     | Ok (PyTuple _) => False
     | _ => True
     end) /\
  (let w0 := {| db := {| hash_tbl := [(42, Z2F 3, "7"%string)];
                         song_info_tbl :=
                           [("Artist"%string, "Album"%string, "Title"%string, "7"%string)] |};
                stdout := [];
                lock_defined := false |} in
   recognise_song (fun _ => Ok [(42, Z2F 1, "q"%string)]) "clip.wav" w0
   = (Ok PyNone,
      with_stdout w0 [PyTuple [Some "Artist"; Some "Album"; Some "Title"]]%string)).
Proof.
  split.
  - intros fingerprint_file filename w. unfold recognise_song, bind, lift.
    destruct (fingerprint_file filename) as [hashes | e]; [| exact I].
    destruct (get_matches hashes w) as [[matches | e] w1]; [| exact I].
    destruct (best_match matches) as [matched_song | e]; [| exact I].
    destruct (get_info_for_song_id matched_song w1) as [[[[[a b] c] |] | e] w2];
      try exact I.
    now destruct matched_song.
  - vm_compute. reflexivity.
Qed.

(** The times of the peaks that [fingerprint_file] hashes are entries of the
    spectrogram's time axis. *)
Lemma idxs_to_tf_pairs_times (t f : list float) : forall idxs pts,
  idxs_to_tf_pairs idxs t f = Ok pts -> Forall (fun p => In (snd p) t) pts.
Proof.
  induction idxs as [| i rest IH]; intros pts H; simpl in H.
  - injection H as <-. constructor.
  - destruct (nth_error f (fst i)) as [fv |]; [| discriminate].
    destruct (nth_error t (snd i)) as [tv |] eqn:Et; [| discriminate].
    destruct (idxs_to_tf_pairs rest t f) as [pts' |]; simpl in H; [| discriminate].
    injection H as <-. constructor; auto.
    simpl. eapply nth_error_In. exact Et.
Qed.

(** C1.  For a target peak whose time is a finite number, the third
    component of the hashed tuple is [0.0], so the hash is the hash of
    [(p1[0], p2[0], 0.0)] and is the same for any other pair of peaks with
    these two frequencies. *)
Theorem hash_point_pair_ignores_time
    (hash : float * float * float -> Z) (p1 p2 : point) :
  is_finite (snd p2) = true ->
  fsub (snd p2) (snd p2) = S754_zero false /\
  hash_point_pair hash p1 p2 = hash (fst p1, fst p2, S754_zero false) /\
  forall t1 t2, is_finite t2 = true ->
    hash_point_pair hash (fst p1, t1) (fst p2, t2) = hash_point_pair hash p1 p2.
Proof.
  intros H. pose proof (fsub_self (snd p2) H) as E. split; [exact E |].
  unfold hash_point_pair. rewrite E. split; [reflexivity |].
  intros t1 t2 H2. cbn [fst snd]. now rewrite (fsub_self t2 H2).
Qed.

(** C6 (the code at a failing input).  For the single pair
    [(0.0, 0.75)] the delta is [-0.75], [int] truncates it to [0], the bin
    edges are [0, 0.5, 1], no bin holds the delta (the counts add up to 0,
    not to 1) and the score is [0]. *)
Theorem score_match_drops_negative_fraction :
  let offsets := [(Z2F 0, fdiv (Z2F 3) (Z2F 4))] in
  let tks := map (fun x => fsub (fst x) (snd x)) offsets in
  tks = [S754_finite true 6755399441055744 (-53)] /\
  F2Q (S754_finite true 6755399441055744 (-53)) == - (3 # 4) /\
  py_int (S754_finite true 6755399441055744 (-53)) = Ok 0 /\
  np_arange (Z2F 0) (fadd (fadd (Z2F 0) half) (Z2F 1)) half = Ok [Z2F 0; half; Z2F 1] /\
  delta_histogram offsets = Ok [0; 0]%nat /\
  score_match offsets = Ok 0%nat.
Proof.
  vm_compute. repeat split; reflexivity.
Qed.

(** ** Peaks and fingerprints *)

(** [argsort] is a permutation of the indices. *)
Lemma length_insert_idx vals i sorted :
  List.length (insert_idx vals i sorted) = S (List.length sorted).
Proof.
  induction sorted as [| j r IH]; simpl; auto.
  destruct (flt _ _); simpl; auto.
Qed.

Lemma NoDup_insert_idx vals i sorted :
  ~ In i sorted -> NoDup sorted -> NoDup (insert_idx vals i sorted).
Proof.
  induction sorted as [| j r IH]; intros Hi Hs; simpl.
  - repeat constructor. intros [].
  - inversion Hs as [| ? ? Hj Hr]; subst.
    destruct (flt _ _).
    + constructor; auto.
    + constructor.
      * rewrite in_insert_idx. intros [-> | H]; [apply Hi; now left | contradiction].
      * apply IH; auto. intros H. apply Hi. now right.
Qed.

Lemma argsort_fold vals : forall l acc,
  NoDup acc -> NoDup l -> (forall k, In k acc -> ~ In k l) ->
  List.length (fold_left (fun sorted i => insert_idx vals i sorted) l acc)
  = (List.length acc + List.length l)%nat /\
  NoDup (fold_left (fun sorted i => insert_idx vals i sorted) l acc) /\
  forall k, In k (fold_left (fun sorted i => insert_idx vals i sorted) l acc)
            <-> In k acc \/ In k l.
Proof.
  induction l as [| i l IH]; intros acc Hacc Hl Hd; simpl.
  - repeat split; auto; tauto.
  - inversion Hl as [| ? ? Hi Hl']; subst.
    destruct (IH (insert_idx vals i acc)) as (L & N & I); auto.
    + apply NoDup_insert_idx; auto. intros C. apply (Hd i C). now left.
    + intros k Hk C. apply in_insert_idx in Hk as [-> | Hk]; auto.
      apply (Hd k Hk). now right.
    + split; [| split]; auto.
      * rewrite L, length_insert_idx. lia.
      * intros k. rewrite I, in_insert_idx. intuition (subst; auto).
Qed.

Lemma argsort_perm vals :
  List.length (argsort vals) = List.length vals /\
  NoDup (argsort vals) /\
  forall k, In k (argsort vals) <-> (k < List.length vals)%nat.
Proof.
  unfold argsort.
  destruct (argsort_fold vals (seq 0 (List.length vals)) []) as (L & N & I).
  - constructor.
  - apply seq_NoDup.
  - intros k [].
  - split; [| split]; auto.
    + rewrite L, length_seq. reflexivity.
    + intros k. rewrite I, in_seq. simpl. intuition lia.
Qed.

Lemma NoDup_flat_map_indexed_from {A B} (g : nat -> A -> list B) (tag : B -> nat)
    (l : list A) : forall s,
  (forall y a b, In b (g y a) -> tag b = y) ->
  (forall y a, NoDup (g y a)) ->
  NoDup (flat_map (fun ya => g (fst ya) (snd ya)) (combine (seq s (List.length l)) l)) /\
  forall b, In b (flat_map (fun ya => g (fst ya) (snd ya)) (combine (seq s (List.length l)) l)) ->
            (s <= tag b)%nat.
Proof.
  induction l as [| a l IH]; intros s Ht Hn; simpl.
  - split; [constructor | intros b []].
  - destruct (IH (S s) Ht Hn) as [N Hlo]. split.
    + apply NoDup_app; auto.
      intros b Hb Hb'. apply Ht in Hb. apply Hlo in Hb'. lia.
    + intros b Hb. apply in_app_or in Hb as [Hb | Hb].
      * apply Ht in Hb. lia.
      * apply Hlo in Hb. lia.
Qed.

Lemma NoDup_peak_coords Sxx dm : NoDup (peak_coords Sxx dm).
Proof.
  unfold peak_coords, indexed.
  apply (NoDup_flat_map_indexed_from
           (fun y (row : list float) =>
              flat_map (fun xv => if feq (snd xv) (cell dm (Z.of_nat y) (Z.of_nat (fst xv)))
                                  then [(y, fst xv)] else [])
                       (combine (seq 0 (List.length row)) row))
           fst Sxx 0).
  - intros y row b Hb. apply in_flat_map in Hb as (xv & _ & Hb).
    destruct (feq _ _); [| destruct Hb]. destruct Hb as [<- | []]. reflexivity.
  - intros y row.
    apply (NoDup_flat_map_indexed_from
             (fun x (v : float) => if feq v (cell dm (Z.of_nat y) (Z.of_nat x))
                                   then [(y, x)] else [])
             snd row 0).
    + intros x v b Hb. destruct (feq _ _); [| destruct Hb]. destruct Hb as [<- | []]. reflexivity.
    + intros x v. destruct (feq _ _); repeat constructor. intros [].
Qed.

Lemma NoDup_firstn {A} (l : list A) : forall n, NoDup l -> NoDup (firstn n l).
Proof.
  induction l as [| a l IH]; intros [| n] H; simpl; try constructor.
  - inversion H; subst. intros C. apply in_firstn in C. contradiction.
  - inversion H; subst. auto.
Qed.

Lemma NoDup_map_nth {A} (l : list A) (d : A) (idxs : list nat) :
  NoDup l -> NoDup idxs -> (forall i, In i idxs -> (i < List.length l)%nat) ->
  NoDup (map (fun i => nth i l d) idxs).
Proof.
  intros Hl. induction idxs as [| i idxs IH]; intros Hn Hb; simpl; [constructor |].
  inversion Hn as [| ? ? Hi Hn']; subst. constructor.
  - intros C. apply in_map_iff in C as (j & E & Hj).
    rewrite (NoDup_nth l d) in Hl. apply Hi.
    assert (i = j) as ->; [| exact Hj].
    apply Hl; [apply Hb; simpl; auto | apply Hb; simpl; auto | now symmetry].
  - apply IH; auto. intros; apply Hb; simpl; auto.
Qed.

Lemma find_peaks_ranked Sxx :
  find_peaks Sxx
  = (let? n := peak_target (Z.of_nat (List.length Sxx) * Z.of_nat (List.length (hd [] Sxx))) in
     Ok (py_slice_to n (ranked Sxx))).
Proof. reflexivity. Qed.

Lemma ranked_perm Sxx :
  List.length (ranked Sxx) = List.length (local_maxima Sxx) /\
  NoDup (ranked Sxx) /\
  forall p, In p (ranked Sxx) <-> In p (local_maxima Sxx).
Proof.
  unfold ranked.
  destruct (argsort_perm (map (value Sxx) (local_maxima Sxx))) as (L & N & I).
  rewrite length_map in L, I.
  split; [| split].
  - now rewrite length_map, length_rev.
  - apply NoDup_map_nth.
    + apply NoDup_peak_coords.
    + now apply NoDup_rev.
    + intros i Hi. apply in_rev in Hi. now apply I.
  - intros p. rewrite in_map_iff. split.
    + intros (i & <- & Hi). apply nth_In. apply I. now apply in_rev.
    + intros Hp. destruct (In_nth _ _ (0%nat, 0%nat) Hp) as (i & Hi & E).
      exists i. split; auto. apply in_rev. rewrite rev_involutive. now apply I.
Qed.

(** X1.  [find_peaks] returns as many peaks as the budget allows: the
    smaller of the budget [n] and the number of cells that equal their
    filtered value. *)
Theorem find_peaks_count (Sxx : matrix) (n : Z) :
  peak_target (Z.of_nat (List.length Sxx) * Z.of_nat (List.length (hd [] Sxx))) = Ok n ->
  exists peaks,
    find_peaks Sxx = Ok peaks /\
    Z.of_nat (List.length peaks) = Z.min n (Z.of_nat (List.length (local_maxima Sxx))).
Proof.
  intros HT. rewrite find_peaks_ranked, HT. cbn [rbind].
  eexists. split; [reflexivity |].
  assert (Hn : 0 <= n) by (eapply peak_target_nonneg; [| exact HT]; lia).
  unfold py_slice_to. replace (n <? 0) with false by (symmetry; apply Z.ltb_ge; lia).
  rewrite length_firstn. destruct (ranked_perm Sxx) as (L & _ & _). rewrite L. lia.
Qed.

(** X2.  The peaks [find_peaks] returns are pairwise distinct coordinates
    of cells of [Sxx], each equal to the maximum over its 30 by 30
    neighbourhood. *)
Theorem find_peaks_distinct_local_maxima (Sxx : matrix) (n : Z) :
  peak_target (Z.of_nat (List.length Sxx) * Z.of_nat (List.length (hd [] Sxx))) = Ok n ->
  exists peaks,
    find_peaks Sxx = Ok peaks /\
    NoDup peaks /\
    forall y x, In (y, x) peaks ->
      exists row v,
        nth_error Sxx y = Some row /\ nth_error row x = Some v /\
        feq v (data_max_at Sxx PEAK_BOX_SIZE (Z.of_nat y) (Z.of_nat x)) = true.
Proof.
  intros HT. rewrite find_peaks_ranked, HT. cbn [rbind].
  eexists. split; [reflexivity |].
  destruct (py_slice_to_firstn (ranked Sxx) n) as [k ->].
  destruct (ranked_perm Sxx) as (_ & N & I).
  split; [now apply NoDup_firstn |].
  intros y x Hin. apply in_firstn in Hin. apply I in Hin.
  apply in_peak_coords in Hin as (row & v & Hy & Hx & E).
  rewrite (cell_maximum_filter Sxx _ y x row v Hy Hx) in E. eauto.
Qed.

Lemma StronglySorted_firstn_skipn {A} (R : A -> A -> Prop) (l : list A) : forall n a b,
  StronglySorted R l -> In a (firstn n l) -> In b (skipn n l) -> R a b.
Proof.
  induction l as [| x l IH]; intros [| n] a b H Ha Hb; simpl in *; try contradiction.
  inversion H as [| ? ? S F]; subst. destruct Ha as [<- | Ha].
  - rewrite Forall_forall in F. apply F.
    rewrite <- (firstn_skipn n l). apply in_or_app. now right.
  - eapply IH; eauto.
Qed.

(** X3.  On a matrix of finite values, a cell that equals its filtered
    value and that [find_peaks] leaves out is not higher than any peak it
    returns. *)
Theorem find_peaks_keeps_highest (Sxx : matrix) (n : Z) :
  forallb (forallb is_finite) Sxx = true ->
  peak_target (Z.of_nat (List.length Sxx) * Z.of_nat (List.length (hd [] Sxx))) = Ok n ->
  exists peaks,
    find_peaks Sxx = Ok peaks /\
    forall p q, In p peaks -> In q (local_maxima Sxx) -> ~ In q peaks ->
      fle (value Sxx q) (value Sxx p) = true.
Proof.
  intros HFb HT. pose proof (finite_matrix_forallb Sxx HFb) as HF.
  rewrite find_peaks_ranked, HT. cbn [rbind].
  eexists. split; [reflexivity |].
  destruct (py_slice_to_firstn (ranked Sxx) n) as [k ->].
  intros p q Hp Hq Hnq.
  destruct (ranked_perm Sxx) as (_ & _ & I). apply I in Hq.
  rewrite <- (firstn_skipn k (ranked Sxx)) in Hq. apply in_app_or in Hq as [Hq | Hq];
    [contradiction |].
  apply (StronglySorted_firstn_skipn
           (fun p q => fle (value Sxx q) (value Sxx p) = true) (ranked Sxx) k p q); auto.
  apply (ranked_peaks_sorted Sxx (local_maxima Sxx) HF).
Qed.

Lemma idxs_to_tf_pairs_ok (idxs : list (nat * nat)) (t f : list float) :
  forallb (in_range t f) idxs = true ->
  idxs_to_tf_pairs idxs t f
  = Ok (map (fun i => (nth (fst i) f S754_nan, nth (snd i) t S754_nan)) idxs).
Proof.
  induction idxs as [| i rest IH]; simpl; auto.
  intros H. apply andb_true_iff in H as [Hi Hrest].
  apply andb_true_iff in Hi as [Hf Ht]. apply Nat.ltb_lt in Hf, Ht.
  destruct (nth_error f (fst i)) as [fv |] eqn:Ef;
    [| apply nth_error_None in Ef; lia].
  destruct (nth_error t (snd i)) as [tv |] eqn:Et;
    [| apply nth_error_None in Et; lia].
  rewrite (IH Hrest). cbn [rbind].
  now rewrite (nth_error_nth _ _ _ Ef), (nth_error_nth _ _ _ Et).
Qed.

(** X4.  [idxs_to_tf_pairs] resolves the index pairs [(i0, i1)] to
    [(f[i0], t[i1])], in order, when every index is in range, and raises
    [IndexError] otherwise. *)
Theorem idxs_to_tf_pairs_spec (idxs : list (nat * nat)) (t f : list float) :
  idxs_to_tf_pairs idxs t f
  = if forallb (in_range t f) idxs
    then Ok (map (fun i => (nth (fst i) f S754_nan, nth (snd i) t S754_nan)) idxs)
    else Raise IndexError.
Proof.
  induction idxs as [| i rest IH]; simpl; auto.
  unfold in_range at 1.
  destruct (nth_error f (fst i)) as [fv |] eqn:Ef.
  - assert (Lf : (fst i < List.length f)%nat) by (apply nth_error_Some; congruence).
    apply Nat.ltb_lt in Lf as Lf'. rewrite Lf'. simpl.
    destruct (nth_error t (snd i)) as [tv |] eqn:Et.
    + assert (Lt : (snd i < List.length t)%nat) by (apply nth_error_Some; congruence).
      apply Nat.ltb_lt in Lt as Lt'. rewrite Lt'. simpl. rewrite IH.
      destruct (forallb (in_range t f) rest); simpl; auto.
      now rewrite (nth_error_nth _ _ _ Ef), (nth_error_nth _ _ _ Et).
    + apply nth_error_None in Et. apply Nat.ltb_ge in Et. now rewrite Et.
  - apply nth_error_None in Ef. apply Nat.ltb_ge in Ef. now rewrite Ef.
Qed.

Lemma find_peaks_in Sxx peaks p :
  find_peaks Sxx = Ok peaks -> In p peaks -> In p (local_maxima Sxx).
Proof.
  rewrite find_peaks_ranked. intros H Hp.
  destruct (peak_target _) as [n |]; [| discriminate]. cbn [rbind] in H.
  injection H as <-. destruct (py_slice_to_firstn (ranked Sxx) n) as [k E].
  rewrite E in Hp. apply in_firstn in Hp. now apply (ranked_perm Sxx).
Qed.

(** X5.  When the spectrogram has one row per frequency and one column per
    time, [fingerprint_file] does not raise: it returns [hash_points] of the
    peaks of [find_peaks], resolved to [(frequency, time)] values. *)
Theorem fingerprint_file_well_shaped
    (hash : float * float * float -> Z) (uuid5_oid_int : string -> Z)
    (file_to_spectrogram : string -> result (list float * list float * matrix))
    (filename : string) (f t : list float) (Sxx : matrix) (n : Z) :
  file_to_spectrogram filename = Ok (f, t, Sxx) ->
  List.length f = List.length Sxx ->
  forallb (fun row => Nat.eqb (List.length row) (List.length t)) Sxx = true ->
  peak_target (Z.of_nat (List.length Sxx) * Z.of_nat (List.length (hd [] Sxx))) = Ok n ->
  exists peaks,
    find_peaks Sxx = Ok peaks /\
    fingerprint_file hash uuid5_oid_int file_to_spectrogram filename
    = Ok (hash_points hash uuid5_oid_int
            (map (fun i => (nth (fst i) f S754_nan, nth (snd i) t S754_nan)) peaks)
            filename).
Proof.
  intros Hs Hf Ht HT.
  assert (Hp : exists peaks, find_peaks Sxx = Ok peaks).
  { rewrite find_peaks_ranked, HT. cbn [rbind]. eauto. }
  destruct Hp as [peaks Hp]. exists peaks. split; auto.
  unfold fingerprint_file. rewrite Hs. cbn [rbind]. rewrite Hp. cbn [rbind].
  rewrite idxs_to_tf_pairs_ok; [reflexivity |].
  apply forallb_forall. intros [y x] Hin.
  apply (find_peaks_in Sxx peaks (y, x) Hp) in Hin.
  apply in_peak_coords in Hin as (row & v & Hy & Hx & _).
  unfold in_range. cbn [fst snd]. apply andb_true_iff. split; apply Nat.ltb_lt.
  - rewrite Hf. apply nth_error_Some. congruence.
  - rewrite forallb_forall in Ht. apply nth_error_In in Hy as Hrow.
    specialize (Ht row Hrow). apply Nat.eqb_eq in Ht. rewrite <- Ht.
    apply nth_error_Some. congruence.
Qed.

Lemma length_flat_map_le {A B} (g : A -> list B) (b : nat) (l : list A) :
  (forall a, (List.length (g a) <= b)%nat) ->
  (List.length (flat_map g l) <= List.length l * b)%nat.
Proof.
  intros H. induction l as [| a l IH]; simpl; auto.
  rewrite length_app. specialize (H a). lia.
Qed.

Lemma flt_false_iff x y : is_finite x = true -> is_finite y = true ->
  flt x y = false <-> (F2Q y <= F2Q x)%Q.
Proof.
  intros Hx Hy. split.
  - intros H. apply fle_spec; auto. now apply flt_false_fle.
  - intros H. destruct (flt x y) eqn:E; auto.
    apply flt_spec in E; auto. exfalso. apply (Qlt_not_le _ _ E H).
Qed.

(** X6.  When the bounds of the box and the coordinates of a point are
    finite, [target_zone] yields the point exactly when it is one of
    [points] and lies in the box, bounds included. *)
Theorem target_zone_box (anchor : point) (points : list point) (width : float)
    (height : Z) (t : float) (x_min x_max y_min y_max : float) (p : point) :
  zone_bounds anchor width height t = (x_min, x_max, y_min, y_max) ->
  forallb is_finite [x_min; x_max; y_min; y_max; fst p; snd p] = true ->
  In p (target_zone anchor points width height t) <->
  In p points /\
  (F2Q y_min <= F2Q (fst p) <= F2Q y_max)%Q /\
  (F2Q x_min <= F2Q (snd p) <= F2Q x_max)%Q.
Proof.
  intros HB HF. unfold zone_bounds in HB. injection HB as <- <- <- <-.
  cbn [forallb] in HF. rewrite !andb_true_iff in HF.
  destruct HF as (F1 & F2 & F3 & F4 & F5 & F6 & _).
  unfold target_zone. rewrite filter_In.
  rewrite <- (flt_false_iff (fst p) _ F5 F3), <- (flt_false_iff _ (fst p) F4 F5).
  rewrite <- (flt_false_iff (snd p) _ F6 F1), <- (flt_false_iff _ (snd p) F2 F6).
  destruct (flt (fst p) _), (flt _ (fst p)), (flt (snd p) _), (flt _ (snd p));
    cbn [orb]; intuition congruence.
Qed.

(** X7.  [hash_points] pairs points of its input only: every record is made
    of an anchor and a target of [points], carries the time of the anchor and
    the id of the file; there are at most [len(points)] records per anchor. *)
Theorem hash_points_pairs
    (hash : float * float * float -> Z) (uuid5_oid_int : string -> Z)
    (points : list point) (filename : string) :
  (List.length (hash_points hash uuid5_oid_int points filename)
   <= List.length points * List.length points)%nat /\
  forall r, In r (hash_points hash uuid5_oid_int points filename) ->
    exists anchor target,
      In anchor points /\ In target points /\
      r = (hash_point_pair hash anchor target, snd anchor, str (uuid5_oid_int filename)).
Proof.
  unfold hash_points. split.
  - apply length_flat_map_le.
    intros anchor. rewrite length_map. unfold target_zone. apply filter_length_le.
  - intros r Hr. apply in_flat_map in Hr as (anchor & Ha & Hr).
    apply in_map_iff in Hr as (target & <- & Ht).
    unfold target_zone in Ht. apply filter_In in Ht as [Ht _].
    exists anchor, target. auto.
Qed.

(** ** Scores and the best match *)

Lemma finite_deltas_list offsets :
  finite_deltas offsets = true ->
  exists d tks, deltas offsets = d :: tks /\ Forall finite (d :: tks).
Proof.
  intros HS. destruct offsets as [| o rest]; [discriminate |].
  exists (fsub (fst o) (snd o)), (deltas rest). split; [reflexivity |].
  change (Forall finite (deltas (o :: rest))).
  apply Forall_forall. intros v Hv. apply in_map_iff in Hv as (x & <- & Hx).
  unfold finite_deltas in HS. rewrite forallb_forall in HS. now apply HS.
Qed.

Lemma filter_ext_in' {A} (p q : A -> bool) (l : list A) :
  (forall x, In x l -> p x = q x) -> filter p l = filter q l.
Proof.
  induction l as [| a l IH]; intros H; simpl; auto.
  rewrite (H a (or_introl eq_refl)), IH; auto. intros; apply H; now right.
Qed.

(** The counts of the histogram add up to the number of deltas that are not
    below [int(min(tks))]. *)
Lemma delta_histogram_exact_counts offsets :
  finite_deltas offsets = true ->
  exists lo start hist,
    py_min (deltas offsets) = Ok lo /\ py_int lo = Ok start /\
    delta_histogram_exact offsets = Ok hist /\
    list_sum hist
    = List.length (filter (fun v => Qle_bool (inject_Z start) (F2Q v)) (deltas offsets)).
Proof.
  intros HS. destruct (finite_deltas_list offsets HS) as (d & tks & Etks & HT).
  unfold delta_histogram_exact. fold (deltas offsets). rewrite Etks.
  inversion HT as [| ? ? Hd Htks]; subst.
  destruct (fold_min_spec tks d Hd Htks) as [Imin Lmin].
  destruct (fold_max_spec tks d Hd Htks) as [Imax Lmax].
  pose proof (fold_max_ge tks d Hd Htks) as Amax.
  rewrite Forall_forall in HT.
  cbn [py_min py_max rbind].
  set (lo := fold_left (fun best item => if flt item best then item else best) tks d) in *.
  set (hi := fold_left (fun best item => if flt best item then item else best) tks d) in *.
  rewrite (py_int_finite _ (HT _ Imin)). cbn [rbind].
  rewrite (py_int_finite _ (HT _ Imax)). cbn [rbind].
  rewrite arange_exact_edges.
  exists lo, (Qtrunc (F2Q lo)). eexists.
  split; [reflexivity |]. split; [apply py_int_finite, HT, Imin |]. split; [reflexivity |].
  set (a := Qtrunc (F2Q lo)). set (b := Qtrunc (F2Q hi)).
  assert (Hab : a <= b)
    by (unfold a, b; apply Qtrunc_mono; apply Qle_trans with (F2Q d); assumption).
  pose proof (Qtrunc_upper (F2Q hi)) as U. fold b in U.
  clearbody a b lo hi.
  replace (Z.to_nat (2 * (b - a) + 3)) with (S (S (Z.to_nat (2 * (b - a) + 1)))) by lia.
  change (fun i : nat => (inject_Z a + inject_Z (Z.of_nat i) * (1 # 2))%Q) with (edge a).
  rewrite hist_sum. f_equal. apply filter_ext_in'.
  intros v Hv. unfold in_bin_exact. rewrite (HT v Hv). cbn [andb].
  assert (E0 : (edge a 0 == inject_Z a)%Q)
    by (unfold edge; change (inject_Z (Z.of_nat 0)) with 0%Q; ring).
  assert (E : (edge a (0 + S (Z.to_nat (2 * (b - a) + 1))) == inject_Z (b + 1))%Q).
  { unfold edge. cbn [Nat.add]. rewrite Nat2Z.inj_succ, Z2Nat.id by lia.
    unfold Z.succ, Z.sub. rewrite !inject_Z_plus, inject_Z_mult, inject_Z_plus, inject_Z_opp.
    field. }
  specialize (Amax v Hv).
  assert (Hhi : Qle_bool (F2Q v) (edge a (0 + S (Z.to_nat (2 * (b - a) + 1)))) = true)
    by (apply Qle_bool_iff; rewrite E; lra).
  rewrite Hhi, andb_true_r.
  destruct (Qle_bool (inject_Z a) (F2Q v)) eqn:C.
  - apply Qle_bool_iff. apply Qle_bool_iff in C. rewrite E0. exact C.
  - destruct (Qle_bool (edge a 0) (F2Q v)) eqn:C'; auto.
    apply Qle_bool_iff in C'. rewrite E0 in C'. apply Qle_bool_iff in C'. congruence.
Qed.

Lemma Qtrunc_le_nonneg (q : Q) : (0 <= q)%Q -> (inject_Z (Qtrunc q) <= q)%Q.
Proof.
  destruct q as [n d]. unfold Qle, Qtrunc. simpl. intros H.
  rewrite Z.mul_1_r in *. rewrite Z.quot_div_nonneg by lia.
  rewrite Z.mul_comm. apply Z.mul_div_le. lia.
Qed.

Lemma Qtrunc_nonpos (q : Q) : (q <= 0)%Q -> Qtrunc q <= 0.
Proof. intros H. apply (Qtrunc_mono q 0 H). Qed.

Lemma Qtrunc_below_nonneg (q v : Q) : (q <= v)%Q -> (0 <= v)%Q -> (inject_Z (Qtrunc q) <= v)%Q.
Proof.
  intros Hq Hv. destruct (Qlt_le_dec q 0) as [L | L].
  - assert (Qtrunc q <= 0) by (apply Qtrunc_nonpos; lra).
    assert (inject_Z (Qtrunc q) <= inject_Z 0)%Q by (rewrite <- Zle_Qle; lia).
    change (inject_Z 0) with 0%Q in *. lra.
  - pose proof (Qtrunc_le_nonneg q L). lra.
Qed.

Lemma py_min_le l lo :
  Forall finite l -> py_min l = Ok lo -> forall v, In v l -> (F2Q lo <= F2Q v)%Q.
Proof.
  destruct l as [| d tks]; simpl; intros HF H; [discriminate |].
  injection H as <-. inversion HF; subst. now apply fold_min_le.
Qed.

Lemma fold_max_nat_ge (l : list nat) : forall init x,
  In x (init :: l) -> (x <= fold_left Nat.max l init)%nat.
Proof.
  induction l as [| a l IH]; intros init x Hx; simpl.
  - destruct Hx as [<- | []]. lia.
  - destruct Hx as [<- | [<- | Hx]].
    + etransitivity; [| apply IH; now left]. lia.
    + etransitivity; [| apply IH; now left]. lia.
    + apply IH. now right.
Qed.

Lemma list_sum_zero (l : list nat) : (forall x, In x l -> x = 0%nat) -> list_sum l = 0%nat.
Proof.
  induction l as [| a l IH]; intros H; simpl; auto.
  rewrite (H a (or_introl eq_refl)), IH; auto. intros; apply H; now right.
Qed.

Lemma np_max_pos hist :
  (1 <= list_sum hist)%nat -> exists s, np_max hist = Ok s /\ (1 <= s)%nat.
Proof.
  intros H. destruct hist as [| h rest]; [simpl in H; lia |].
  simpl. eexists. split; [reflexivity |].
  destruct (Nat.eq_dec (fold_left Nat.max rest h) 0) as [E | E]; [| lia].
  exfalso. rewrite list_sum_zero in H; [lia |].
  intros x Hx. pose proof (fold_max_nat_ge rest h x Hx). lia.
Qed.

Lemma score_exact_positive (offsets : list (float * float)) :
  finite_deltas offsets = true ->
  existsb (fun x => fle (S754_zero false) (fsub (fst x) (snd x))) offsets = true ->
  exists s, score_exact offsets = Ok s /\ (1 <= s)%nat.
Proof.
  intros HS HE.
  destruct (delta_histogram_exact_counts offsets HS) as (lo & start & hist & Hlo & Hst & Hh & Hsum).
  destruct (finite_deltas_list offsets HS) as (d & tks & Etks & HT).
  rewrite score_exact_delta_histogram, Hh. cbn [rbind].
  apply np_max_pos. rewrite Hsum.
  apply existsb_exists in HE as (x & Hx & Hv).
  assert (Hin : In (fsub (fst x) (snd x)) (deltas offsets)) 
    by (unfold deltas; apply (in_map (fun y => fsub (fst y) (snd y))); exact Hx).
  assert (Fv : finite (fsub (fst x) (snd x))).
  { rewrite Etks in Hin. rewrite Forall_forall in HT. now apply HT. }
  apply fle_spec in Hv; auto. change (F2Q (S754_zero false)) with 0%Q in Hv.
  assert (Flo : finite lo).
  { rewrite Etks in Hlo. cbn [py_min] in Hlo. injection Hlo as <-.
    inversion HT as [| ? ? Hd Htks]; subst.
    destruct (fold_min_spec tks d Hd Htks) as [I _].
    rewrite Forall_forall in HT. now apply HT. }
  rewrite (py_int_finite lo Flo) in Hst. injection Hst as <-.
  assert (Hle : (F2Q lo <= F2Q (fsub (fst x) (snd x)))%Q).
  { apply (py_min_le (deltas offsets) lo); auto. now rewrite Etks. }
  assert (Hc : In (fsub (fst x) (snd x))
                 (filter (fun v => Qle_bool (inject_Z (Qtrunc (F2Q lo))) (F2Q v))
                         (deltas offsets))).
  { apply filter_In. split; auto. apply Qle_bool_iff. now apply Qtrunc_below_nonneg. }
  destruct (filter _ (deltas offsets)); [destruct Hc | simpl; lia].
Qed.

Lemma histogram_exact_uniform (tks : list float) (d : float) :
  (forall v, In v tks -> v = d) ->
  forall edges c, In c (histogram_exact tks edges) -> c = 0%nat \/ c = List.length tks.
Proof.
  intros Hu.
  assert (Hf : forall p : float -> bool,
             List.length (filter p tks) = 0%nat \/ List.length (filter p tks) = List.length tks).
  { intros p. destruct (p d) eqn:E.
    - right. f_equal. apply filter_all. intros v Hv. now rewrite (Hu v Hv).
    - left. replace (filter p tks) with (@nil float); [reflexivity |].
      symmetry. clear - Hu E. induction tks as [| a l IH]; simpl; auto.
      rewrite (Hu a (or_introl eq_refl)), E. apply IH. intros; apply Hu; now right. }
  induction edges as [| lo [| hi rest] IH]; simpl; intros c Hc; try contradiction.
  destruct Hc as [<- | Hc]; auto.
Qed.

Lemma score_exact_identical_deltas (offsets : list (float * float)) (d : float) :
  offsets <> [] ->
  Forall (fun x => fsub (fst x) (snd x) = d) offsets ->
  is_finite d = true ->
  fle (S754_zero false) d = true ->
  score_exact offsets = Ok (List.length offsets).
Proof.
  intros Hne Hall Hd Hpos. rewrite Forall_forall in Hall.
  assert (HS : finite_deltas offsets = true).
  { destruct offsets as [| o rest]; [congruence |]. unfold finite_deltas.
    apply forallb_forall. intros x Hx. now rewrite (Hall x Hx). }
  assert (Hu : forall v, In v (deltas offsets) -> v = d).
  { intros v Hv. apply in_map_iff in Hv as (x & <- & Hx). now apply Hall. }
  destruct (delta_histogram_exact_counts offsets HS) as (lo & start & hist & Hlo & Hst & Hh & Hsum).
  destruct (finite_deltas_list offsets HS) as (d0 & tks & Etks & HT).
  assert (Elo : lo = d).
  { apply Hu. rewrite Etks in Hlo |- *. cbn [py_min] in Hlo. injection Hlo as <-.
    inversion HT as [| ? ? Hd0 Htks]; subst.
    now destruct (fold_min_spec tks d0 Hd0 Htks) as [I _]. }
  subst lo. rewrite (py_int_finite d Hd) in Hst. injection Hst as <-.
  apply fle_spec in Hpos; auto. change (F2Q (S754_zero false)) with 0%Q in Hpos.
  rewrite filter_all in Hsum.
  2:{ intros v Hv. rewrite (Hu v Hv). apply Qle_bool_iff. now apply Qtrunc_le_nonneg. }
  unfold deltas in Hsum at 1. rewrite length_map in Hsum.
  rewrite score_exact_delta_histogram, Hh. cbn [rbind].
  assert (Hent : forall c, In c hist -> c = 0%nat \/ c = List.length offsets).
  { intros c Hc. unfold delta_histogram_exact in Hh. fold (deltas offsets) in Hh.
    destruct (py_min (deltas offsets)) as [lo' |]; [| discriminate]. cbn [rbind] in Hh.
    destruct (py_int lo') as [a |]; [| discriminate]. cbn [rbind] in Hh.
    destruct (py_max (deltas offsets)) as [hi' |]; [| discriminate]. cbn [rbind] in Hh.
    destruct (py_int hi') as [b |]; [| discriminate]. cbn [rbind] in Hh.
    injection Hh as <-.
    apply (histogram_exact_uniform (deltas offsets) d Hu) in Hc.
    unfold deltas in Hc at 1. now rewrite length_map in Hc. }
  assert (Hlen : (1 <= List.length offsets)%nat)
    by (destruct offsets; [congruence | simpl; lia]).
  destruct hist as [| h rest]; [simpl in Hsum; lia |].
  cbn [np_max]. f_equal. apply Nat.le_antisymm.
  - apply fold_max_bound.
    + destruct (Hent h (or_introl eq_refl)); lia.
    + apply Forall_forall. intros c Hc. destruct (Hent c (or_intror Hc)); lia.
  - destruct (Nat.eq_dec (list_sum (h :: rest)) 0) as [E | E]; [lia |].
    assert (Hex : exists c, In c (h :: rest) /\ c = List.length offsets).
    { destruct (List.Exists_dec (fun c => c = List.length offsets) (h :: rest)) as [X | X].
      - intros c. apply Nat.eq_dec.
      - apply Exists_exists in X. exact X.
      - exfalso. apply E. apply list_sum_zero. intros c Hc.
        destruct (Hent c Hc) as [-> | ->]; auto.
        exfalso. apply X. apply Exists_exists. eauto. }
    destruct Hex as (c & Hc & ->). now apply fold_max_nat_ge.
Qed.

Lemma score_exact_bins_every_nonneg_delta (offsets : list (float * float)) :
  finite_deltas offsets = true ->
  forallb (fun x => fle (S754_zero false) (fsub (fst x) (snd x))) offsets = true ->
  exists hist,
    delta_histogram_exact offsets = Ok hist /\
    score_exact offsets = np_max hist /\
    list_sum hist = List.length offsets.
Proof.
  intros HS HA.
  destruct (delta_histogram_exact_counts offsets HS) as (lo & start & hist & Hlo & Hst & Hh & Hsum).
  destruct (finite_deltas_list offsets HS) as (d & tks & Etks & HT).
  exists hist. split; [exact Hh |]. split.
  - rewrite score_exact_delta_histogram, Hh. reflexivity.
  - assert (Flo : finite lo).
    { rewrite Etks in Hlo. cbn [py_min] in Hlo. injection Hlo as <-.
      inversion HT as [| ? ? Hd Htks]; subst.
      destruct (fold_min_spec tks d Hd Htks) as [I _].
      rewrite Forall_forall in HT. now apply HT. }
    rewrite (py_int_finite lo Flo) in Hst. injection Hst as <-.
    rewrite Hsum, filter_all; [unfold deltas; apply length_map |].
    intros v Hv. apply Qle_bool_iff.
    assert (Fv : finite v) by (rewrite Etks in Hv; rewrite Forall_forall in HT; now apply HT).
    apply Qtrunc_below_nonneg.
    + apply (py_min_le (deltas offsets) lo); auto. now rewrite Etks.
    + apply in_map_iff in Hv as (x & <- & Hx). rewrite forallb_forall in HA.
      specialize (HA x Hx). apply fle_spec in HA; auto.
Qed.

(** A list with a delta that is not negative has a positive score. *)
Lemma score_positive_of_nonneg_delta (offsets : list (float * float)) :
  scoreable offsets = true ->
  existsb (fun x => fle (S754_zero false) (fsub (fst x) (snd x))) offsets = true ->
  exists s, score_match offsets = Ok s /\ (1 <= s)%nat.
Proof.
  intros HS HE. rewrite (score_match_exact offsets HS).
  apply score_exact_positive; auto. now apply scoreable_finite_deltas.
Qed.

(** X8.  When all pairs have the same moderate delta, and it is not
    negative, [score_match] is the number of pairs. *)
Theorem score_match_identical_deltas (offsets : list (float * float)) (d : float) :
  offsets <> [] ->
  Forall (fun x => fsub (fst x) (snd x) = d) offsets ->
  moderate d = true ->
  fle (S754_zero false) d = true ->
  score_match offsets = Ok (List.length offsets).
Proof.
  intros Hne Hall Hd Hpos.
  assert (HS : scoreable offsets = true).
  { destruct offsets as [| o rest]; [congruence |]. unfold scoreable.
    apply forallb_forall. intros x Hx. rewrite Forall_forall in Hall.
    now rewrite (Hall x Hx). }
  rewrite (score_match_exact offsets HS).
  apply (score_exact_identical_deltas offsets d); auto.
  now apply moderate_spec.
Qed.

(** X9.  When the deltas are moderate and none is negative, every pair is
    counted in a bin of the histogram of which [score_match] is the
    maximum. *)
Theorem score_match_bins_every_nonneg_delta (offsets : list (float * float)) :
  scoreable offsets = true ->
  forallb (fun x => fle (S754_zero false) (fsub (fst x) (snd x))) offsets = true ->
  exists hist,
    delta_histogram offsets = Ok hist /\
    score_match offsets = np_max hist /\
    list_sum hist = List.length offsets.
Proof.
  intros HS HA.
  rewrite (delta_histogram_exact_eq offsets HS), (score_match_exact offsets HS).
  apply score_exact_bins_every_nonneg_delta; auto. now apply scoreable_finite_deltas.
Qed.

Lemma best_match_loop_spec items : forall matched_song best_score r,
  best_match_loop items matched_song best_score = Ok r ->
  (r = matched_song /\ scores_below items (S best_score)) \/
  (exists pre song_id offsets post sc,
     items = pre ++ (song_id, offsets) :: post /\ r = Some song_id /\
     score_match offsets = Ok sc /\ (best_score < sc)%nat /\
     scores_below pre sc /\ scores_below post (S sc)).
Proof.
  induction items as [| [sid offs] rest IH]; intros ms bs r H; simpl in H.
  - left. injection H as <-. split; auto. intros ? ? ? [].
  - destruct (List.length offs <? bs)%nat eqn:L.
    + apply Nat.ltb_lt in L.
      assert (Hhead : forall sc, score_match offs = Ok sc -> (sc < bs)%nat).
      { intros sc Hsc. apply score_match_le_len in Hsc. lia. }
      destruct (IH ms bs r H) as [[-> Hb] | (pre & s & o & post & sc & -> & -> & Hs & Hlt & Hpre & Hpost)].
      * left. split; auto. intros s o sc [E | Hin] Hsc.
        -- inversion E; subst. specialize (Hhead sc Hsc). lia.
        -- eapply Hb; eauto.
      * right. exists ((sid, offs) :: pre), s, o, post, sc. repeat split; auto.
        intros s' o' sc' [E | Hin] Hsc'.
        -- inversion E; subst. specialize (Hhead sc' Hsc'). lia.
        -- eapply Hpre; eauto.
    + destruct (score_match offs) as [s |] eqn:Es; cbn [rbind] in H; [| discriminate].
      destruct (bs <? s)%nat eqn:B.
      * apply Nat.ltb_lt in B.
        destruct (IH (Some sid) s r H) as [[-> Hb] | (pre & s' & o & post & sc & -> & -> & Hs & Hlt & Hpre & Hpost)].
        -- right. exists [], sid, offs, rest, s. repeat split; auto. intros ? ? ? [].
        -- right. exists ((sid, offs) :: pre), s', o, post, sc. repeat split; auto; [lia |].
           intros s'' o'' sc'' [E | Hin] Hsc''.
           ++ inversion E; subst. rewrite Es in Hsc''. injection Hsc'' as <-. lia.
           ++ eapply Hpre; eauto.
      * apply Nat.ltb_ge in B.
        destruct (IH ms bs r H) as [[-> Hb] | (pre & s' & o & post & sc & -> & -> & Hs & Hlt & Hpre & Hpost)].
        -- left. split; auto. intros s'' o'' sc'' [E | Hin] Hsc''.
           ++ inversion E; subst. rewrite Es in Hsc''. injection Hsc'' as <-. lia.
           ++ eapply Hb; eauto.
        -- right. exists ((sid, offs) :: pre), s', o, post, sc. repeat split; auto.
           intros s'' o'' sc'' [E | Hin] Hsc''.
           ++ inversion E; subst. rewrite Es in Hsc''. injection Hsc'' as <-. lia.
           ++ eapply Hpre; eauto.
Qed.

(** X10.  On a MatchSet whose lists can be scored, [best_match] returns
    [None] when no song has a positive score, and otherwise the first song,
    in the order of the MatchSet, whose score is the highest. *)
Theorem best_match_first_maximum (matches : dict string (list (float * float))) :
  forallb (fun kv => scoreable (snd kv)) matches = true ->
  exists r, best_match matches = Ok r /\
    match r with
    | None => scores_below matches 1
    | Some song_id =>
        exists pre offsets post sc,
          matches = pre ++ (song_id, offsets) :: post /\
          score_match offsets = Ok sc /\ (0 < sc)%nat /\
          scores_below pre sc /\ scores_below post (S sc)
    end.
Proof.
  intros H. destruct (best_match_naive_loop_total matches None 0%nat H) as [r Hr].
  apply best_match_loop_refines in Hr. exists r. split; [exact Hr |].
  destruct (best_match_loop_spec matches None 0%nat r Hr)
    as [[-> Hb] | (pre & s & o & post & sc & E & -> & Hs & Hlt & Hpre & Hpost)]; auto.
  exists pre, o, post, sc. auto.
Qed.

(** X11.  When the lists of the MatchSet can be scored and one of them has a
    pair whose delta is not negative, [best_match] returns a song. *)
Theorem best_match_finds_a_song (matches : dict string (list (float * float)))
    (song_id : string) (offsets : list (float * float)) :
  forallb (fun kv => scoreable (snd kv)) matches = true ->
  In (song_id, offsets) matches ->
  existsb (fun x => fle (S754_zero false) (fsub (fst x) (snd x))) offsets = true ->
  exists found, best_match matches = Ok (Some found).
Proof.
  intros H Hin He.
  destruct (best_match_naive_loop_total matches None 0%nat H) as [r Hr].
  apply best_match_loop_refines in Hr.
  assert (HS : scoreable offsets = true).
  { rewrite forallb_forall in H. exact (H (song_id, offsets) Hin). }
  destruct (score_positive_of_nonneg_delta offsets HS He) as (s & Hs & Hpos).
  destruct (best_match_loop_spec matches None 0%nat r Hr)
    as [[-> Hb] | (pre & s' & o & post & sc & E & -> & _)].
  - specialize (Hb song_id offsets s Hin Hs). lia.
  - exists s'. exact Hr.
Qed.

(** ** The database *)

Lemma get_matches_full (hashes : list fingerprint) (w : world) :
  exists m, get_matches hashes w = (Ok m, w) /\
    group_matches
      (fold_left (fun h_dict rec => dict_set Z.eqb h_dict (fst (fst rec)) (snd (fst rec)))
                 hashes [])
      (filter (fun row => existsb (Z.eqb (fst (fst row)))
                            (map (fun h : fingerprint => fst (fst h)) hashes))
              (hash_tbl (db w)))
      [] = Ok m /\
    forall song, offsets_of m song
      = flat_map (pair_of (last_query_offset hashes))
          (filter (fun row => String.eqb (snd row) song) (hash_tbl (db w))).
Proof.
  unfold get_matches, bind, get_db, lift.
  match goal with |- context [group_matches ?h ?r []] =>
    set (h_dict := h); set (results := r) end.
  assert (HD : forall h, dict_get Z.eqb h_dict h = last_query_offset hashes h).
  { intros h. unfold h_dict. rewrite h_dict_get. now destruct (last_query_offset hashes h). }
  destruct (group_matches_spec h_dict results []) as (m & Hm & Hs).
  { intros r Hr. unfold results in Hr. apply filter_In in Hr as [_ Hr].
    rewrite HD. destruct (existsb_last_query_offset_some _ _ Hr) as [t ->]. discriminate. }
  exists m. rewrite Hm. repeat split; auto.
  intros song. rewrite Hs. simpl. unfold results.
  rewrite <- flat_map_filter_query.
  apply flat_map_ext. intros row. unfold pair_of. now rewrite HD.
Qed.

Lemma dict_set_keys (d : dict string (list (float * float))) k v :
  map fst (dict_set String.eqb d k v)
  = if existsb (String.eqb k) (map fst d) then map fst d else map fst d ++ [k].
Proof.
  induction d as [| [k0 v0] r IH]; simpl; auto.
  destruct (String.eqb k k0) eqn:E; simpl; auto.
  rewrite IH. now destruct (existsb (String.eqb k) (map fst r)).
Qed.

Lemma dict_set_values (d : dict string (list (float * float))) k v (P : list (float * float) -> Prop) :
  P v -> Forall (fun kv => P (snd kv)) d ->
  Forall (fun kv => P (snd kv)) (dict_set String.eqb d k v).
Proof.
  intros Hv. induction d as [| [k0 v0] r IH]; intros H; simpl.
  - repeat constructor. exact Hv.
  - inversion H; subst. destruct (String.eqb k k0); constructor; auto.
Qed.

Lemma existsb_eqb_In k (l : list string) : existsb (String.eqb k) l = true <-> In k l.
Proof.
  rewrite existsb_exists. split.
  - intros (x & Hx & E). apply String.eqb_eq in E. now subst.
  - intros H. exists k. split; auto. apply String.eqb_refl.
Qed.

Lemma group_matches_keys h_dict results : forall acc m,
  group_matches h_dict results acc = Ok m ->
  NoDup (map fst acc) -> Forall (fun kv => snd kv <> []) acc ->
  NoDup (map fst m) /\ Forall (fun kv => snd kv <> []) m /\
  forall song, In song (map fst m) <->
    In song (map fst acc) \/ In song (map (fun r : fingerprint => snd r) results).
Proof.
  induction results as [| r rest IH]; intros acc m H Hn Hv; simpl in H.
  - injection H as <-. simpl. repeat split; auto; tauto.
  - destruct (dict_get Z.eqb h_dict (fst (fst r))) as [t |]; [| discriminate].
    apply IH in H.
    + destruct H as (N & V & I). repeat split; auto.
      * intros Hs. apply I in Hs. unfold append_match in Hs. rewrite dict_set_keys in Hs.
        simpl. destruct (existsb (String.eqb (snd r)) (map fst acc)) eqn:E.
        -- tauto.
        -- destruct Hs as [Hs | Hs]; auto. apply in_app_or in Hs as [Hs | [<- | []]]; auto.
      * intros Hs. apply I. unfold append_match. rewrite dict_set_keys. simpl in Hs.
        destruct (existsb (String.eqb (snd r)) (map fst acc)) eqn:E.
        -- apply existsb_eqb_In in E. destruct Hs as [Hs | [<- | Hs]]; auto.
        -- destruct Hs as [Hs | [<- | Hs]]; auto; left; apply in_or_app; simpl; auto.
    + unfold append_match. rewrite dict_set_keys.
      destruct (existsb (String.eqb (snd r)) (map fst acc)) eqn:E; auto.
      apply NoDup_app; auto.
      * repeat constructor. intros [].
      * intros k Hk [<- | []]. apply existsb_eqb_In in Hk. congruence.
    + unfold append_match. apply (dict_set_values _ _ _ (fun l => l <> [])); auto.
      destruct (dict_get String.eqb acc (snd r)) as [l |]; [| discriminate].
      destruct l; discriminate.
Qed.

(** X12.  [get_matches] does not change the state and returns a MatchSet
    with one entry per song id, none with an empty list; its song ids are
    those of the stored rows whose hash is one of the queried hashes. *)
Theorem get_matches_well_formed (hashes : list fingerprint) (w : world) :
  exists m, get_matches hashes w = (Ok m, w) /\
    NoDup (map fst m) /\
    Forall (fun kv => snd kv <> []) m /\
    forall song_id, In song_id (map fst m) <->
      exists row, In row (hash_tbl (db w)) /\ snd row = song_id /\
                  exists q, In q hashes /\ fst (fst q) = fst (fst row).
Proof.
  destruct (get_matches_full hashes w) as (m & Hm & Hg & _).
  exists m. split; auto.
  apply group_matches_keys in Hg; [| constructor | constructor].
  destruct Hg as (N & V & I). repeat split; auto.
  - intros Hs. apply I in Hs as [[] | Hs]. apply in_map_iff in Hs as (row & <- & Hrow).
    apply filter_In in Hrow as [Hrow Hq]. exists row. repeat split; auto.
    apply existsb_exists in Hq as (h & Hh & E). apply in_map_iff in Hh as (q & <- & Hq).
    apply Z.eqb_eq in E. eauto.
  - intros (row & Hrow & <- & q & Hq & E). apply I. right.
    apply in_map. apply filter_In. split; auto.
    apply existsb_exists. exists (fst (fst q)). split.
    + now apply (in_map (fun h : fingerprint => fst (fst h))).
    + apply Z.eqb_eq. now symmetry.
Qed.

(** X13.  [store_song] writes all or nothing.  When it returns, it has
    either done nothing (no hashes) or appended all hashes and one
    [song_info] row made of the three items, [None] replaced by
    ["Unknown"]; when it raises, the state is unchanged, and the error is
    [TypeError] for [None] or the failed binding of a wrong number of
    items.  It prints nothing. *)
Theorem store_song_all_or_nothing (hashes : list fingerprint) (song_info : pyval) (w : world) :
  match store_song hashes song_info w with
  | (Ok v, w') =>
      v = PyNone /\ stdout w' = stdout w /\ lock_defined w' = lock_defined w /\
      (hashes = [] /\ w' = w \/
       exists items,
         py_iter song_info = Ok items /\ List.length items = 3%nat /\
         hash_tbl (db w') = hash_tbl (db w) ++ hashes /\
         song_info_tbl (db w')
         = song_info_tbl (db w)
           ++ [(or_unknown (nth 0 items None), or_unknown (nth 1 items None),
                or_unknown (nth 2 items None), snd (hd (0, S754_nan, EmptyString) hashes))])
  | (Raise e, w') =>
      w' = w /\ hashes <> [] /\
      (e = TypeError /\ song_info = PyNone \/
       e = ProgrammingError /\
       exists items, py_iter song_info = Ok items /\ List.length items <> 3%nat)
  end.
Proof.
  destruct hashes as [| h rest].
  - simpl. auto 6.
  - unfold store_song. cbn [List.length Nat.ltb Nat.leb].
    unfold bind, get_db, lift, commit, ret.
    destruct song_info as [| s | l]; cbn [py_iter].
    + split; auto. split; [discriminate |]. auto.
    + destruct (map (fun c => Some (String c EmptyString)) (list_ascii_of_string s))
        as [| a [| b [| c [| x l']]]] eqn:E; cbn [map bind_song_info];
        try (split; [reflexivity |]; split; [discriminate |]; right; split; [reflexivity |];
             eexists; split; [reflexivity |]; simpl; lia).
      repeat split; auto. right. exists [a; b; c]. repeat split; auto.
    + destruct l as [| a [| b [| c [| x l']]]]; cbn [map bind_song_info];
        try (split; [reflexivity |]; split; [discriminate |]; right; split; [reflexivity |];
             eexists; split; [reflexivity |]; simpl; lia).
      repeat split; auto. right. exists [a; b; c]. repeat split; auto.
Qed.

Lemma find_app {A} (f : A -> bool) (l1 l2 : list A) :
  find f (l1 ++ l2) = match find f l1 with Some a => Some a | None => find f l2 end.
Proof. induction l1 as [| a l IH]; simpl; auto. destruct (f a); auto. Qed.

(** X14.  After [store_song], [get_info_for_song_id] on the id of the first
    hash gives the stored tags, unless an older row with this id is in the
    table: then the older row is found. *)
Theorem store_then_get_info (h : fingerprint) (hashes : list fingerprint)
    (a b c : option string) (w : world) :
  exists w',
    store_song (h :: hashes) (PyTuple [a; b; c]) w = (Ok PyNone, w') /\
    get_info_for_song_id (Some (snd h)) w'
    = (Ok (match fst (get_info_for_song_id (Some (snd h)) w) with
           | Ok (Some old) => Some old
           | _ => Some (or_unknown a, or_unknown b, or_unknown c)
           end), w').
Proof.
  eexists. split; [apply store_song_commits |].
  unfold get_info_for_song_id, bind, get_db, ret, with_db. cbn [db song_info_tbl fst].
  rewrite find_app.
  destruct (find (fun row : string * string * string * string => String.eqb (snd row) (snd h))
                 (song_info_tbl (db w))) as [[[[a0 b0] c0] id] |]; [reflexivity |].
  cbn [find snd]. now rewrite String.eqb_refl.
Qed.

Lemma store_song_None_db hashes w :
  db (snd (store_song hashes PyNone w)) = db w /\
  lock_defined (snd (store_song hashes PyNone w)) = lock_defined w.
Proof. destruct hashes; split; reflexivity. Qed.

Section RegisterFacts.
Variable uuid5_oid_int : string -> Z.
Variable fingerprint_file : string -> result (list fingerprint).
Variable TinyTag_get : string -> result tag.

Lemma register_song_unfold filename w :
  register_song uuid5_oid_int fingerprint_file TinyTag_get filename w
  = match find (fun row => String.eqb (snd row) (str (uuid5_oid_int filename)))
               (song_info_tbl (db w)) with
    | Some _ => (Ok PyNone, w)
    | None =>
        match fingerprint_file filename with
        | Raise e => (Raise e, w)
        | Ok hashes =>
            match TinyTag_get filename with
            | Raise e => (Raise e, w)
            | Ok tg =>
                store_song hashes PyNone
                  (with_stdout w
                     (stdout w ++ [PyTuple [match albumartist tg with
                                            | None => artist tg
                                            | Some _ => albumartist tg
                                            end; album tg; title tg]]))
            end
        end
    end.
Proof.
  unfold register_song, song_in_db, bind, get_db, ret, lift, get_song_info, print.
  destruct (find _ (song_info_tbl (db w))); [reflexivity |].
  destruct (fingerprint_file filename) as [hashes | e]; [| reflexivity].
  destruct (TinyTag_get filename) as [tg | e]; [| reflexivity].
  unfold with_stdout. cbv beta iota delta [bind lift]. cbn [lock_defined].
  now destruct (lock_defined w).
Qed.

(** X15.  [register_song] never changes the database: [get_song_info]
    hands it [None], on which [store_song] fails before its commit. *)
Theorem register_song_never_stores filename w :
  db (snd (register_song uuid5_oid_int fingerprint_file TinyTag_get filename w)) = db w.
Proof.
  rewrite register_song_unfold.
  destruct (find _ (song_info_tbl (db w))); [reflexivity |].
  destruct (fingerprint_file filename) as [hashes | e]; [| reflexivity].
  destruct (TinyTag_get filename) as [tg | e]; [| reflexivity].
  now destruct hashes.
Qed.

(** X16.  For a file that is not registered, can be read and has at least
    one hash, [register_song] raises [TypeError]. *)
Theorem register_song_raises_TypeError filename w h hashes tg :
  song_in_db uuid5_oid_int filename w = (Ok false, w) ->
  fingerprint_file filename = Ok (h :: hashes) ->
  TinyTag_get filename = Ok tg ->
  fst (register_song uuid5_oid_int fingerprint_file TinyTag_get filename w) = Raise TypeError.
Proof.
  intros Hs Hf Ht. rewrite register_song_unfold.
  unfold song_in_db, bind, get_db, ret in Hs.
  destruct (find _ (song_info_tbl (db w))); [discriminate |].
  rewrite Hf, Ht. reflexivity.
Qed.

(** X17.  For a file whose id is in [song_info], [register_song] returns at
    once: nothing is read, printed or written. *)
Theorem register_song_skips_known filename w :
  song_in_db uuid5_oid_int filename w = (Ok true, w) ->
  register_song uuid5_oid_int fingerprint_file TinyTag_get filename w = (Ok PyNone, w).
Proof.
  intros Hs. rewrite register_song_unfold.
  unfold song_in_db, bind, get_db, ret in Hs.
  destruct (find _ (song_info_tbl (db w))); [reflexivity | discriminate].
Qed.
End RegisterFacts.

(** X18.  [recognise_song] leaves the database and the lock as they are.
    When it returns it has printed exactly one line; when it raises it has
    printed nothing. *)
Theorem recognise_song_read_only
    (fingerprint_file : string -> result (list fingerprint)) (filename : string) (w : world) :
  match recognise_song fingerprint_file filename w with
  | (Ok _, w') =>
      db w' = db w /\ lock_defined w' = lock_defined w /\
      exists line, stdout w' = stdout w ++ [line]
  | (Raise _, w') => w' = w
  end.
Proof.
  unfold recognise_song, bind, lift.
  destruct (fingerprint_file filename) as [hashes | e]; [| reflexivity].
  destruct (get_matches_full hashes w) as (m & -> & _).
  destruct (best_match m) as [matched_song | e]; [| reflexivity].
  unfold get_info_for_song_id, bind, get_db, ret, print.
  destruct matched_song as [id |].
  - destruct (find _ (song_info_tbl (db w))) as [[[[a b] c] i] |]; simpl; eauto.
  - simpl. eauto.
Qed.

Lemma last_query_offset_In hashes h t :
  last_query_offset hashes h = Some t ->
  exists q, In q hashes /\ fst (fst q) = h /\ snd (fst q) = t.
Proof.
  induction hashes as [| rec rest IH]; simpl; [discriminate |].
  destruct (last_query_offset rest h) as [t' |] eqn:E.
  - intros H. injection H as <-. destruct (IH eq_refl) as (q & Hq & E1 & E2). eauto.
  - destruct (h =? fst (fst rec)) eqn:B; [| discriminate].
    intros H. injection H as <-. apply Z.eqb_eq in B. eauto.
Qed.

Lemma last_query_offset_self (rest : list fingerprint) : forall rec,
  exists r, In r (rec :: rest) /\
            last_query_offset (rec :: rest) (fst (fst r)) = Some (snd (fst r)).
Proof.
  induction rest as [| r0 rest IH]; intros rec.
  - exists rec. split; [now left |]. simpl. now rewrite Z.eqb_refl.
  - destruct (IH r0) as (r & Hr & E). exists r. split; [now right |].
    change (last_query_offset (rec :: r0 :: rest) (fst (fst r)))
      with (match last_query_offset (r0 :: rest) (fst (fst r)) with
            | Some t => Some t
            | None => if fst (fst r) =? fst (fst rec) then Some (snd (fst rec)) else None
            end).
    now rewrite E.
Qed.

Lemma NoDup_all_equal {A} (l : list A) (a : A) :
  NoDup l -> (forall x, In x l -> x = a) -> In a l -> l = [a].
Proof.
  intros N H Ha. destruct l as [| x [| y l]].
  - destruct Ha.
  - now rewrite (H x (or_introl eq_refl)).
  - exfalso. inversion N as [| ? ? Hx _]; subst. apply Hx.
    rewrite (H x), (H y); simpl; auto.
Qed.

(** X19.  Round trip.  Into an empty database, store the hashes of a file,
    all under one song id and with time offsets whose differences are
    moderate, together with its tags; recognising the same file then prints
    these tags, [None] replaced by ["Unknown"]. *)
Theorem store_then_recognise
    (fingerprint_file : string -> result (list fingerprint)) (filename : string)
    (h : fingerprint) (hashes : list fingerprint) (a b c : option string) (w : world) :
  fingerprint_file filename = Ok (h :: hashes) ->
  hash_tbl (db w) = [] -> song_info_tbl (db w) = [] ->
  forallb (fun r => String.eqb (snd r) (snd h)) hashes = true ->
  offsets_compatible (h :: hashes) = true ->
  exists w',
    store_song (h :: hashes) (PyTuple [a; b; c]) w = (Ok PyNone, w') /\
    recognise_song fingerprint_file filename w'
    = (Ok PyNone,
       with_stdout w'
         (stdout w' ++ [PyTuple [Some (or_unknown a); Some (or_unknown b);
                                 Some (or_unknown c)]])).
Proof.
  intros Hf Hh Hi Hsid Hfin.
  eexists. split; [apply store_song_commits |].
  rewrite Hh, Hi. cbn [app].
  set (w' := with_db w _).
  assert (Hsong : forall r, In r (h :: hashes) -> snd r = snd h).
  { intros r [<- | Hr]; auto. rewrite forallb_forall in Hsid. now apply String.eqb_eq, Hsid. }
  unfold recognise_song, bind, lift. rewrite Hf.
  destruct (get_matches_full (h :: hashes) w') as (m & -> & Hg & Hs).
  change (hash_tbl (db w')) with (h :: hashes) in Hg, Hs.
  (* every stored row is queried *)
  assert (Hq : forall r, In r (h :: hashes) ->
                 existsb (Z.eqb (fst (fst r)))
                         (map (fun x : fingerprint => fst (fst x)) (h :: hashes)) = true).
  { intros r Hr. apply existsb_exists. exists (fst (fst r)). split; [| apply Z.eqb_refl].
    now apply (in_map (fun x : fingerprint => fst (fst x))). }
  (* the MatchSet has the single key [snd h] *)
  apply group_matches_keys in Hg; [| constructor | constructor].
  destruct Hg as (N & V & I).
  assert (Hkeys : map fst m = [snd h]).
  { apply NoDup_all_equal; auto.
    - intros k Hk. apply I in Hk as [[] | Hk]. apply in_map_iff in Hk as (r & <- & Hr).
      apply filter_In in Hr as [Hr _]. now apply Hsong.
    - apply I. right. apply (in_map (fun r : fingerprint => snd r)).
      apply filter_In. split; [now left | apply Hq; now left]. }
  destruct m as [| [k L] [| kv m']]; try discriminate.
  cbn [map fst] in Hkeys. injection Hkeys as ->.
  specialize (Hs (snd h)). unfold offsets_of in Hs. cbn [dict_get] in Hs.
  rewrite String.eqb_refl in Hs.
  (* the pairs *)
  assert (HL : forall x, In x L ->
             exists r q, In r (h :: hashes) /\ In q (h :: hashes) /\
                         x = (snd (fst r), snd (fst q))).
  { intros x Hx. rewrite Hs in Hx. apply in_flat_map in Hx as (r & Hr & Hx).
    apply filter_In in Hr as [Hr _]. unfold pair_of in Hx.
    destruct (last_query_offset (h :: hashes) (fst (fst r))) as [t |] eqn:E; [| destruct Hx].
    destruct Hx as [<- | []]. apply last_query_offset_In in E as (q & Hq' & _ & <-). eauto. }
  destruct (last_query_offset_self hashes h) as (r0 & Hr0 & E0).
  assert (Hself : In (snd (fst r0), snd (fst r0)) L).
  { rewrite Hs. apply in_flat_map. exists r0. split.
    - apply filter_In. split; auto. apply String.eqb_eq. now apply Hsong.
    - unfold pair_of. rewrite E0. now left. }
  (* the list is scoreable and holds a zero delta *)
  unfold offsets_compatible in Hfin. rewrite forallb_forall in Hfin.
  assert (Hfin' : forall r q, In r (h :: hashes) -> In q (h :: hashes) ->
                    moderate (fsub (snd (fst r)) (snd (fst q))) = true).
  { intros r q Hr Hq'. specialize (Hfin r Hr). rewrite forallb_forall in Hfin. now apply Hfin. }
  assert (HSc : scoreable L = true).
  { destruct L as [| x L']; [destruct Hself |]. unfold scoreable.
    apply forallb_forall. intros y Hy. destruct (HL y Hy) as (r & q & Hr & Hq' & ->).
    now apply Hfin'. }
  assert (Hz : existsb (fun x => fle (S754_zero false) (fsub (fst x) (snd x))) L = true).
  { apply existsb_exists. exists (snd (fst r0), snd (fst r0)). split; auto.
    cbn [fst snd]. specialize (Hfin' r0 r0 Hr0 Hr0).
    apply moderate_spec in Hfin' as [Hfin' _]. unfold finite in Hfin'.
    destruct (is_finite (snd (fst r0))) eqn:F.
    - now rewrite (fsub_self _ F).
    - rewrite (fsub_self_not_finite _ F) in Hfin'. discriminate. }
  destruct (score_positive_of_nonneg_delta L HSc Hz) as (s & Hsc & Hpos).
  unfold best_match. cbn [best_match_loop].
  replace (List.length L <? 0)%nat with false by (symmetry; apply Nat.ltb_ge; lia).
  rewrite Hsc. cbn [rbind].
  replace (0 <? s)%nat with true by (symmetry; apply Nat.ltb_lt; lia).
  unfold get_info_for_song_id, bind, get_db, ret, print, with_stdout.
  unfold w', with_db. cbn [db song_info_tbl find snd stdout lock_defined].
  rewrite String.eqb_refl. reflexivity.
Qed.

(** ** The files of a directory *)

Lemma py_split_nonempty sep s : py_split sep s <> [].
Proof.
  destruct s as [| c rest]; simpl; [discriminate |].
  destruct (Ascii.eqb c sep); [discriminate |].
  destruct (py_split sep rest); discriminate.
Qed.

Lemma py_split_no_sep sep s : no_char sep s = true -> py_split sep s = [s].
Proof.
  induction s as [| c rest IH]; simpl; auto.
  intros H. apply andb_true_iff in H as [Hc Hr]. apply negb_true_iff in Hc.
  rewrite Hc, (IH Hr). reflexivity.
Qed.

Lemma last_cons_nonempty {A} (a : A) (l : list A) (d : A) : l <> [] -> last (a :: l) d = last l d.
Proof. destruct l; [congruence | reflexivity]. Qed.

Lemma py_split_parts sep base ext :
  no_char sep ext = true ->
  exists hd tl, py_split sep (base ++ String sep ext)%string = hd :: tl /\ tl <> [] /\
                last tl EmptyString = ext.
Proof.
  intros H. induction base as [| c rest IH]; simpl.
  - rewrite Ascii.eqb_refl, (py_split_no_sep sep ext H).
    exists EmptyString, [ext]. repeat split; auto. discriminate.
  - destruct IH as (hd & tl & E & Hne & Hl). rewrite E.
    destruct (Ascii.eqb c sep).
    + exists EmptyString, (hd :: tl). repeat split; [discriminate |].
      now rewrite last_cons_nonempty.
    + exists (String c hd), tl. auto.
Qed.

Lemma py_split_last sep base ext :
  no_char sep ext = true ->
  last (py_split sep (base ++ String sep ext)%string) EmptyString = ext.
Proof.
  intros H. destruct (py_split_parts sep base ext H) as (hd & tl & -> & Hne & Hl).
  now rewrite last_cons_nonempty.
Qed.

(** X20.  [register_directory] decides by the text after the last dot: a
    name that ends in a dot followed by [ext], and the name [ext] itself
    (no dot at all), are kept exactly when [ext] is one of the known
    extensions. *)
Theorem known_extension_of_suffix (base ext : string) :
  no_char "."%char ext = true ->
  has_known_extension (base ++ String "."%char ext)%string
  = existsb (String.eqb ext) KNOWN_EXTENSIONS /\
  has_known_extension ext = existsb (String.eqb ext) KNOWN_EXTENSIONS.
Proof.
  intros H. unfold has_known_extension.
  now rewrite py_split_last, (py_split_no_sep "."%char ext H).
Qed.

Lemma append_empty_r (a : string) : (a ++ "")%string = a.
Proof. induction a as [| c rest IH]; simpl; [reflexivity | now rewrite IH]. Qed.

Lemma append_assoc (a b c : string) : ((a ++ b) ++ c)%string = (a ++ (b ++ c))%string.
Proof. induction a as [| x rest IH]; simpl; [reflexivity | now rewrite IH]. Qed.

Lemma endswith_slash_cons c s :
  s <> EmptyString -> endswith_slash (String c s) = endswith_slash s.
Proof. destruct s; [congruence | reflexivity]. Qed.

Lemma endswith_slash_app a b :
  b <> EmptyString -> endswith_slash (a ++ b)%string = endswith_slash b.
Proof.
  intros Hb. induction a as [| c rest IH]; simpl; auto.
  rewrite <- IH. apply (endswith_slash_cons c (rest ++ b)%string).
  destruct rest; simpl; [exact Hb | discriminate].
Qed.

Lemma os_path_join_relative (path root f : string) :
  startswith_slash root = false -> startswith_slash f = false ->
  path <> EmptyString -> endswith_slash path = false ->
  os_path_join path [root; f] = (path ++ "/" ++ os_path_join root [f])%string.
Proof.
  intros Hr Hf Hp He. unfold os_path_join. cbn [fold_left].
  rewrite Hr, Hf, He.
  replace (String.eqb path EmptyString) with false
    by (symmetry; apply String.eqb_neq; exact Hp).
  cbn [orb].
  replace (String.eqb (path ++ "/" ++ root)%string EmptyString) with false
    by (symmetry; apply String.eqb_neq; destruct path; [congruence | discriminate]).
  cbn [orb].
  destruct root as [| c r].
  - change ("/" ++ "")%string with "/"%string. rewrite endswith_slash_app by discriminate.
    cbn [endswith_slash Ascii.eqb String.eqb orb]. simpl.
    now rewrite append_assoc.
  - rewrite <- append_assoc. rewrite endswith_slash_app by discriminate.
    replace (String.eqb (String c r) EmptyString) with false by reflexivity. cbn [orb].
    destruct (endswith_slash (String c r)); now rewrite !append_assoc.
Qed.

Lemma os_path_join_absolute (path root f : string) :
  startswith_slash root = true -> os_path_join path [root; f] = os_path_join root [f].
Proof. intros Hr. unfold os_path_join. cbn [fold_left]. now rewrite Hr. Qed.

Lemma flat_map_ext_on {A B} (f g : A -> list B) (l : list A) :
  (forall a, In a l -> f a = g a) -> flat_map f l = flat_map g l.
Proof.
  induction l as [| a l IH]; intros H; simpl; auto.
  rewrite (H a (or_introl eq_refl)), IH; auto. intros; apply H; now right.
Qed.

(** X21.  For a relative [path], where the roots [os.walk] yields start
    with [path] already, the paths handed to [register_song] are [path],
    a slash, and the root joined with the file name: [path] is there
    twice. *)
Theorem to_register_repeats_relative_path
    (os_walk : string -> list (string * list string)) (path : string) :
  path <> EmptyString -> endswith_slash path = false ->
  forallb (fun rf => negb (startswith_slash (fst rf))
                     && forallb (fun f => negb (startswith_slash f)) (snd rf))
          (os_walk path) = true ->
  to_register os_walk path
  = flat_map (fun rf => map (fun f => (path ++ "/" ++ os_path_join (fst rf) [f])%string)
                            (filter has_known_extension (snd rf)))
             (os_walk path).
Proof.
  intros Hp He Hw. unfold to_register. rewrite forallb_forall in Hw.
  apply flat_map_ext_on. intros rf Hrf. specialize (Hw rf Hrf).
  apply andb_true_iff in Hw as [Hr Hfs]. apply negb_true_iff in Hr.
  rewrite forallb_forall in Hfs.
  apply map_ext_in. intros f Hf. apply filter_In in Hf as [Hf _].
  apply os_path_join_relative; auto. apply negb_true_iff. now apply Hfs.
Qed.

(** X22.  For an absolute [path], where the roots [os.walk] yields start
    with a slash, the paths handed to [register_song] are the root joined
    with the file name. *)
Theorem to_register_absolute_roots
    (os_walk : string -> list (string * list string)) (path : string) :
  forallb (fun rf => startswith_slash (fst rf)) (os_walk path) = true ->
  to_register os_walk path
  = flat_map (fun rf => map (fun f => os_path_join (fst rf) [f])
                            (filter has_known_extension (snd rf)))
             (os_walk path).
Proof.
  intros Hw. unfold to_register. rewrite forallb_forall in Hw.
  apply flat_map_ext_on. intros rf Hrf.
  apply map_ext. intros f. apply os_path_join_absolute. now apply Hw.
Qed.

(** ** Instances *)

Lemma hash_point_pair_ignores_time_witness :
  is_finite (Z2F 2) = true /\
  (fsub (Z2F 2) (Z2F 2) = S754_zero false /\
   hash_point_pair sample_hash (Z2F 440, Z2F 1) (Z2F 880, Z2F 2)
   = sample_hash (Z2F 440, Z2F 880, S754_zero false) /\
   forall t1 t2, is_finite t2 = true ->
     hash_point_pair sample_hash (Z2F 440, t1) (Z2F 880, t2)
     = hash_point_pair sample_hash (Z2F 440, Z2F 1) (Z2F 880, Z2F 2)).
Proof.
  split; [reflexivity |].
  apply (hash_point_pair_ignores_time sample_hash (Z2F 440, Z2F 1) (Z2F 880, Z2F 2)).
  reflexivity.
Defined.

Lemma empty_query_reports_no_match_witness :
  (fun _ : string => Ok (@nil fingerprint)) "clip.wav"%string = Ok [] /\
  (get_matches [] sample_world = (Ok [], sample_world) /\
   recognise_song (fun _ => Ok []) "clip.wav" sample_world
   = (Ok PyNone,
      with_stdout sample_world
        (stdout sample_world ++ [PyStr "Did not find a result"]))).
Proof.
  split; [reflexivity |].
  apply (empty_query_reports_no_match (fun _ => Ok []) "clip.wav" sample_world).
  reflexivity.
Defined.

Lemma best_match_skip_agrees_with_naive_witness :
  forallb (fun kv => scoreable (snd kv)) sample_matches = true /\
  ((forall song_id offsets, In (song_id, offsets) sample_matches ->
      exists s, score_match offsets = Ok s /\ (s <= List.length offsets)%nat) /\
   exists r, best_match_naive sample_matches = Ok r /\ best_match sample_matches = Ok r).
Proof.
  split; [reflexivity |].
  apply (best_match_skip_agrees_with_naive sample_matches). reflexivity.
Defined.

Lemma find_peaks_budget_order_dominance_witness :
  (forallb (forallb is_finite) sample_Sxx = true /\
   List.length sample_Sxx = 25%nat /\
   forallb (fun row => Nat.eqb (List.length row) 45) sample_Sxx = true /\
   peak_target (Z.of_nat 25 * Z.of_nat 45) = Ok 1) /\
  exists peaks,
    find_peaks sample_Sxx = Ok peaks /\
    Z.of_nat (List.length peaks) <= 1 /\
    StronglySorted (fun p q => fle (value sample_Sxx q) (value sample_Sxx p) = true) peaks /\
    forall y x r c, In (y, x) peaks ->
      Z.of_nat y - 15 <= r <= Z.of_nat y + 14 ->
      Z.of_nat x - 15 <= c <= Z.of_nat x + 14 ->
      fle (cell sample_Sxx r c) (value sample_Sxx (y, x)) = true.
Proof.
  split; [repeat split; vm_compute; reflexivity |].
  apply (find_peaks_budget_order_dominance sample_Sxx 25 45 1);
    vm_compute; reflexivity.
Defined.

Lemma get_matches_pairs_last_witness :
  Permutation sample_rows_by_hash (selected_rows sample_query (db sample_indexed_world)) /\
  exists m, group_matches (query_dict sample_query) sample_rows_by_hash [] = Ok m /\
    forall song, Permutation (offsets_of m song)
      (flat_map (pair_of (last_query_offset sample_query))
         (filter (fun row => String.eqb (snd row) song)
                 (hash_tbl (db sample_indexed_world)))).
Proof.
  assert (HP : Permutation sample_rows_by_hash
                 (selected_rows sample_query (db sample_indexed_world))).
  { assert (E : selected_rows sample_query (db sample_indexed_world) = sample_rows)
      by reflexivity.
    rewrite E. unfold sample_rows_by_hash, sample_rows.
    apply (Permutation_cons_app [(2, Z2F 1, "A"%string)]
             [(2, Z2F 5, "B"%string); (1, Z2F 7, "A"%string)]).
    apply (Permutation_cons_app [(2, Z2F 1, "A"%string); (2, Z2F 5, "B"%string)] []).
    apply Permutation_refl. }
  split; [exact HP |].
  exact (proj2 (get_matches_pairs_last sample_query sample_indexed_world)
           sample_rows_by_hash HP).
Defined.

Lemma hash_points_song_id_witness :
  hash_points sample_hash (fun _ => 7) sample_points "song.mp3" <> [] /\
  exists w',
    store_song (hash_points sample_hash (fun _ => 7) sample_points "song.mp3")
               (PyTuple [Some "Artist"; None; Some "Title"]%string) sample_world
    = (Ok PyNone, w') /\
    song_in_db (fun _ => 7) "song.mp3" w' = (Ok true, w').
Proof.
  assert (Hne : hash_points sample_hash (fun _ => 7) sample_points "song.mp3" <> [])
    by (vm_compute; discriminate).
  split; [exact Hne |].
  exact (proj2 (proj2 (hash_points_song_id sample_hash (fun _ => 7) sample_points "song.mp3"))
           (Some "Artist"%string) None (Some "Title"%string) sample_world Hne).
Defined.

(** C9 (counterexample).  With [None] for [song_info], the value
    [register_song] passes, and one hash record, [store_song] raises
    [TypeError] and the database is as before: a non-empty hash list alone
    does not make it insert the rows. *)
Lemma store_song_None_inserts_nothing :
  ~ (forall hashes song_info w,
       hashes <> [] ->
       exists w' row,
         store_song hashes song_info w = (Ok PyNone, w') /\
         hash_tbl (db w') = hash_tbl (db w) ++ hashes /\
         song_info_tbl (db w') = song_info_tbl (db w) ++ [row]).
Proof.
  intros H.
  destruct (H [(42, Z2F 1, "7"%string)] PyNone sample_world) as (w' & row & Hs & _);
    [discriminate |].
  vm_compute in Hs. discriminate.
Qed.

(** C5 (counterexample).  With two query records of hash [1], at offsets
    [0.0] and [1.0], the stored row of hash [1] is paired with [1.0], the
    offset of the last of them, not with that of the first. *)
Lemma get_matches_not_first_query_offset :
  ~ (forall hashes w,
       exists m, get_matches hashes w = (Ok m, w) /\
         forall song, offsets_of m song
           = flat_map (pair_of (first_query_offset hashes))
               (filter (fun row => String.eqb (snd row) song) (hash_tbl (db w)))).
Proof.
  intros H.
  destruct (H [(1, Z2F 0, "q"%string); (1, Z2F 1, "q"%string)] sample_world)
    as (m & Hm & Hs).
  vm_compute in Hm. injection Hm as <-.
  specialize (Hs "s"%string). vm_compute in Hs. discriminate.
Qed.

Lemma find_peaks_count_witness :
  peak_target (Z.of_nat (List.length sample_Sxx) * Z.of_nat (List.length (hd [] sample_Sxx)))
  = Ok 1 /\
  exists peaks,
    find_peaks sample_Sxx = Ok peaks /\
    Z.of_nat (List.length peaks)
    = Z.min 1 (Z.of_nat (List.length (local_maxima sample_Sxx))).
Proof.
  split; [vm_compute; reflexivity |].
  apply (find_peaks_count sample_Sxx 1). vm_compute; reflexivity.
Defined.

Lemma find_peaks_distinct_local_maxima_witness :
  peak_target (Z.of_nat (List.length sample_Sxx) * Z.of_nat (List.length (hd [] sample_Sxx)))
  = Ok 1 /\
  exists peaks,
    find_peaks sample_Sxx = Ok peaks /\
    NoDup peaks /\
    forall y x, In (y, x) peaks ->
      exists row v,
        nth_error sample_Sxx y = Some row /\ nth_error row x = Some v /\
        feq v (data_max_at sample_Sxx PEAK_BOX_SIZE (Z.of_nat y) (Z.of_nat x)) = true.
Proof.
  split; [vm_compute; reflexivity |].
  apply (find_peaks_distinct_local_maxima sample_Sxx 1). vm_compute; reflexivity.
Defined.

Lemma find_peaks_keeps_highest_witness :
  (forallb (forallb is_finite) sample_Sxx = true /\
   peak_target (Z.of_nat (List.length sample_Sxx) * Z.of_nat (List.length (hd [] sample_Sxx)))
   = Ok 1) /\
  exists peaks,
    find_peaks sample_Sxx = Ok peaks /\
    forall p q, In p peaks -> In q (local_maxima sample_Sxx) -> ~ In q peaks ->
      fle (value sample_Sxx q) (value sample_Sxx p) = true.
Proof.
  split; [split; vm_compute; reflexivity |].
  apply (find_peaks_keeps_highest sample_Sxx 1); vm_compute; reflexivity.
Defined.

Lemma fingerprint_file_well_shaped_witness :
  (sample_spectrogram "song.mp3"%string
   = Ok (map (fun k => Z2F (Z.of_nat k * 100)) (seq 0 25),
         map (fun k => Z2F (Z.of_nat k)) (seq 0 45), sample_Sxx) /\
   List.length (map (fun k => Z2F (Z.of_nat k * 100)) (seq 0 25)) = List.length sample_Sxx /\
   forallb (fun row => Nat.eqb (List.length row)
                         (List.length (map (fun k => Z2F (Z.of_nat k)) (seq 0 45))))
           sample_Sxx = true /\
   peak_target (Z.of_nat (List.length sample_Sxx) * Z.of_nat (List.length (hd [] sample_Sxx)))
   = Ok 1) /\
  exists peaks,
    find_peaks sample_Sxx = Ok peaks /\
    fingerprint_file sample_hash (fun _ => 7) sample_spectrogram "song.mp3"
    = Ok (hash_points sample_hash (fun _ => 7)
            (map (fun i => (nth (fst i) (map (fun k => Z2F (Z.of_nat k * 100)) (seq 0 25))
                                S754_nan,
                            nth (snd i) (map (fun k => Z2F (Z.of_nat k)) (seq 0 45))
                                S754_nan))
                 peaks)
            "song.mp3").
Proof.
  split; [repeat split; vm_compute; reflexivity |].
  apply (fingerprint_file_well_shaped sample_hash (fun _ => 7) sample_spectrogram
           "song.mp3" _ _ sample_Sxx 1); vm_compute; reflexivity.
Defined.

Lemma target_zone_box_witness :
  (zone_bounds (Z2F 1000, Z2F 1) TARGET_T TARGET_F TARGET_START
   = (fadd (Z2F 1) TARGET_START, fadd (fadd (Z2F 1) TARGET_START) TARGET_T,
      Z2F (-1000), Z2F 3000) /\
   forallb is_finite [fadd (Z2F 1) TARGET_START; fadd (fadd (Z2F 1) TARGET_START) TARGET_T;
                      Z2F (-1000); Z2F 3000; fst (Z2F 1000, Z2F 2); snd (Z2F 1000, Z2F 2)]
   = true) /\
  (In (Z2F 1000, Z2F 2) (target_zone (Z2F 1000, Z2F 1) sample_points
                           TARGET_T TARGET_F TARGET_START) <->
   In (Z2F 1000, Z2F 2) sample_points /\
   (F2Q (Z2F (-1000)) <= F2Q (fst (Z2F 1000, Z2F 2)) <= F2Q (Z2F 3000))%Q /\
   (F2Q (fadd (Z2F 1) TARGET_START) <= F2Q (snd (Z2F 1000, Z2F 2))
    <= F2Q (fadd (fadd (Z2F 1) TARGET_START) TARGET_T))%Q).
Proof.
  split; [split; vm_compute; reflexivity |].
  apply (target_zone_box (Z2F 1000, Z2F 1) sample_points TARGET_T TARGET_F TARGET_START);
    vm_compute; reflexivity.
Defined.

Lemma score_match_identical_deltas_witness :
  (sample_offsets <> [] /\
   Forall (fun x => fsub (fst x) (snd x) = Z2F 3) sample_offsets /\
   moderate (Z2F 3) = true /\
   fle (S754_zero false) (Z2F 3) = true) /\
  score_match sample_offsets = Ok (List.length sample_offsets).
Proof.
  assert (Hne : sample_offsets <> []) by discriminate.
  assert (Hall : Forall (fun x => fsub (fst x) (snd x) = Z2F 3) sample_offsets)
    by (repeat (constructor; [vm_compute; reflexivity |]); constructor).
  split; [repeat split; auto |].
  apply (score_match_identical_deltas sample_offsets (Z2F 3) Hne Hall); reflexivity.
Defined.

Lemma best_match_finds_a_song_witness :
  (forallb (fun kv => scoreable (snd kv)) sample_matches = true /\
   In ("b"%string, [(Z2F 1, Z2F 1)]) sample_matches /\
   existsb (fun x => fle (S754_zero false) (fsub (fst x) (snd x))) [(Z2F 1, Z2F 1)] = true) /\
  exists found, best_match sample_matches = Ok (Some found).
Proof.
  assert (Hin : In ("b"%string, [(Z2F 1, Z2F 1)]) sample_matches) by (right; left; reflexivity).
  split; [repeat split; auto |].
  apply (best_match_finds_a_song sample_matches "b" [(Z2F 1, Z2F 1)]); auto.
Defined.

Lemma score_match_bins_every_nonneg_delta_witness :
  (scoreable sample_offsets = true /\
   forallb (fun x => fle (S754_zero false) (fsub (fst x) (snd x))) sample_offsets = true) /\
  exists hist,
    delta_histogram sample_offsets = Ok hist /\
    score_match sample_offsets = np_max hist /\
    list_sum hist = List.length sample_offsets.
Proof.
  split; [split; reflexivity |].
  apply (score_match_bins_every_nonneg_delta sample_offsets); reflexivity.
Defined.

Lemma best_match_first_maximum_witness :
  forallb (fun kv => scoreable (snd kv)) sample_matches = true /\
  exists r, best_match sample_matches = Ok r /\
    match r with
    | None => scores_below sample_matches 1
    | Some song_id =>
        exists pre offsets post sc,
          sample_matches = pre ++ (song_id, offsets) :: post /\
          score_match offsets = Ok sc /\ (0 < sc)%nat /\
          scores_below pre sc /\ scores_below post (S sc)
    end.
Proof.
  split; [reflexivity |].
  apply (best_match_first_maximum sample_matches). reflexivity.
Defined.

Lemma register_song_raises_TypeError_witness :
  (song_in_db (fun _ => 7) "song.mp3" empty_world = (Ok false, empty_world) /\
   (fun _ : string => Ok sample_hashes) "song.mp3"%string
   = Ok ((11, Z2F 1, "7"%string) :: [(12, Z2F 2, "7"); (11, Z2F 3, "7")]%string) /\
   (fun _ : string => Ok sample_tag) "song.mp3"%string = Ok sample_tag) /\
  fst (register_song (fun _ => 7) (fun _ => Ok sample_hashes) (fun _ => Ok sample_tag)
         "song.mp3" empty_world)
  = Raise TypeError.
Proof.
  split; [repeat split; reflexivity |].
  apply (register_song_raises_TypeError (fun _ => 7) (fun _ => Ok sample_hashes)
           (fun _ => Ok sample_tag) "song.mp3" empty_world
           (11, Z2F 1, "7"%string) [(12, Z2F 2, "7"); (11, Z2F 3, "7")]%string sample_tag);
    reflexivity.
Defined.

Lemma register_song_skips_known_witness :
  song_in_db (fun _ => 7) "song.mp3" registered_world = (Ok true, registered_world) /\
  register_song (fun _ => 7) (fun _ => Ok sample_hashes) (fun _ => Ok sample_tag)
    "song.mp3" registered_world
  = (Ok PyNone, registered_world).
Proof.
  split; [reflexivity |].
  apply (register_song_skips_known (fun _ => 7) (fun _ => Ok sample_hashes)
           (fun _ => Ok sample_tag) "song.mp3" registered_world).
  reflexivity.
Defined.

Lemma store_then_recognise_witness :
  ((fun _ : string => Ok sample_hashes) "song.mp3"%string
   = Ok ((11, Z2F 1, "7"%string) :: [(12, Z2F 2, "7"); (11, Z2F 3, "7")]%string) /\
   hash_tbl (db empty_world) = [] /\ song_info_tbl (db empty_world) = [] /\
   forallb (fun r : fingerprint => String.eqb (snd r) "7")
           [(12, Z2F 2, "7"); (11, Z2F 3, "7")]%string = true /\
   offsets_compatible sample_hashes = true) /\
  exists w',
    store_song sample_hashes (PyTuple [Some "Artist"; None; Some "Title"]%string) empty_world
    = (Ok PyNone, w') /\
    recognise_song (fun _ => Ok sample_hashes) "song.mp3" w'
    = (Ok PyNone,
       with_stdout w'
         (stdout w' ++ [PyTuple [Some "Artist"; Some "Unknown"; Some "Title"]%string])).
Proof.
  split; [repeat split; reflexivity |].
  apply (store_then_recognise (fun _ => Ok sample_hashes) "song.mp3"
           (11, Z2F 1, "7"%string) [(12, Z2F 2, "7"); (11, Z2F 3, "7")]%string
           (Some "Artist"%string) None (Some "Title"%string) empty_world);
    reflexivity.
Defined.

Lemma known_extension_of_suffix_witness :
  no_char "."%char "mp3" = true /\
  (has_known_extension "song.mp3" = existsb (String.eqb "mp3") KNOWN_EXTENSIONS /\
   has_known_extension "mp3" = existsb (String.eqb "mp3") KNOWN_EXTENSIONS).
Proof.
  split; [reflexivity |].
  apply (known_extension_of_suffix "song" "mp3"). reflexivity.
Defined.

Lemma to_register_repeats_relative_path_witness :
  ("music"%string <> EmptyString /\ endswith_slash "music" = false /\
   forallb (fun rf => negb (startswith_slash (fst rf))
                      && forallb (fun f => negb (startswith_slash f)) (snd rf))
           (sample_walk "music") = true) /\
  to_register sample_walk "music"
  = flat_map (fun rf => map (fun f => ("music" ++ "/" ++ os_path_join (fst rf) [f])%string)
                            (filter has_known_extension (snd rf)))
             (sample_walk "music").
Proof.
  assert (Hne : "music"%string <> EmptyString) by discriminate.
  split; [repeat split; auto |].
  apply (to_register_repeats_relative_path sample_walk "music" Hne); reflexivity.
Defined.

Lemma to_register_absolute_roots_witness :
  forallb (fun rf => startswith_slash (fst rf)) (sample_walk "/music") = true /\
  to_register sample_walk "/music"
  = flat_map (fun rf => map (fun f => os_path_join (fst rf) [f])
                            (filter has_known_extension (snd rf)))
             (sample_walk "/music").
Proof.
  split; [reflexivity |].
  apply (to_register_absolute_roots sample_walk "/music"). reflexivity.
Defined.

(** ** The embedding on concrete inputs *)

Example peak_target_values :
  peak_target 0 = Ok 0 /\ peak_target 1124 = Ok 0 /\ peak_target 1125 = Ok 1 /\
  peak_target 2250 = Ok 2 /\ peak_target 172029 = Ok 152.
Proof. vm_compute. repeat split; reflexivity. Qed.

(** Of two spikes in a 25 by 45 matrix the budget of one peak keeps the
    higher one; the cells of the zero plateau are peaks too, ranked below. *)
Example find_peaks_two_spikes :
  find_peaks (spikes 25 45 [(3%nat, 4%nat, 5); (20%nat, 40%nat, 9)]) = Ok [(20, 40)]%nat.
Proof. vm_compute. reflexivity. Qed.

(** A cell in the neighbourhood of a higher one is not a peak. *)
Example peak_coords_shadowed :
  let Sxx := spikes 2 3 [(0%nat, 0%nat, 9); (1%nat, 2%nat, 7)] in
  peak_coords Sxx (maximum_filter Sxx PEAK_BOX_SIZE) = [(0, 0)]%nat.
Proof. vm_compute. reflexivity. Qed.

Example target_zone_bounds :
  target_zone (Z2F 1000, Z2F 1)
    [(Z2F 1000, Z2F 1); (Z2F 1000, Z2F 2); (Z2F 4000, Z2F 2);
     (Z2F 3000, fdiv (Z2F 285) (Z2F 100)); (Z2F 3000, fdiv (Z2F 286) (Z2F 100))]
    TARGET_T TARGET_F TARGET_START
  = [(Z2F 1000, Z2F 2); (Z2F 3000, fdiv (Z2F 285) (Z2F 100))].
Proof. vm_compute. reflexivity. Qed.

Example score_match_values :
  score_match [(Z2F 5, Z2F 1); (Z2F 6, Z2F 2); (Z2F 9, Z2F 2)] = Ok 2%nat /\
  score_match [] = Raise ValueError /\
  score_match [(S754_nan, Z2F 1)] = Raise ValueError /\
  best_match sample_matches = Ok (Some "c"%string).
Proof. vm_compute. repeat split; reflexivity. Qed.

Example get_matches_groups :
  fst (get_matches [(1, Z2F 0, "q"); (2, Z2F 4, "q"); (1, Z2F 1, "q")]%string
         (with_db sample_world
            {| hash_tbl := [(1, Z2F 5, "s"); (3, Z2F 6, "s"); (2, Z2F 7, "u");
                            (1, Z2F 8, "s")]%string;
               song_info_tbl := [] |}))
  = Ok [("s", [(Z2F 5, Z2F 1); (Z2F 8, Z2F 1)]); ("u", [(Z2F 7, Z2F 4)])]%string.
Proof. vm_compute. reflexivity. Qed.

(** Beyond [2^53] the bin edges round: for the single delta [1e18] the
    computed [stop] equals [start], there is no edge and no bin, and
    [numpy.max] raises.  The variant that scores every song then raises on a
    song that [best_match] skips. *)
Example score_match_beyond_2_53 :
  let matches := [("a"%string, [(Z2F 3, Z2F 2); (Z2F 5, Z2F 4)]);
                  ("b"%string, [(Z2F (10 ^ 18), Z2F 0)])] in
  fadd (fadd (Z2F (10 ^ 18)) half) (Z2F 1) = Z2F (10 ^ 18) /\
  np_arange (Z2F (10 ^ 18)) (fadd (fadd (Z2F (10 ^ 18)) half) (Z2F 1)) half = Ok [] /\
  score_match [(Z2F (10 ^ 18), Z2F 0)] = Raise ValueError /\
  best_match_naive matches = Raise ValueError /\
  best_match matches = Ok (Some "a"%string).
Proof. vm_compute. repeat split; reflexivity. Qed.
